(** * Insurance console: aggregation, filtering, sorting and mutation handlers

    A shallow embedding of the logic of the React application (the part of
    the source that computes: [Dashboard], [FinancialReports], [ViewPolicies],
    [CustomerManagement] and the handlers of [App]), with the properties the
    specification states about it.

    Conventions of the embedding.
    - A JavaScript number is a binary64 float ([PrimFloat.float]); sums are
      folded left to right as [Array.prototype.reduce] does.
    - A time value (what [Date.prototype.getTime] returns) is [option Z]:
      [Some ms] for a valid date, [None] for an Invalid Date (NaN).
    - A property that the code reads defensively ([?.], truthiness tests) is
      an [option]; [None] is [undefined].
    - Language built-ins whose result depends on Unicode tables, on decimal
      parsing or on the local time zone are the fields of the class
      [Builtins]; every general theorem holds for every instance, and
      [refBuiltins] is an executable instance used at concrete inputs. *)

From Stdlib Require Import ZArith List Ascii String Floats Uint63 Bool Permutation Sorted Lia.
From stdpp Require Import base option list gmap strings.

Local Open Scope string_scope.

(** ** JavaScript values and built-ins *)

(** The values a numeric document field ([totalAmount], [commission],
    [amount]) can hold: missing, a number, or a string. *)
Inductive jsval : Type :=
  | VUndefined
  | VNumber (f : float)
  | VString (s : string).

(** A Firestore [Timestamp]. *)
Record Timestamp : Type := { seconds : Z; nanoseconds : Z }.

(** [ts.toDate().getTime()]: [seconds * 1000 + nanoseconds / 1e6], cut to
    whole milliseconds towards zero by the [Date] constructor. (Exact for the
    microsecond-precision timestamps the server writes.) *)
Definition toDate (ts : Timestamp) : Z :=
  ((seconds ts * 1000000000 + nanoseconds ts) ÷ 1000000)%Z.

(** What an amount field holds when its form is submitted. The two
    totalAmount fields are [<input type="number" ... required>]: the browser
    keeps in such a field only a valid floating-point number of HTML (an
    optional [-], digits with an optional fraction or a fraction alone, and
    an optional exponent), and does not submit the form while the field is
    empty. *)
Module NumberInput.

Definition isDigit (c : ascii) : bool :=
  let n := nat_of_ascii c in ((48 <=? n)%nat && (n <=? 57)%nat)%bool.

(** The number of digits [s] starts with, and what follows them. *)
Fixpoint digitsPrefix (s : string) : nat * string :=
  match s with
  | String c s' =>
      if isDigit c then let '(n, r) := digitsPrefix s' in (S n, r) else (O, s)
  | EmptyString => (O, s)
  end.

(** Nothing, or [e] or [E], an optional sign and one or more digits. *)
Definition exponentPart (s : string) : bool :=
  match s with
  | EmptyString => true
  | String c s' =>
      (Ascii.eqb c "e" || Ascii.eqb c "E")%bool
      && (let unsigned :=
            match s' with
            | String "-"%char r | String "+"%char r => r
            | _ => s'
            end in
          let '(n, r) := digitsPrefix unsigned in
          (0 <? n)%nat && (r =? ""))
  end.

Definition valid (s : string) : bool :=
  let unsigned :=
    match s with
    | String "-"%char r => r
    | _ => s
    end in
  let '(ni, r) := digitsPrefix unsigned in
  match r with
  | String "."%char r' =>
      let '(nf, r'') := digitsPrefix r' in (0 <? nf)%nat && exponentPart r''
  | _ => (0 <? ni)%nat && exponentPart r
  end.

(** The state behind the field of the edit form is the number read from
    the document, which the field shows when it is finite, or the string
    typed over it. *)
Definition holds (v : jsval) : Prop :=
  match v with
  | VUndefined => False
  | VNumber x => PrimFloat.is_finite x = true
  | VString s => valid s = true
  end.

End NumberInput.

Class Builtins : Type := {
  (** [String.prototype.toLowerCase] *)
  toLowerCase : string -> string;
  (** [parseFloat] applied to a string *)
  parseFloat_string : string -> float;
  (** [ToNumber] applied to a string (operands of [<] of mixed type) *)
  ToNumber_string : string -> float;
  (** [new Date(s).getTime()] for a string [s] *)
  Date_parse : string -> option Z;
  (** [new Date(ts).getTime()] for a Firestore Timestamp object [ts] *)
  Date_ofTimestamp : Timestamp -> option Z;
  (** [d.setHours(0, 0, 0, 0)] on a valid time value: local midnight *)
  setHours_0 : Z -> Z;
  (** [d.setHours(23, 59, 59, 999)] on a valid time value *)
  setHours_end : Z -> Z
}.

(** What the claims need to know of the local calendar: midnight of a day is
    not after any instant of that day, never moves backwards as time
    advances, and is its own midnight. *)
Class LocalDay (B : Builtins) : Prop := {
  setHours_0_le : forall t, (setHours_0 t <= t)%Z;
  setHours_0_mono : forall s t, (s <= t)%Z -> (setHours_0 s <= setHours_0 t)%Z;
  setHours_0_idem : forall t, setHours_0 (setHours_0 t) = setHours_0 t
}.

(** [parseFloat] reads the number a string starts with: it returns NaN only
    for a string that starts with no numeric literal, so never for the
    value of a number field. *)
Class ReadsNumbers (B : Builtins) : Prop := {
  parseFloat_number :
    forall s, NumberInput.valid s = true -> PrimFloat.is_nan (parseFloat_string s) = false
}.

(** Truthiness of a string-valued property: [undefined] and [''] are falsy. *)
Definition truthy (o : option string) : bool :=
  match o with
  | Some s => negb (s =? "")
  | None => false
  end.

(** [x || 0] on a number: NaN, [+0] and [-0] are falsy. *)
Definition orZero (f : float) : float :=
  if (PrimFloat.is_nan f || PrimFloat.is_zero f)%bool then 0%float else f.

(** [parseFloat(v)]: the argument is first converted to a string; a number
    prints to a literal that reads back as itself, except that [-0] prints
    as ["0"]. *)
Definition parseFloat `{Builtins} (v : jsval) : float :=
  match v with
  | VUndefined => nan
  | VNumber f => if PrimFloat.is_zero f then 0%float else f
  | VString s => parseFloat_string s
  end.

(** [s.includes(sub)] *)
Fixpoint includes (s sub : string) : bool :=
  (String.prefix sub s ||
   match s with
   | EmptyString => false
   | String _ s' => includes s' sub
   end)%bool.

(** Relational operators on time values; a comparison with NaN is false. *)
Definition time_lt (a b : option Z) : bool :=
  match a, b with
  | Some x, Some y => (x <? y)%Z
  | _, _ => false
  end.

Definition time_le (a b : option Z) : bool :=
  match a, b with
  | Some x, Some y => (x <=? y)%Z
  | _, _ => false
  end.

(** [ToNumber] on the values of [jsval]. *)
Definition ToNumber `{Builtins} (v : jsval) : float :=
  match v with
  | VUndefined => nan
  | VNumber f => f
  | VString s => ToNumber_string s
  end.

(** [a < b]: two strings compare by code units, anything else numerically. *)
Definition js_lt `{Builtins} (a b : jsval) : bool :=
  match a, b with
  | VString s, VString t => String.ltb s t
  | _, _ => PrimFloat.ltb (ToNumber a) (ToNumber b)
  end.

(** ** Documents

    The fields of a policy as the components read them. [policyType] and
    [policyNumber] are read without a guard ([policy.policyType.toLowerCase()])
    and are strings in every document the application writes. The dates are
    the strings of the date inputs; the amounts are read through
    [parseFloat], so they may hold anything a [jsval] can; [customer] and
    [createdAt] are read through [?.]. *)

Module Customer.
Record t : Type := {
  firstName : option string;
  lastName : option string;
  phoneNumber : option string;
  idNumber : option string;
  address : option string;
  city : option string;
  postalCode : option string
}.
End Customer.

Module Policy.
Record t : Type := {
  id : string;
  policyType : string;
  policyNumber : string;
  policyDate : option string;
  validUntil : option string;
  totalAmount : jsval;
  commission : jsval;
  vehicleNumber : string;
  insuranceType : string;
  paidByCustomer : bool;
  paidToInsurer : bool;
  customer : option Customer.t;
  createdAt : option Timestamp
}.
End Policy.

Module LedgerEntry.
Record t : Type := {
  id : string;
  type : string;
  date : option string;
  amount : jsval;
  reason : string;
  policyId : option string;
  createdAt : option Timestamp
}.
End LedgerEntry.

(** ** An executable instance of the built-ins

    [refBuiltins] runs the definitions at concrete inputs. It agrees with a
    JavaScript engine on ASCII text, on decimal literals without exponent of
    at most fifteen significant digits (where one correctly rounded division
    gives the nearest double), on [YYYY-MM-DD] date strings, and on a host
    whose local time zone is UTC. It takes [new Date] of a Timestamp object
    to be an Invalid Date; no property below depends on that choice. *)
Module Ref.

Definition lower_ascii (c : ascii) : ascii :=
  let n := nat_of_ascii c in
  if ((65 <=? n)%nat && (n <=? 90)%nat)%bool then ascii_of_nat (n + 32) else c.

Fixpoint toLowerCase (s : string) : string :=
  match s with
  | EmptyString => EmptyString
  | String c s' => String (lower_ascii c) (toLowerCase s')
  end.

Definition digit (c : ascii) : option Z :=
  let n := nat_of_ascii c in
  if ((48 <=? n)%nat && (n <=? 57)%nat)%bool then Some (Z.of_nat (n - 48)) else None.

Definition is_space (c : ascii) : bool :=
  let n := nat_of_ascii c in
  ((n =? 32)%nat || ((9 <=? n)%nat && (n <=? 13)%nat))%bool.

Fixpoint skip_spaces (s : string) : string :=
  match s with
  | String c s' => if is_space c then skip_spaces s' else s
  | EmptyString => s
  end.

(** Longest prefix of decimal digits: their value, their number, the rest. *)
Fixpoint digits (acc : Z) (n : nat) (s : string) : Z * nat * string :=
  match s with
  | String c s' =>
      match digit c with
      | Some d => digits (acc * 10 + d)%Z (S n) s'
      | None => (acc, n, s)
      end
  | EmptyString => (acc, n, s)
  end.

Fixpoint pow10 (k : nat) : float :=
  match k with
  | O => 1%float
  | S k' => (pow10 k' * 10)%float
  end.

Definition float_of_Z (m : Z) : float := PrimFloat.of_uint63 (Uint63.of_Z m).

(** An unsigned decimal literal [ddd], [ddd.ddd] or [.ddd] at the head of
    [s]: its value and the unread rest, or [None] when there is no digit. *)
Definition unsigned_literal (s : string) : option (float * string) :=
  let '(ip, ni, r) := digits 0 0 s in
  match r with
  | String "."%char r' =>
      let '(m, nf, r'') := digits ip 0 r' in
      if ((ni =? 0)%nat && (nf =? 0)%nat)%bool then None
      else Some ((float_of_Z m / pow10 nf)%float, r'')
  | _ => if (ni =? 0)%nat then None else Some (float_of_Z ip, r)
  end.

Definition signed_literal (s : string) : option (float * string) :=
  match s with
  | String "-"%char s' =>
      match unsigned_literal s' with
      | Some (f, r) => Some ((- f)%float, r)
      | None => None
      end
  | String "+"%char s' => unsigned_literal s'
  | _ => unsigned_literal s
  end.

Definition parseFloat_string (s : string) : float :=
  match signed_literal (skip_spaces s) with
  | Some (f, _) => f
  | None => nan
  end.

Definition ToNumber_string (s : string) : float :=
  let s' := skip_spaces s in
  if (s' =? "")%string then 0%float
  else match signed_literal s' with
       | Some (f, r) => if (skip_spaces r =? "")%string then f else nan
       | None => nan
       end.

Definition is_leap (y : Z) : bool :=
  (((y mod 4 =? 0) && negb (y mod 100 =? 0)) || (y mod 400 =? 0))%Z%bool.

Definition days_in_month (y m : Z) : Z :=
  (if m =? 2 then (if is_leap y then 29 else 28)
   else if (m =? 4) || (m =? 6) || (m =? 9) || (m =? 11) then 30 else 31)%Z.

(** Days from 1970-01-01 to the given civil date. *)
Definition days_from_civil (y m d : Z) : Z :=
  (let y' := if m <=? 2 then y - 1 else y in
   let era := y' / 400 in
   let yoe := y' - era * 400 in
   let doy := (153 * (m + (if 2 <? m then -3 else 9)) + 2) / 5 + d - 1 in
   let doe := yoe * 365 + yoe / 4 - yoe / 100 + doy in
   era * 146097 + doe - 719468)%Z.

Definition msPerDay : Z := 86400000.

(** [YYYY-MM-DD], read as midnight UTC; anything else is an Invalid Date. *)
Definition Date_parse (s : string) : option Z :=
  match digits 0 0 s with
  | (y, 4%nat, String "-"%char r1) =>
      match digits 0 0 r1 with
      | (m, 2%nat, String "-"%char r2) =>
          match digits 0 0 r2 with
          | (d, 2%nat, EmptyString) =>
              if ((1 <=? m) && (m <=? 12) && (1 <=? d) && (d <=? days_in_month y m))%Z%bool
              then Some (days_from_civil y m d * msPerDay)%Z
              else None
          | _ => None
          end
      | _ => None
      end
  | _ => None
  end.

Definition setHours_0 (t : Z) : Z := (t - t mod msPerDay)%Z.

Definition setHours_end (t : Z) : Z := (setHours_0 t + (msPerDay - 1))%Z.

End Ref.

Definition refBuiltins : Builtins := {|
  toLowerCase := Ref.toLowerCase;
  parseFloat_string := Ref.parseFloat_string;
  ToNumber_string := Ref.ToNumber_string;
  Date_parse := Ref.Date_parse;
  Date_ofTimestamp := fun _ => None;
  setHours_0 := Ref.setHours_0;
  setHours_end := Ref.setHours_end
|}.

(** ** Dates and sums *)

(** [new Date(x).getTime()] for a string-valued property; [new Date(undefined)]
    is an Invalid Date. *)
Definition newDate `{Builtins} (o : option string) : option Z :=
  match o with
  | Some s => Date_parse s
  | None => None
  end.

(** [a >= b] on time values. *)
Definition time_ge (a b : option Z) : bool := time_le b a.

(** [l.reduce((acc, x) => acc + g(x), 0)] *)
Definition reduce_add {A : Type} (g : A -> float) (l : list A) : float :=
  fold_left (fun acc x => (acc + g x)%float) l 0%float.

(** ** [Dashboard] *)

Module Dashboard.

Record t : Type := {
  totalPolicies : nat;
  totalPolicyValue : float;
  totalCommission : float;
  policiesPaidByCustomer : nat;
  policiesPaidToInsurer : nat;
  overduePolicies : nat
}.

Section Component.
Context `{B : Builtins}.

(** The predicate of the [overduePolicies] filter; [now] is the time
    value of [new Date()]. *)
Definition isOverdue (now : Z) (policy : Policy.t) : bool :=
  let today := setHours_0 now in
  let validUntilDate :=
    if truthy (Policy.validUntil policy)
    then Some (newDate (Policy.validUntil policy))
    else None in
  match validUntilDate with
  | Some d => time_lt d (Some today)
  | None => false
  end.

Definition render (now : Z) (policies : list Policy.t) : t := {|
  totalPolicies := length policies;
  totalPolicyValue :=
    reduce_add (fun policy => orZero (parseFloat (Policy.totalAmount policy))) policies;
  totalCommission :=
    reduce_add (fun policy => orZero (parseFloat (Policy.commission policy))) policies;
  policiesPaidByCustomer := length (List.filter Policy.paidByCustomer policies);
  policiesPaidToInsurer := length (List.filter Policy.paidToInsurer policies);
  overduePolicies := length (List.filter (isOverdue now) policies)
|}.
End Component.

End Dashboard.

(** ** [FinancialReports] *)

Module FinancialReports.

Record t : Type := {
  filteredPoliciesReport : list Policy.t;
  filteredPaymentsExpenses : list LedgerEntry.t;
  totalIncome : float;
  totalCommission : float;
  totalExpenses : float;
  commissionNotPaidToInsurer : float;
  totalUnpaidToInsurer : float;
  amountDueToInsurer : float
}.

Section Component.
Context `{B : Builtins}.

Definition policyInRange (start end_ : option Z) (policy : Policy.t) : bool :=
  match Policy.createdAt policy with
  | Some ts =>
      let policyCreatedAt := Some (toDate ts) in
      time_ge policyCreatedAt start && time_le policyCreatedAt end_
  | None => false
  end.

Definition itemDate (item : LedgerEntry.t) : option Z :=
  match LedgerEntry.createdAt item with
  | Some ts => Some (toDate ts)
  | None => newDate (LedgerEntry.date item)
  end.

Definition itemInRange (start end_ : option Z) (item : LedgerEntry.t) : bool :=
  time_ge (itemDate item) start && time_le (itemDate item) end_.

(** The effect that recomputes the two filtered lists. *)
Definition applyDateRange (startDate endDate : string)
    (policies : list Policy.t) (paymentsExpenses : list LedgerEntry.t)
    : list Policy.t * list LedgerEntry.t :=
  if negb (startDate =? "") && negb (endDate =? "") then
    let start := setHours_0 <$> Date_parse startDate in
    let end_ := setHours_end <$> Date_parse endDate in
    (List.filter (policyInRange start end_) policies,
     List.filter (itemInRange start end_) paymentsExpenses)
  else (policies, paymentsExpenses).

Definition render (startDate endDate : string)
    (policies : list Policy.t) (paymentsExpenses : list LedgerEntry.t) : t :=
  let '(fp, fe) := applyDateRange startDate endDate policies paymentsExpenses in
  let commissionNotPaid :=
    reduce_add (fun policy =>
      if Policy.paidToInsurer policy then 0%float
      else orZero (parseFloat (Policy.commission policy))) fp in
  let totalUnpaid :=
    reduce_add (fun policy =>
      if Policy.paidToInsurer policy then 0%float
      else orZero (parseFloat (Policy.totalAmount policy))) fp in
  {| filteredPoliciesReport := fp;
     filteredPaymentsExpenses := fe;
     totalIncome :=
       reduce_add (fun policy => orZero (parseFloat (Policy.totalAmount policy))) fp;
     totalCommission :=
       reduce_add (fun policy => orZero (parseFloat (Policy.commission policy))) fp;
     totalExpenses :=
       reduce_add (fun item => orZero (parseFloat (LedgerEntry.amount item)))
         (List.filter (fun item => LedgerEntry.type item =? "Expense") fe);
     commissionNotPaidToInsurer := commissionNotPaid;
     totalUnpaidToInsurer := totalUnpaid;
     amountDueToInsurer := (totalUnpaid - commissionNotPaid)%float |}.
End Component.

End FinancialReports.

(** ** [Array.prototype.sort]

    The language specifies a stable sort for a comparator that orders the
    elements consistently, and leaves the order to the engine for any other
    comparator. The embedding is the stable insertion sort: an element moves
    to the right of another only when the comparator is positive on the two.
    For a consistent comparator it is the array every engine returns (there
    is one sorted, stable arrangement, [stable_sort_unique], and it is what
    [V8.sort] below returns, [V8_sort_consistent]); for another comparator
    it is one of the orders the language allows, and [V8.sort] is the order
    of that engine. *)
Section ArraySort.
Context {A : Type} (comparefn : A -> A -> Z).

Fixpoint sort_insert (x : A) (l : list A) : list A :=
  match l with
  | [] => [x]
  | y :: l' => if (0 <? comparefn x y)%Z then y :: sort_insert x l' else x :: l
  end.

Fixpoint Array_sort (l : list A) : list A :=
  match l with
  | [] => []
  | x :: l' => sort_insert x (Array_sort l')
  end.
End ArraySort.

(** The sort of the V8 engine (Chrome, Node) on an array of fewer than 64
    elements, which it sorts as a single run: [CountAndMakeRun] finds the
    run the array starts with and reverses it when it is strictly
    descending, and [BinaryInsertionSort] inserts each later element at the
    place a binary search of the sorted part gives. (Longer arrays are cut
    into such runs, which are then merged; that part is not embedded.) *)
Module V8.
Section Sort.
Context {A : Type} (comparefn : A -> A -> Z).

(** The loop of [CountAndMakeRun]: how many of the elements after
    [previousElement] continue the run. *)
Fixpoint continues (isDescending : bool) (previousElement : A) (rest : list A) : nat :=
  match rest with
  | [] => 0
  | currentElement :: rest' =>
      let order := comparefn currentElement previousElement in
      if (if isDescending then (0 <=? order)%Z else (order <? 0)%Z) then 0
      else S (continues isDescending currentElement rest')
  end.

(** [CountAndMakeRun(0, length)]: the length of the run and the array
    after it. *)
Definition countAndMakeRun (workArray : list A) : nat * list A :=
  match workArray with
  | elementHigh :: elementLow :: rest =>
      let isDescending := (comparefn elementLow elementHigh <? 0)%Z in
      let runLength := (2 + continues isDescending elementLow rest)%nat in
      (runLength,
       if isDescending
       then (rev (take runLength workArray) ++ drop runLength workArray)%list
       else workArray)
  | _ => (length workArray, workArray)
  end.

(** The [while (left < right)] loop of [BinaryInsertionSort]; the interval
    shrinks at every turn, so [n] turns are enough for an interval of
    length [n]. *)
Fixpoint search (n : nat) (pivot : A) (workArray : list A) (left right : nat) : nat :=
  match n with
  | O => left
  | S n' =>
      if (left <? right)%nat then
        let mid := (left + Nat.div2 (right - left))%nat in
        match workArray !! mid with
        | Some element =>
            if (comparefn pivot element <? 0)%Z
            then search n' pivot workArray left mid
            else search n' pivot workArray (mid + 1)%nat right
        | None => left
        end
      else left
  end.

(** [BinaryInsertionSort(0, start, length)] on [sorted ++ rest], where
    [start] is the length of [sorted]. *)
Fixpoint binaryInsertionSort (sorted rest : list A) : list A :=
  match rest with
  | [] => sorted
  | pivot :: rest' =>
      let left := search (length sorted) pivot sorted 0 (length sorted) in
      binaryInsertionSort (take left sorted ++ pivot :: drop left sorted)%list rest'
  end.

Definition sort (l : list A) : list A :=
  let '(runLength, workArray) := countAndMakeRun l in
  binaryInsertionSort (take runLength workArray) (drop runLength workArray).

End Sort.
End V8.

(** ** [ViewPolicies] *)

Inductive SortColumn : Type :=
  | ColPolicyNumber
  | ColCustomer
  | ColPolicyType
  | ColTotalAmount
  | ColPolicyDate
  | ColValidUntil
  | ColCreatedAt.

Inductive SortDirection : Type := asc | desc.

#[global] Instance SortColumn_eq_dec : EqDecision SortColumn.
Proof. solve_decision. Defined.

#[global] Instance SortDirection_eq_dec : EqDecision SortDirection.
Proof. solve_decision. Defined.

(** What the comparator compares: a value read from the policy, or a time
    value. *)
Inductive SortVal : Type :=
  | SField (v : jsval)
  | STime (t : option Z).

Module ViewPolicies.

Record Filters : Type := {
  filterPolicyType : string;
  filterCustomerName : string;
  filterPolicyNumber : string;
  filterPaidByCustomer : string;
  filterPaidToInsurer : string;
  filterValidUntilStartDate : string;
  filterValidUntilEndDate : string
}.

Section Component.
Context `{B : Builtins}.

(** [o?.toLowerCase().includes(f.toLowerCase())]; [None] is [undefined]. *)
Definition includesLower (o : option string) (f : string) : option bool :=
  match o with
  | Some s => Some (includes (toLowerCase s) (toLowerCase f))
  | None => None
  end.

Definition isTrue (o : option bool) : bool :=
  match o with
  | Some b => b
  | None => false
  end.

Definition matchesPolicyType (f : Filters) (policy : Policy.t) : bool :=
  (filterPolicyType f =? "")
  || includes (toLowerCase (Policy.policyType policy)) (toLowerCase (filterPolicyType f)).

Definition matchesCustomerName (f : Filters) (policy : Policy.t) : bool :=
  (filterCustomerName f =? "")
  || (isTrue (includesLower (Policy.customer policy ≫= Customer.firstName) (filterCustomerName f))
      || isTrue (includesLower (Policy.customer policy ≫= Customer.lastName) (filterCustomerName f))).

Definition matchesPolicyNumber (f : Filters) (policy : Policy.t) : bool :=
  (filterPolicyNumber f =? "")
  || includes (toLowerCase (Policy.policyNumber policy)) (toLowerCase (filterPolicyNumber f)).

Definition matchesPaidByCustomer (f : Filters) (policy : Policy.t) : bool :=
  (filterPaidByCustomer f =? "all")
  || Bool.eqb (Policy.paidByCustomer policy) (filterPaidByCustomer f =? "yes").

Definition matchesPaidToInsurer (f : Filters) (policy : Policy.t) : bool :=
  (filterPaidToInsurer f =? "all")
  || Bool.eqb (Policy.paidToInsurer policy) (filterPaidToInsurer f =? "yes").

Definition matchesValidUntilDate (f : Filters) (policy : Policy.t) : bool :=
  let m := true in
  let m :=
    if negb (filterValidUntilStartDate f =? "") && truthy (Policy.validUntil policy) then
      let start := setHours_0 <$> Date_parse (filterValidUntilStartDate f) in
      let policyValidUntil := newDate (Policy.validUntil policy) in
      m && time_ge policyValidUntil start
    else m in
  let m :=
    if negb (filterValidUntilEndDate f =? "") && truthy (Policy.validUntil policy) then
      let end_ := setHours_end <$> Date_parse (filterValidUntilEndDate f) in
      let policyValidUntil := newDate (Policy.validUntil policy) in
      m && time_le policyValidUntil end_
    else m in
  m.

(** The callback of [policies.filter]. *)
Definition filterPredicate (f : Filters) (policy : Policy.t) : bool :=
  matchesPolicyType f policy && matchesCustomerName f policy
  && matchesPolicyNumber f policy && matchesPaidByCustomer f policy
  && matchesPaidToInsurer f policy && matchesValidUntilDate f policy.

(** [valA] / [valB] of the comparator. *)
Definition sortVal (sortColumn : SortColumn) (a : Policy.t) : SortVal :=
  let lower v :=
    match v with
    | VString s => VString (toLowerCase s)
    | _ => v
    end in
  let time (o : option string) :=
    if truthy o then newDate o else Some 0%Z in
  match sortColumn with
  | ColCustomer =>
      SField (VString (toLowerCase
        (default "" (Policy.customer a ≫= Customer.firstName) ++ " "
         ++ default "" (Policy.customer a ≫= Customer.lastName))))
  | ColCreatedAt =>
      STime match Policy.createdAt a with
            | Some ts => Date_ofTimestamp ts
            | None => Some 0%Z
            end
  | ColPolicyDate => STime (time (Policy.policyDate a))
  | ColValidUntil => STime (time (Policy.validUntil a))
  | ColPolicyNumber => SField (lower (VString (Policy.policyNumber a)))
  | ColPolicyType => SField (lower (VString (Policy.policyType a)))
  | ColTotalAmount => SField (lower (Policy.totalAmount a))
  end.

(** [valA < valB] *)
Definition val_lt (x y : SortVal) : bool :=
  match x, y with
  | SField v, SField w => js_lt v w
  | STime s, STime t => time_lt s t
  | _, _ => false
  end.

(** The comparator handed to [sort]. *)
Definition comparator (sortColumn : SortColumn) (sortDirection : SortDirection)
    (a b : Policy.t) : Z :=
  let valA := sortVal sortColumn a in
  let valB := sortVal sortColumn b in
  if val_lt valA valB then (if decide (sortDirection = asc) then -1 else 1)%Z
  else if val_lt valB valA then (if decide (sortDirection = asc) then 1 else -1)%Z
  else 0%Z.

Definition filteredAndSortedPolicies (f : Filters) (sortColumn : SortColumn)
    (sortDirection : SortDirection) (policies : list Policy.t) : list Policy.t :=
  Array_sort (comparator sortColumn sortDirection) (List.filter (filterPredicate f) policies).
End Component.

(** The sort state and its handler. *)
Definition handleSort (column : SortColumn) (st : SortColumn * SortDirection)
    : SortColumn * SortDirection :=
  let '(sortColumn, sortDirection) := st in
  if decide (sortColumn = column)
  then (sortColumn, if decide (sortDirection = asc) then desc else asc)
  else (column, asc).

End ViewPolicies.

(** ** Abrupt completion *)

Inductive Completion (A : Type) : Type :=
  | Normal (a : A)
  | Throw (e : string).
Arguments Normal {A} a.
Arguments Throw {A} e.

Definition bind {A C : Type} (c : Completion A) (k : A -> Completion C) : Completion C :=
  match c with
  | Normal a => k a
  | Throw e => Throw e
  end.

(** ** [CustomerManagement] *)

Module CustomerManagement.

Record PolicyRef : Type := {
  id : string;
  policyNumber : string;
  policyType : string;
  totalAmount : jsval;
  policyDate : option string
}.

Record Row : Type := {
  idNumber : string;
  firstName : option string;
  lastName : option string;
  phoneNumber : option string;
  address : option string;
  city : option string;
  postalCode : option string;
  policiesCount : nat;
  totalPolicyValue : float;
  associatedPolicies : list PolicyRef
}.

(** The accumulator is an object literal [{}]: its own properties are a
    finite map, and a key that it does not own is looked up in
    [Object.prototype]. *)
Definition Object_prototype : list string :=
  [ "constructor"; "__defineGetter__"; "__defineSetter__"; "hasOwnProperty";
    "__lookupGetter__"; "__lookupSetter__"; "isPrototypeOf";
    "propertyIsEnumerable"; "toString"; "valueOf"; "__proto__";
    "toLocaleString" ].

Inductive Member : Type :=
  | Own (row : Row)
  | Inherited
  | Undefined.

(** [acc[key]] *)
Definition get (acc : gmap string Row) (key : string) : Member :=
  match acc !! key with
  | Some row => Own row
  | None => if bool_decide (key ∈ Object_prototype) then Inherited else Undefined
  end.

Section Component.
Context `{B : Builtins}.

Definition newRow (c : Customer.t) (key : string) : Row := {|
  idNumber := key;
  firstName := Customer.firstName c;
  lastName := Customer.lastName c;
  phoneNumber := Customer.phoneNumber c;
  address := Customer.address c;
  city := Customer.city c;
  postalCode := Customer.postalCode c;
  policiesCount := 0;
  totalPolicyValue := 0%float;
  associatedPolicies := []
|}.

Definition refOf (policy : Policy.t) : PolicyRef := {|
  id := Policy.id policy;
  policyNumber := Policy.policyNumber policy;
  policyType := Policy.policyType policy;
  totalAmount := Policy.totalAmount policy;
  policyDate := Policy.policyDate policy
|}.

(** The three statements that follow the initialisation, on a row. *)
Definition account (row : Row) (policy : Policy.t) : Row := {|
  idNumber := idNumber row;
  firstName := firstName row;
  lastName := lastName row;
  phoneNumber := phoneNumber row;
  address := address row;
  city := city row;
  postalCode := postalCode row;
  policiesCount := S (policiesCount row);
  totalPolicyValue :=
    (totalPolicyValue row + orZero (parseFloat (Policy.totalAmount policy)))%float;
  associatedPolicies := associatedPolicies row ++ [refOf policy]
|}.

(** The callback of [policies.reduce]. A member inherited from
    [Object.prototype] is truthy, so no row is created under its key;
    the two updates then land on that member and
    [.associatedPolicies.push] is called on [undefined]. *)
Definition reducer (acc : gmap string Row) (policy : Policy.t)
    : Completion (gmap string Row) :=
  match Policy.customer policy with
  | Some c =>
      if truthy (Customer.idNumber c) then
        let key := default "" (Customer.idNumber c) in
        let acc :=
          match get acc key with
          | Undefined => <[key := newRow c key]> acc
          | _ => acc
          end in
        match get acc key with
        | Own row => Normal (<[key := account row policy]> acc)
        | _ => Throw "TypeError"
        end
      else Normal acc
  | None => Normal acc
  end.

Definition uniqueCustomers (policies : list Policy.t) : Completion (gmap string Row) :=
  fold_left (fun acc policy => bind acc (fun m => reducer m policy)) policies (Normal ∅).

(** [Object.values(uniqueCustomers)]; the order of enumeration is not
    part of the embedding. *)
Definition customersList (policies : list Policy.t) : Completion (list Row) :=
  bind (uniqueCustomers policies) (fun m => Normal ((map_to_list m).*2)).
End Component.

End CustomerManagement.

(** ** The document store *)

Inductive FieldValue : Type := serverTimestamp.

(** The object literal handed to [addDoc] and [updateDoc] for a policy. *)
Module PolicyData.
Record t : Type := {
  policyType : string;
  policyDate : option string;
  validUntil : option string;
  totalAmount : float;
  commission : float;
  policyNumber : string;
  vehicleNumber : string;
  insuranceType : string;
  paidByCustomer : bool;
  paidToInsurer : bool;
  customer : Customer.t;
  createdAt : option FieldValue
}.
End PolicyData.

Inductive StoreRequest : Type :=
  | addDoc (collection : string) (data : PolicyData.t)
  | updateDoc (collection : string) (id : string) (data : PolicyData.t)
  | deleteDoc (collection : string) (id : string).

(** The two collections of one user. *)
Module Store.
Record t : Type := {
  policies : list Policy.t;
  payments_expenses : list LedgerEntry.t
}.
End Store.

(** ** The handlers of [App] *)

Module PolicyForm.
Record t : Type := {
  policyType : string;
  policyDate : string;
  validUntil : string;
  totalAmount : string;
  commission : string;
  policyNumber : string;
  vehicleNumber : string;
  insuranceType : string;
  paidByCustomer : bool;
  paidToInsurer : bool;
  firstName : string;
  lastName : string;
  phoneNumber : string;
  idNumber : string;
  address : string;
  city : string;
  postalCode : string
}.

(** The form after the [set...] calls that clear it. *)
Definition cleared : t := {|
  policyType := "New Policy"; policyDate := ""; validUntil := ""; totalAmount := "";
  commission := ""; policyNumber := ""; vehicleNumber := ""; insuranceType := "";
  paidByCustomer := false; paidToInsurer := false; firstName := ""; lastName := "";
  phoneNumber := ""; idNumber := ""; address := ""; city := ""; postalCode := ""
|}.
End PolicyForm.

Module App.

Record Env : Type := {
  db : bool;
  userId : option string;
  projectId : string
}.

(** What a handler did: the calls it made to the store, in order, the
    modal it opened, and the text of the confirmation dialog if it showed
    one. *)
Record Outcome : Type := {
  requests : list StoreRequest;
  modalMessage : option string;
  confirmPrompt : option string
}.

Definition userPath (env : Env) : string :=
  "artifacts/" ++ projectId env ++ "/users/" ++ default "" (userId env).

Definition policiesPath (env : Env) : string := userPath env ++ "/policies".

Definition paymentsExpensesPath (env : Env) : string := userPath env ++ "/payments_expenses".

Definition empty (s : string) : bool := s =? "".

(** The call that deletes one ledger entry. *)
Definition ledgerDelete (env : Env) (id : string) : StoreRequest :=
  deleteDoc (paymentsExpensesPath env) id.

Section Handlers.
Context `{B : Builtins}.
(** [storeError r] is the message of the error with which the store
    rejects the call [r], if it does. *)
Variable storeError : StoreRequest -> option string.

Definition handleAddPolicy (env : Env) (form : PolicyForm.t) : Outcome * PolicyForm.t :=
  if negb (db env) || negb (truthy (userId env)) then
    ({| requests := [];
        modalMessage :=
          Some "Error: Database not ready or user not authenticated. Please log in.";
        confirmPrompt := None |}, form)
  else if empty (PolicyForm.policyNumber form) || empty (PolicyForm.totalAmount form)
          || empty (PolicyForm.policyDate form) || empty (PolicyForm.validUntil form)
          || empty (PolicyForm.firstName form) || empty (PolicyForm.lastName form) then
    ({| requests := [];
        modalMessage :=
          Some "Please fill in all required fields: Policy Number, Total Amount, Policy Date, Valid Until, Customer First Name, Customer Last Name.";
        confirmPrompt := None |}, form)
  else
    let request :=
      addDoc (policiesPath env) {|
        PolicyData.policyType := PolicyForm.policyType form;
        PolicyData.policyDate := Some (PolicyForm.policyDate form);
        PolicyData.validUntil := Some (PolicyForm.validUntil form);
        PolicyData.totalAmount := parseFloat (VString (PolicyForm.totalAmount form));
        PolicyData.commission := orZero (parseFloat (VString (PolicyForm.commission form)));
        PolicyData.policyNumber := PolicyForm.policyNumber form;
        PolicyData.vehicleNumber := PolicyForm.vehicleNumber form;
        PolicyData.insuranceType := PolicyForm.insuranceType form;
        PolicyData.paidByCustomer := PolicyForm.paidByCustomer form;
        PolicyData.paidToInsurer := PolicyForm.paidToInsurer form;
        PolicyData.customer := {|
          Customer.firstName := Some (PolicyForm.firstName form);
          Customer.lastName := Some (PolicyForm.lastName form);
          Customer.phoneNumber := Some (PolicyForm.phoneNumber form);
          Customer.idNumber := Some (PolicyForm.idNumber form);
          Customer.address := Some (PolicyForm.address form);
          Customer.city := Some (PolicyForm.city form);
          Customer.postalCode := Some (PolicyForm.postalCode form) |};
        PolicyData.createdAt := Some serverTimestamp |} in
    match storeError request with
    | None =>
        ({| requests := [request];
            modalMessage := Some "Policy added successfully!";
            confirmPrompt := None |}, PolicyForm.cleared)
    | Some message =>
        ({| requests := [request];
            modalMessage := Some ("Error adding policy: " ++ message);
            confirmPrompt := None |}, form)
    end.

Definition handleUpdatePolicy (env : Env) (updatedPolicy : Policy.t) : Outcome :=
  if negb (db env) || negb (truthy (userId env)) || empty (Policy.id updatedPolicy) then
    {| requests := [];
       modalMessage := Some "Error: Database not ready or policy ID missing.";
       confirmPrompt := None |}
  else
    match Policy.customer updatedPolicy with
    | None =>
        (* [updatedPolicy.customer.firstName] throws inside the [try] *)
        {| requests := [];
           modalMessage :=
             Some "Error updating policy: Cannot read properties of undefined (reading 'firstName')";
           confirmPrompt := None |}
    | Some c =>
        let request :=
          updateDoc (policiesPath env) (Policy.id updatedPolicy) {|
            PolicyData.policyType := Policy.policyType updatedPolicy;
            PolicyData.policyDate := Policy.policyDate updatedPolicy;
            PolicyData.validUntil := Policy.validUntil updatedPolicy;
            PolicyData.totalAmount := parseFloat (Policy.totalAmount updatedPolicy);
            PolicyData.commission := orZero (parseFloat (Policy.commission updatedPolicy));
            PolicyData.policyNumber := Policy.policyNumber updatedPolicy;
            PolicyData.vehicleNumber := Policy.vehicleNumber updatedPolicy;
            PolicyData.insuranceType := Policy.insuranceType updatedPolicy;
            PolicyData.paidByCustomer := Policy.paidByCustomer updatedPolicy;
            PolicyData.paidToInsurer := Policy.paidToInsurer updatedPolicy;
            PolicyData.customer := c;
            PolicyData.createdAt := None |} in
        match storeError request with
        | None =>
            {| requests := [request];
               modalMessage := Some "Policy updated successfully!";
               confirmPrompt := None |}
        | Some message =>
            {| requests := [request];
               modalMessage := Some ("Error updating policy: " ++ message);
               confirmPrompt := None |}
        end
    end.

(** [answer] is what the user replies to [window.confirm]. [paymentsExpenses]
    is the component state the cascade is computed from. *)
Definition handleDeletePolicy (env : Env) (paymentsExpenses : list LedgerEntry.t)
    (answer : string -> bool) (policyId policyNumber : string) : Outcome :=
  if negb (db env) || negb (truthy (userId env)) then
    {| requests := [];
       modalMessage := Some "Error: Database not ready or user not authenticated.";
       confirmPrompt := None |}
  else
    let prompt :=
      "Are you sure you want to delete policy number: " ++ policyNumber
      ++ "? This will also delete all associated payments/expenses. This action cannot be undone." in
    if answer prompt then
      let first := deleteDoc (policiesPath env) policyId in
      match storeError first with
      | Some message =>
          {| requests := [first];
             modalMessage := Some ("Error deleting policy: " ++ message);
             confirmPrompt := Some prompt |}
      | None =>
          let relatedPaymentsExpenses :=
            List.filter
              (fun item => bool_decide (LedgerEntry.policyId item = Some policyId))
              paymentsExpenses in
          let deletePromises :=
            List.map (fun item => deleteDoc (paymentsExpensesPath env) (LedgerEntry.id item))
              relatedPaymentsExpenses in
          {| requests := first :: deletePromises;
             modalMessage :=
               match List.find (fun r => bool_decide (is_Some (storeError r))) deletePromises with
               | Some r => Some ("Error deleting policy: " ++ default "" (storeError r))
               | None => Some "Policy and associated items deleted successfully!"
               end;
             confirmPrompt := Some prompt |}
      end
    else
      {| requests := []; modalMessage := None; confirmPrompt := Some prompt |}.

(** The store carries out the delete calls it does not reject: [deleteDoc]
    removes the document of that id from the collection of that path. (The
    effect of the other two calls needs the store's id allocation and clock,
    and no property below depends on it.) *)
Definition execute (env : Env) (st : Store.t) (r : StoreRequest) : Store.t :=
  match storeError r, r with
  | None, deleteDoc collection id =>
      if collection =? policiesPath env then
        {| Store.policies :=
             List.filter (fun p => negb (Policy.id p =? id)) (Store.policies st);
           Store.payments_expenses := Store.payments_expenses st |}
      else if collection =? paymentsExpensesPath env then
        {| Store.policies := Store.policies st;
           Store.payments_expenses :=
             List.filter (fun e => negb (LedgerEntry.id e =? id)) (Store.payments_expenses st) |}
      else st
  | _, _ => st
  end.

Definition executeAll (env : Env) (st : Store.t) (rs : list StoreRequest) : Store.t :=
  fold_left (execute env) rs st.
End Handlers.

End App.


(** ** The words of the specification

    The notions the specification uses to say what the components compute,
    written from its sentences; the theorems relate them to the definitions
    above. *)
Module Spec.

(** The sum of a list of numbers, accumulated from 0 in list order. *)
Definition sum (l : list float) : float := fold_left PrimFloat.add l 0%float.

(** [counts P l n]: [n] is the number of elements of [l] that satisfy [P]. *)
Inductive counts {A : Type} (P : A -> Prop) : list A -> nat -> Prop :=
  | counts_nil : counts P [] 0
  | counts_yes x l n : P x -> counts P l n -> counts P (x :: l) (S n)
  | counts_no x l n : ~ P x -> counts P l n -> counts P (x :: l) n.

(** [selects Q l l']: [l'] is [l] restricted to the elements that satisfy
    [Q], in the order of [l]. *)
Inductive selects {A : Type} (Q : A -> Prop) : list A -> list A -> Prop :=
  | selects_nil : selects Q [] []
  | selects_keep x l l' : Q x -> selects Q l l' -> selects Q (x :: l) (x :: l')
  | selects_drop x l l' : ~ Q x -> selects Q l l' -> selects Q (x :: l) l'.

(** [precedes x y l]: an occurrence of [x] comes before an occurrence of
    [y] in [l]. *)
Definition precedes {A : Type} (x y : A) (l : list A) : Prop :=
  exists i j, i < j /\ l !! i = Some x /\ l !! j = Some y.

(** The same, by splitting the list. *)
Definition occursBefore {A : Type} (x y : A) (l : list A) : Prop :=
  exists l1 l2 l3, l = (l1 ++ x :: l2 ++ y :: l3)%list.

(** The elements of a list, each with its position. *)
Definition numbered {A : Type} (l : list A) : list (nat * A) := imap pair l.

(** A comparator that orders the elements of [l] consistently: comparing
    two of them the other way round gives the opposite sign, and "not
    after" is transitive. This is what the language asks of a comparator
    for the sort order to be defined; equality and the two strict orders are
    then transitive as well. *)
Definition consistentOn {A : Type} (cmp : A -> A -> Z) (l : list A) : Prop :=
  (forall a b, In a l -> In b l -> (0 < cmp a b <-> cmp b a < 0)%Z)
  /\ (forall a b c, In a l -> In b l -> In c l ->
        (cmp a b <= 0 -> cmp b c <= 0 -> cmp a c <= 0)%Z).

(** The order of a stable sort on numbered elements: that of the
    comparator, and among ties that of the positions. *)
Definition stablyBefore {A : Type} (cmp : A -> A -> Z) (l : list A) (x y : nat * A) : Prop :=
  In (snd x) l /\ In (snd y) l
  /\ ((cmp (snd x) (snd y) < 0)%Z \/ (cmp (snd x) (snd y) = 0%Z /\ fst x < fst y)).

Section Words.
Context `{B : Builtins}.

(** A field "parsed as a number, non-numeric or missing values
    contributing 0". *)
Definition numberOrZero (v : jsval) : float :=
  let x := parseFloat v in
  if PrimFloat.is_nan x then 0%float
  else if PrimFloat.is_zero x then 0%float
  else x.

(** A date with its time of day stripped. *)
Definition dateOnly (t : Z) : Z := setHours_0 t.

(** "validUntil is present and, with time-of-day stripped from both the
    policy date and the current day, is strictly earlier than the start of
    the current calendar day". *)
Definition overdue (today : Z) (p : Policy.t) : Prop :=
  exists s v, Policy.validUntil p = Some s /\ s <> "" /\ Date_parse s = Some v
              /\ (dateOnly v < dateOnly today)%Z.


(** [s] contains [sub] as a substring. *)
Definition contains (s sub : string) : Prop :=
  exists pre post : string, s = (pre ++ sub ++ post)%string.

(** [s] "case-insensitively contains" [sub]. *)
Definition containsCI (s sub : string) : Prop :=
  contains (toLowerCase s) (toLowerCase sub).

(** [a <= b] between two dates: both are valid and ordered. *)
Definition notAfter (a b : option Z) : Prop :=
  exists x y, a = Some x /\ b = Some y /\ (x <= y)%Z.

(** The policy's [validUntil] is present, with value [s]. *)
Definition validUntilIs (p : Policy.t) (s : string) : Prop :=
  Policy.validUntil p = Some s /\ s <> "".

Definition startOfDay (s : string) : option Z := setHours_0 <$> Date_parse s.

Definition endOfDay (s : string) : option Z := setHours_end <$> Date_parse s.

(** The six conditions of the filter predicate. *)
Definition passes (f : ViewPolicies.Filters) (p : Policy.t) : Prop :=
  (ViewPolicies.filterPolicyType f = ""
   \/ containsCI (Policy.policyType p) (ViewPolicies.filterPolicyType f))
  /\ (ViewPolicies.filterCustomerName f = ""
      \/ exists c n, Policy.customer p = Some c
           /\ (Customer.firstName c = Some n \/ Customer.lastName c = Some n)
           /\ containsCI n (ViewPolicies.filterCustomerName f))
  /\ (ViewPolicies.filterPolicyNumber f = ""
      \/ containsCI (Policy.policyNumber p) (ViewPolicies.filterPolicyNumber f))
  /\ (ViewPolicies.filterPaidByCustomer f = "all"
      \/ Policy.paidByCustomer p = (ViewPolicies.filterPaidByCustomer f =? "yes"))
  /\ (ViewPolicies.filterPaidToInsurer f = "all"
      \/ Policy.paidToInsurer p = (ViewPolicies.filterPaidToInsurer f =? "yes"))
  /\ (forall s, validUntilIs p s ->
        (ViewPolicies.filterValidUntilStartDate f <> "" ->
           notAfter (startOfDay (ViewPolicies.filterValidUntilStartDate f)) (Date_parse s))
        /\ (ViewPolicies.filterValidUntilEndDate f <> "" ->
           notAfter (Date_parse s) (endOfDay (ViewPolicies.filterValidUntilEndDate f)))).

(** The timestamp the report files a policy under: [createdAt]. *)
Definition policyTimestamp (p : Policy.t) : option Z :=
  toDate <$> Policy.createdAt p.

(** The timestamp the report files a ledger entry under: [createdAt], and
    the entry's own [date] when [createdAt] is absent. *)
Definition entryTimestamp (e : LedgerEntry.t) : option Z :=
  match LedgerEntry.createdAt e with
  | Some ts => Some (toDate ts)
  | None => LedgerEntry.date e ≫= Date_parse
  end.

(** [t] lies within [start-of-day(start), end-of-day(end)]. *)
Definition inWindow (startDate endDate : string) (t : option Z) : Prop :=
  notAfter (startOfDay startDate) t /\ notAfter t (endOfDay endDate).

(** A range is supplied when both of its ends are. *)
Definition rangeSupplied (startDate endDate : string) : Prop :=
  startDate <> "" /\ endDate <> "".

(** Kept by the report: in the window when a range is supplied, always
    otherwise. *)
Definition reported (startDate endDate : string) (t : option Z) : Prop :=
  rangeSupplied startDate endDate -> inWindow startDate endDate t.

(** The key a policy is filed under by the Customer Deriver: the embedded
    customer's idNumber, when there is a customer and the idNumber is not
    empty. *)
Definition customerId (p : Policy.t) : option string :=
  match Policy.customer p with
  | Some c =>
      match Customer.idNumber c with
      | Some k => if k =? "" then None else Some k
      | None => None
      end
  | None => None
  end.

(** The policies of [P] that carry the idNumber [k], in the order of [P]. *)
Definition policiesOf (k : string) (P : list Policy.t) : list Policy.t :=
  List.filter (fun p => bool_decide (customerId p = Some k)) P.

(** The derived row for [k]: identity fields of the first policy that
    carries [k], the number of policies that carry it, the sum of their
    amounts, and their references. *)
Definition rowOf (k : string) (P : list Policy.t) : option CustomerManagement.Row :=
  match policiesOf k P with
  | [] => None
  | first :: _ =>
      c ← Policy.customer first;
      Some {|
        CustomerManagement.idNumber := k;
        CustomerManagement.firstName := Customer.firstName c;
        CustomerManagement.lastName := Customer.lastName c;
        CustomerManagement.phoneNumber := Customer.phoneNumber c;
        CustomerManagement.address := Customer.address c;
        CustomerManagement.city := Customer.city c;
        CustomerManagement.postalCode := Customer.postalCode c;
        CustomerManagement.policiesCount := length (policiesOf k P);
        CustomerManagement.totalPolicyValue :=
          sum (List.map (fun p => numberOrZero (Policy.totalAmount p)) (policiesOf k P));
        CustomerManagement.associatedPolicies :=
          List.map CustomerManagement.refOf (policiesOf k P)
      |}
  end.

(** No idNumber of [P] is the name of a member of [Object.prototype]. *)
Definition ownKeysOnly (P : list Policy.t) : Prop :=
  forall p k, In p P -> customerId p = Some k -> k ∉ CustomerManagement.Object_prototype.

(** The database is ready and a user is signed in. *)
Definition signedIn (env : App.Env) : Prop :=
  App.db env = true /\ exists u, App.userId env = Some u /\ u <> "".

(** The six required fields of the add-policy form. *)
Definition requiredFields (form : PolicyForm.t) : list string :=
  [ PolicyForm.policyNumber form; PolicyForm.totalAmount form; PolicyForm.policyDate form;
    PolicyForm.validUntil form; PolicyForm.firstName form; PolicyForm.lastName form ].

Definition someRequiredEmpty (form : PolicyForm.t) : Prop := In "" (requiredFields form).

Definition allRequiredFilled (form : PolicyForm.t) : Prop := ~ In "" (requiredFields form).

Definition validationError : string :=
  "Please fill in all required fields: Policy Number, Total Amount, Policy Date, Valid Until, Customer First Name, Customer Last Name.".

Definition notSignedInError : string :=
  "Error: Database not ready or user not authenticated. Please log in.".

(** The keys whose values are compared as lowercased strings, and the
    string a policy is compared by under such a key. *)
Definition textKey (sortColumn : SortColumn) (a : Policy.t) : option string :=
  match sortColumn with
  | ColPolicyNumber => Some (toLowerCase (Policy.policyNumber a))
  | ColPolicyType => Some (toLowerCase (Policy.policyType a))
  | ColCustomer =>
      Some (toLowerCase
              (default "" (Policy.customer a ≫= Customer.firstName) ++ " "
               ++ default "" (Policy.customer a ≫= Customer.lastName)))
  | _ => None
  end.

Definition isTextColumn (sortColumn : SortColumn) : Prop :=
  sortColumn = ColPolicyNumber \/ sortColumn = ColPolicyType \/ sortColumn = ColCustomer.

(** No two policies of the list tie under the key. *)
Definition noTies (sortColumn : SortColumn) (l : list Policy.t) : Prop :=
  ForallOrdPairs (fun a b => ViewPolicies.comparator sortColumn asc a b <> 0%Z) l.

(** The comparison under the key is transitive on the policies of the
    list. *)
Definition transitiveOn (sortColumn : SortColumn) (l : list Policy.t) : Prop :=
  forall a b c, In a l -> In b l -> In c l ->
    (ViewPolicies.comparator sortColumn asc a b < 0)%Z ->
    (ViewPolicies.comparator sortColumn asc b c < 0)%Z ->
    (ViewPolicies.comparator sortColumn asc a c < 0)%Z.

Definition flip (d : SortDirection) : SortDirection :=
  match d with
  | asc => desc
  | desc => asc
  end.

(** The date-valued sort keys. *)
Definition isDateColumn (sortColumn : SortColumn) : Prop :=
  sortColumn = ColCreatedAt \/ sortColumn = ColPolicyDate \/ sortColumn = ColValidUntil.

(** The value of a policy for a date-valued key: [None] when the policy
    lacks it, and otherwise the timestamp its value parses to, which is
    [None] for a value that is not a date. *)
Definition dateValue (sortColumn : SortColumn) (a : Policy.t) : option (option Z) :=
  match sortColumn with
  | ColCreatedAt => Date_ofTimestamp <$> Policy.createdAt a
  | ColPolicyDate =>
      match Policy.policyDate a with
      | Some s => if s =? "" then None else Some (Date_parse s)
      | None => None
      end
  | ColValidUntil =>
      match Policy.validUntil a with
      | Some s => if s =? "" then None else Some (Date_parse s)
      | None => None
      end
  | _ => None
  end.

(** The timestamp a policy is ordered by under a date-valued key: that of
    its value, and 0 when it has none. *)
Definition timeKey (sortColumn : SortColumn) (a : Policy.t) : Z :=
  match dateValue sortColumn a with
  | Some (Some t) => t
  | _ => 0%Z
  end.

Definition lacksKey (sortColumn : SortColumn) (a : Policy.t) : Prop :=
  dateValue sortColumn a = None.

Definition positiveKey (sortColumn : SortColumn) (a : Policy.t) : Prop :=
  exists t, dateValue sortColumn a = Some (Some t) /\ (0 < t)%Z.

(** Every value of the key that is present in the list parses to a
    timestamp. *)
Definition validKeys (sortColumn : SortColumn) (l : list Policy.t) : Prop :=
  forall a, In a l -> dateValue sortColumn a <> Some None.

End Words.
End Spec.

(** ** Sample documents *)
Module Sample.

Definition customer (first last idn : string) : Customer.t := {|
  Customer.firstName := Some first;
  Customer.lastName := Some last;
  Customer.phoneNumber := Some "";
  Customer.idNumber := Some idn;
  Customer.address := Some "";
  Customer.city := Some "";
  Customer.postalCode := Some ""
|}.

Definition policy (id number : string) (validUntil : option string)
    (totalAmount commission : jsval) (paidByCustomer paidToInsurer : bool)
    (c : option Customer.t) (createdAt : option Timestamp) : Policy.t := {|
  Policy.id := id;
  Policy.policyType := "New Policy";
  Policy.policyNumber := number;
  Policy.policyDate := Some "2024-01-15";
  Policy.validUntil := validUntil;
  Policy.totalAmount := totalAmount;
  Policy.commission := commission;
  Policy.vehicleNumber := "";
  Policy.insuranceType := "";
  Policy.paidByCustomer := paidByCustomer;
  Policy.paidToInsurer := paidToInsurer;
  Policy.customer := c;
  Policy.createdAt := createdAt
|}.

(** 2024-01-15, 2024-03-01 and 2024-06-20, at 10:00 UTC. *)
Definition jan15 : Timestamp := {| seconds := 1705312800; nanoseconds := 0 |}.
Definition mar01 : Timestamp := {| seconds := 1709287200; nanoseconds := 0 |}.
Definition jun20 : Timestamp := {| seconds := 1718877600; nanoseconds := 0 |}.

Definition p1 : Policy.t :=
  policy "p1" "PN-002" (Some "2024-05-09") (VNumber 100) (VNumber 10) true false
    (Some (customer "Ana" "Ivanova" "A1")) (Some jan15).

Definition p2 : Policy.t :=
  policy "p2" "PN-001" (Some "2025-01-01") (VNumber 50) (VString "abc") false true
    (Some (customer "Ana" "Ivanova" "A1")) (Some mar01).

Definition p3 : Policy.t :=
  policy "p3" "PN-003" None (VNumber 30) VUndefined false false
    (Some (customer "Boris" "Petrov" "B2")) (Some jun20).

Definition policies : list Policy.t := [p1; p2; p3].

(** Two policies with the same policy number. *)
Definition t1 : Policy.t :=
  policy "t1" "PN-007" (Some "2025-01-01") (VNumber 10) (VNumber 1) false false None None.

Definition t2 : Policy.t :=
  policy "t2" "pn-007" (Some "2025-06-01") (VNumber 20) (VNumber 2) false false None None.

(** Policies with the amounts 30, 20, none and 20. *)
Definition priced30 : Policy.t :=
  policy "a0" "PN-030" (Some "2025-01-01") (VNumber 30) (VNumber 1) false false None None.

Definition priced20 : Policy.t :=
  policy "a1" "PN-031" (Some "2025-01-01") (VNumber 20) (VNumber 1) false false None None.

Definition unpriced : Policy.t :=
  policy "a2" "PN-032" (Some "2025-01-01") VUndefined (VNumber 1) false false None None.

Definition priced20b : Policy.t :=
  policy "a3" "PN-033" (Some "2025-01-01") (VNumber 20) (VNumber 1) false false None None.

(** Policies whose validUntil is a date, is not a date, and is missing. *)
Definition dated : Policy.t :=
  policy "d1" "PN-020" (Some "2025-01-01") (VNumber 10) (VNumber 1) false false None None.

Definition misdated : Policy.t :=
  policy "d2" "PN-021" (Some "n/a") (VNumber 10) (VNumber 1) false false None None.

Definition undated : Policy.t :=
  policy "d3" "PN-022" None (VNumber 10) (VNumber 1) false false None None.

Definition noFilters : ViewPolicies.Filters := {|
  ViewPolicies.filterPolicyType := "";
  ViewPolicies.filterCustomerName := "";
  ViewPolicies.filterPolicyNumber := "";
  ViewPolicies.filterPaidByCustomer := "all";
  ViewPolicies.filterPaidToInsurer := "all";
  ViewPolicies.filterValidUntilStartDate := "";
  ViewPolicies.filterValidUntilEndDate := ""
|}.

(** A customer whose ID number field reads "constructor". *)
Definition p4 : Policy.t :=
  policy "p4" "PN-004" (Some "2025-01-01") (VNumber 100) (VNumber 10) false false
    (Some (customer "Carl" "Object" "constructor")) (Some jun20).

(** 2024-05-10 at noon UTC. *)
Definition now : Z := 1715342400000.

Definition entry (id type : string) (date : option string) (amount : jsval)
    (policyId : option string) (createdAt : option Timestamp) : LedgerEntry.t := {|
  LedgerEntry.id := id;
  LedgerEntry.type := type;
  LedgerEntry.date := date;
  LedgerEntry.amount := amount;
  LedgerEntry.reason := "";
  LedgerEntry.policyId := policyId;
  LedgerEntry.createdAt := createdAt
|}.

Definition e1 : LedgerEntry.t :=
  entry "e1" "Expense" (Some "2024-03-02") (VNumber 40) (Some "p1") None.

Definition e2 : LedgerEntry.t :=
  entry "e2" "Payment" (Some "2024-06-20") (VNumber 60) (Some "p1") (Some jun20).

Definition e3 : LedgerEntry.t :=
  entry "e3" "Expense" (Some "2024-03-05") (VNumber 5) None None.

Definition paymentsExpenses : list LedgerEntry.t := [e1; e2; e3].

Definition form : PolicyForm.t := {|
  PolicyForm.policyType := "New Policy"; PolicyForm.policyDate := "2024-01-15";
  PolicyForm.validUntil := "2025-01-14"; PolicyForm.totalAmount := "120.50";
  PolicyForm.commission := ""; PolicyForm.policyNumber := "PN-010";
  PolicyForm.vehicleNumber := ""; PolicyForm.insuranceType := "";
  PolicyForm.paidByCustomer := true; PolicyForm.paidToInsurer := false;
  PolicyForm.firstName := "Ana"; PolicyForm.lastName := "Ivanova";
  PolicyForm.phoneNumber := ""; PolicyForm.idNumber := "A1"; PolicyForm.address := "";
  PolicyForm.city := ""; PolicyForm.postalCode := ""
|}.

Definition signedInEnv : App.Env :=
  {| App.db := true; App.userId := Some "u1"; App.projectId := "demo" |}.

Definition signedOutEnv : App.Env :=
  {| App.db := true; App.userId := None; App.projectId := "demo" |}.

Definition store : Store.t :=
  {| Store.policies := policies; Store.payments_expenses := paymentsExpenses |}.

(** The user who confirms every dialog. *)
Definition yes : string -> bool := fun _ => true.

(** A store that accepts every call. *)
Definition accepts : StoreRequest -> option string := fun _ => None.

End Sample.

(** * The rest of the application

    The parts of the source that the specification does not speak of: the
    snapshot listeners, [formatDate], the tables of ledger entries, the two
    edit forms and the remaining handlers of [App]. *)

From Stdlib Require Import DecimalString.

(** ** Formatting built-ins *)

Class Formatting : Type := {
  (** [d.toISOString()] on a valid time value *)
  toISOString : Z -> string;
  (** [x.toFixed(2)] *)
  toFixed_2 : float -> string
}.

(** An executable instance. [toISOString] is the language's, for every time
    value a [Date] can hold; [toFixed_2] is the language's for the numbers
    below 1e21 in magnitude (from there on an engine prints the exponent
    form). *)
Module RefFormat.

Definition digit_char (d : Z) : ascii := ascii_of_nat (48 + Z.to_nat d).

(** The last [n] decimal digits of [v], in front of [acc]. *)
Fixpoint padded (n : nat) (v : Z) (acc : string) : string :=
  match n with
  | O => acc
  | S n' => padded n' (v / 10) (String (digit_char (v mod 10)) acc)
  end.

(** The civil date of the day that is [z] days after 1970-01-01. *)
Definition civil_from_days (z : Z) : Z * Z * Z :=
  (let z := z + 719468 in
   let era := z / 146097 in
   let doe := z - era * 146097 in
   let yoe := (doe - doe / 1460 + doe / 36524 - doe / 146096) / 365 in
   let doy := doe - (365 * yoe + yoe / 4 - yoe / 100) in
   let mp := (5 * doy + 2) / 153 in
   let d := doy - (153 * mp + 2) / 5 + 1 in
   let m := if mp <? 10 then mp + 3 else mp - 9 in
   (yoe + era * 400 + (if m <=? 2 then 1 else 0), m, d))%Z.

(** Whether the civil date of the day of the civil date [y]-[m]-[d] is
    that date again, when the month has a day [d]. *)
Definition round_trips (y m d : Z) : bool :=
  (if d <=? Ref.days_in_month y m then
     let '(y', m', d') := civil_from_days (Ref.days_from_civil y m d) in
     (y' =? y) && (m' =? m) && (d' =? d)
   else true)%Z.

(** The year of an ISO date: four digits from 0 to 9999, and otherwise a
    sign and six digits. *)
Definition iso_year (y : Z) : string :=
  (if (0 <=? y) && (y <=? 9999) then padded 4 y ""
   else (if y <? 0 then "-" else "+") ++ padded 6 (Z.abs y) "")%Z.

Definition toISOString (t : Z) : string :=
  (let '(y, m, d) := civil_from_days (t / Ref.msPerDay) in
   let ms := t mod Ref.msPerDay in
   iso_year y ++ "-" ++ padded 2 m "" ++ "-" ++ padded 2 d ""
   ++ "T" ++ padded 2 (ms / 3600000) "" ++ ":" ++ padded 2 (ms / 60000 mod 60) ""
   ++ ":" ++ padded 2 (ms / 1000 mod 60) "" ++ "." ++ padded 3 (ms mod 1000) "" ++ "Z")%Z.

(** The decimal numeral of a natural number. *)
Definition decimal (v : Z) : string := NilZero.string_of_uint (N.to_uint (Z.to_N v)).

(** [n] is the integer nearest to [100 * |x|], the larger one of two; the
    sign is that of [x], and [-0] prints as [0]. *)
Definition toFixed_2 (x : float) : string :=
  match Prim2SF x with
  | S754_nan => "NaN"
  | S754_infinity s => if s then "-Infinity" else "Infinity"
  | S754_zero _ => "0.00"
  | S754_finite s m e =>
      (let n :=
         if 0 <=? e then Zpos m * 2 ^ e * 100
         else (Zpos m * 200 + 2 ^ (- e)) / (2 * 2 ^ (- e)) in
       (if s then "-" else "") ++ decimal (n / 100) ++ "." ++ padded 2 (n mod 100) "")%Z
  end.

End RefFormat.

Definition refFormatting : Formatting := {|
  toISOString := RefFormat.toISOString;
  toFixed_2 := RefFormat.toFixed_2
|}.

(** ** [formatDate] *)

(** [s.split('T')[0]]: what comes before the first ['T']. *)
Fixpoint split_T_0 (s : string) : string :=
  match s with
  | EmptyString => EmptyString
  | String c s' => if Ascii.eqb c "T" then EmptyString else String c (split_T_0 s')
  end.

(** [toISOString] throws a RangeError on an Invalid Date. *)
Definition formatDate `{B : Builtins} `{F : Formatting} (dateString : option string)
    : Completion string :=
  if truthy dateString then
    match newDate dateString with
    | Some t => Normal (split_T_0 (toISOString t))
    | None => Throw "RangeError"
    end
  else Normal "".

(** ** The snapshot listeners of [App] *)

Module Listeners.

(** [policy.createdAt?.toDate() || 0], as the number it is subtracted as: a
    [Date] object is truthy, and its value in a subtraction is its time
    value. *)
Definition createdAtOrZero (policy : Policy.t) : Z :=
  match Policy.createdAt policy with
  | Some ts => toDate ts
  | None => 0%Z
  end.

(** The comparator of [fetchedPolicies.sort]. Time values are integers
    below 2^53 in magnitude, so the subtraction is exact. *)
Definition comparator (a b : Policy.t) : Z :=
  (createdAtOrZero b - createdAtOrZero a)%Z.

(** The callback of [onSnapshot] on the policies collection: [docs] are the
    documents of the snapshot, each with its id, in the order of the query;
    the result is the [policies] state. *)
Definition onPoliciesSnapshot (docs : list Policy.t) : list Policy.t :=
  Array_sort comparator docs.

(** The callback on the payments_expenses collection keeps the order of the
    query. *)
Definition onPaymentsExpensesSnapshot (docs : list LedgerEntry.t) : list LedgerEntry.t :=
  docs.

(** The two effects: without a database or a user, the state is emptied
    and no listener is attached. *)
Definition policies (env : App.Env) (st : Store.t) : list Policy.t :=
  if negb (App.db env) || negb (truthy (App.userId env)) then []
  else onPoliciesSnapshot (Store.policies st).

Definition paymentsExpenses (env : App.Env) (st : Store.t) : list LedgerEntry.t :=
  if negb (App.db env) || negb (truthy (App.userId env)) then []
  else onPaymentsExpensesSnapshot (Store.payments_expenses st).

End Listeners.

(** ** The tables of ledger entries *)

Module LedgerTable.

(** The last cell of a row: the Delete button under a policy, with the
    arguments of its [handleDeletePaymentExpense] call, and the "Linked
    Policy" text in the report. *)
Inductive LastCell : Type :=
  | deleteButton (itemId itemType : string) (itemAmount : jsval)
  | linkedPolicyCell (text : string).

(** A row [<tr key={item.id}>] of one of the two tables, with the text of
    its cells; [amount] is what follows "BGN ", nothing for [undefined]. *)
Record Row : Type := {
  key : string;
  type : string;
  date : string;
  amount : option string;
  reason : string;
  lastCell : LastCell
}.

Section Component.
Context `{B : Builtins} `{F : Formatting}.

(** The comparator of the two tables:
    [(b.createdAt?.toDate() || new Date(b.date)).getTime()
      - (a.createdAt?.toDate() || new Date(a.date)).getTime()].
    A difference with NaN is NaN, which [sort] takes for [+0]. *)
Definition comparator (a b : LedgerEntry.t) : Z :=
  match FinancialReports.itemDate b, FinancialReports.itemDate a with
  | Some tb, Some ta => (tb - ta)%Z
  | _, _ => 0%Z
  end.

(** The array that [.map] turns into the rows under an expanded policy of
    [ViewPolicies]: the entries of the policy, sorted. *)
Definition linkedEntries (paymentsExpenses : list LedgerEntry.t) (policy : Policy.t)
    : list LedgerEntry.t :=
  Array_sort comparator
    (List.filter (fun item => bool_decide (LedgerEntry.policyId item = Some (Policy.id policy)))
       paymentsExpenses).

(** The array that [.map] turns into the rows of the breakdown of
    [FinancialReports]. *)
Definition breakdown (filteredPaymentsExpenses : list LedgerEntry.t) : list LedgerEntry.t :=
  Array_sort comparator
    (List.filter (fun item => bool_decide (LedgerEntry.policyId item = LedgerEntry.policyId item))
       filteredPaymentsExpenses).

(** The "Linked Policy" cell of a row of the breakdown:
    [item.policyId ? (policies.find(p => p.id === item.policyId)?.policyNumber || 'N/A') : 'None']. *)
Definition linkedPolicy (policies : list Policy.t) (item : LedgerEntry.t) : string :=
  if truthy (LedgerEntry.policyId item) then
    match List.find (fun p => bool_decide (Some (Policy.id p) = LedgerEntry.policyId item))
            policies with
    | Some p => if Policy.policyNumber p =? "" then "N/A" else Policy.policyNumber p
    | None => "N/A"
    end
  else "None".

(** [item.amount?.toFixed(2)]: [undefined] stays [undefined], and a string
    has no [toFixed], so the call throws a TypeError. *)
Definition amountCell (amount : jsval) : Completion (option string) :=
  match amount with
  | VUndefined => Normal None
  | VNumber x => Normal (Some (toFixed_2 x))
  | VString _ => Throw "TypeError"
  end.

(** The callback of [.map]: the cells are evaluated from left to right, so
    [formatDate(item.date)] comes before [item.amount?.toFixed(2)]. *)
Definition row (last : LedgerEntry.t -> LastCell) (item : LedgerEntry.t) : Completion Row :=
  bind (formatDate (LedgerEntry.date item)) (fun date =>
  bind (amountCell (LedgerEntry.amount item)) (fun amount =>
  Normal {|
    key := LedgerEntry.id item;
    type := LedgerEntry.type item;
    date := date;
    amount := amount;
    reason := if LedgerEntry.reason item =? "" then "N/A" else LedgerEntry.reason item;
    lastCell := last item
  |})).

(** [array.map(callbackfn)], which stops at the first call that throws. *)
Fixpoint Array_map {A C : Type} (callbackfn : A -> Completion C) (l : list A)
    : Completion (list C) :=
  match l with
  | [] => Normal []
  | x :: l' =>
      bind (callbackfn x) (fun y =>
      bind (Array_map callbackfn l') (fun ys => Normal (y :: ys)))
  end.

(** The rows under an expanded policy, once the ledger is loaded; no row
    stands for the paragraph "No linked payments or expenses for this
    policy." An exception leaves the component without output. *)
Definition linkedRows (paymentsExpenses : list LedgerEntry.t) (policy : Policy.t)
    : Completion (list Row) :=
  Array_map
    (row (fun item =>
            deleteButton (LedgerEntry.id item) (LedgerEntry.type item) (LedgerEntry.amount item)))
    (linkedEntries paymentsExpenses policy).

(** The rows of the breakdown of the report; no row stands for "No payments
    or expenses in this date range." *)
Definition breakdownRows (policies : list Policy.t)
    (filteredPaymentsExpenses : list LedgerEntry.t) : Completion (list Row) :=
  Array_map (row (fun item => linkedPolicyCell (linkedPolicy policies item)))
    (breakdown filteredPaymentsExpenses).
End Component.

End LedgerTable.

(** ** Calls to the store *)

(** The object literal handed to [addDoc] for a ledger entry. *)
Module LedgerData.
Record t : Type := {
  type : string;
  date : string;
  amount : float;
  reason : string;
  policyId : option string;
  createdAt : FieldValue
}.
End LedgerData.

(** The object literal of [handleUpdateCustomer]: the values under the six
    field paths ['customer.firstName'], ..., ['customer.postalCode']. *)
Module CustomerUpdate.
Record t : Type := {
  firstName : option string;
  lastName : option string;
  phoneNumber : option string;
  address : option string;
  city : option string;
  postalCode : option string
}.
End CustomerUpdate.

Inductive Document : Type :=
  | policyData (data : PolicyData.t)
  | ledgerData (data : LedgerData.t)
  | customerUpdate (data : CustomerUpdate.t).

Module Call.

Inductive t : Type :=
  | addDoc (collection : string) (data : Document)
  | updateDoc (collection : string) (id : string) (data : Document)
  | deleteDoc (collection : string) (id : string).

Definition collection (c : t) : string :=
  match c with
  | addDoc collection _ | updateDoc collection _ _ | deleteDoc collection _ => collection
  end.

End Call.

(** The calls of the handlers of the policy form, among all calls. *)
Definition callOf (r : StoreRequest) : Call.t :=
  match r with
  | addDoc collection data => Call.addDoc collection (policyData data)
  | updateDoc collection id data => Call.updateDoc collection id (policyData data)
  | deleteDoc collection id => Call.deleteDoc collection id
  end.

(** How a call fails: it throws before it returns a promise (the check of
    its arguments), or the promise it returns is rejected. *)
Inductive Failure : Type :=
  | thrown (message : string)
  | rejected (message : string).

Definition message (f : Failure) : string :=
  match f with
  | thrown m | rejected m => m
  end.

(** ** The forms of the two edit modals *)

Module EditCustomerModal.

(** The inputs whose [onChange] is [handleChange], by their [name]; the
    input of the ID number is disabled. *)
Inductive Input : Type :=
  | firstName | lastName | phoneNumber | address | city | postalCode.

#[global] Instance Input_eq_dec : EqDecision Input.
Proof. solve_decision. Defined.

(** [setEditCustomerData(prev => ({ ...prev, [name]: value }))] *)
Definition handleChange (name : Input) (value : string) (prev : CustomerManagement.Row)
    : CustomerManagement.Row :=
  let field (i : Input) (old : option string) : option string :=
    if bool_decide (i = name) then Some value else old in
  {| CustomerManagement.idNumber := CustomerManagement.idNumber prev;
     CustomerManagement.firstName := field firstName (CustomerManagement.firstName prev);
     CustomerManagement.lastName := field lastName (CustomerManagement.lastName prev);
     CustomerManagement.phoneNumber := field phoneNumber (CustomerManagement.phoneNumber prev);
     CustomerManagement.address := field address (CustomerManagement.address prev);
     CustomerManagement.city := field city (CustomerManagement.city prev);
     CustomerManagement.postalCode := field postalCode (CustomerManagement.postalCode prev);
     CustomerManagement.policiesCount := CustomerManagement.policiesCount prev;
     CustomerManagement.totalPolicyValue := CustomerManagement.totalPolicyValue prev;
     CustomerManagement.associatedPolicies := CustomerManagement.associatedPolicies prev |}.

End EditCustomerModal.

Module EditPolicyModal.

(** The inputs of the customer fields, named ['customer.firstName'], ... *)
Inductive CustomerInput : Type :=
  | firstName | lastName | phoneNumber | idNumber | address | city | postalCode.

(** The inputs of the form, by their [name]. *)
Inductive Input : Type :=
  | policyType | policyNumber | policyDate | validUntil | totalAmount | commission
  | vehicleNumber | insuranceType | paidByCustomer | paidToInsurer
  | customer (customerField : CustomerInput).

#[global] Instance CustomerInput_eq_dec : EqDecision CustomerInput.
Proof. solve_decision. Defined.

#[global] Instance Input_eq_dec : EqDecision Input.
Proof. solve_decision. Defined.

(** [e.target]: the input, its [value] and its [checked]. *)
Record Event : Type := {
  target : Input;
  value : string;
  checked : bool
}.

(** [{ ...prev.customer, [customerField]: value }]; the spread of
    [undefined] has no property. *)
Definition setCustomerField (customerField : CustomerInput) (v : string)
    (prev : option Customer.t) : Customer.t :=
  let field (i : CustomerInput) (old : Customer.t -> option string) : option string :=
    if bool_decide (i = customerField) then Some v else prev ≫= old in
  {| Customer.firstName := field firstName Customer.firstName;
     Customer.lastName := field lastName Customer.lastName;
     Customer.phoneNumber := field phoneNumber Customer.phoneNumber;
     Customer.idNumber := field idNumber Customer.idNumber;
     Customer.address := field address Customer.address;
     Customer.city := field city Customer.city;
     Customer.postalCode := field postalCode Customer.postalCode |}.

(** A field named ['customer.x'] is set in [prev.customer]; any other is
    set in [prev], to [checked] for the two checkboxes and to [value] for
    the rest. *)
Definition handleChange (e : Event) (prev : Policy.t) : Policy.t :=
  let text (i : Input) (old : string) : string :=
    if bool_decide (i = target e) then value e else old in
  let date (i : Input) (old : option string) : option string :=
    if bool_decide (i = target e) then Some (value e) else old in
  let number (i : Input) (old : jsval) : jsval :=
    if bool_decide (i = target e) then VString (value e) else old in
  let flag (i : Input) (old : bool) : bool :=
    if bool_decide (i = target e) then checked e else old in
  {| Policy.id := Policy.id prev;
     Policy.policyType := text policyType (Policy.policyType prev);
     Policy.policyNumber := text policyNumber (Policy.policyNumber prev);
     Policy.policyDate := date policyDate (Policy.policyDate prev);
     Policy.validUntil := date validUntil (Policy.validUntil prev);
     Policy.totalAmount := number totalAmount (Policy.totalAmount prev);
     Policy.commission := number commission (Policy.commission prev);
     Policy.vehicleNumber := text vehicleNumber (Policy.vehicleNumber prev);
     Policy.insuranceType := text insuranceType (Policy.insuranceType prev);
     Policy.paidByCustomer := flag paidByCustomer (Policy.paidByCustomer prev);
     Policy.paidToInsurer := flag paidToInsurer (Policy.paidToInsurer prev);
     Policy.customer :=
       match target e with
       | customer customerField =>
           Some (setCustomerField customerField (value e) (Policy.customer prev))
       | _ => Policy.customer prev
       end;
     Policy.createdAt := Policy.createdAt prev |}.

(** The effect that fills the form when the modal is given a policy:
    [{ ...policy, policyDate: formatDate(policy.policyDate),
       validUntil: formatDate(policy.validUntil) }]. *)
Definition editPolicyData `{B : Builtins} `{F : Formatting} (policy : Policy.t)
    : Completion Policy.t :=
  bind (formatDate (Policy.policyDate policy)) (fun policyDate =>
  bind (formatDate (Policy.validUntil policy)) (fun validUntil =>
  Normal {|
    Policy.id := Policy.id policy;
    Policy.policyType := Policy.policyType policy;
    Policy.policyNumber := Policy.policyNumber policy;
    Policy.policyDate := Some policyDate;
    Policy.validUntil := Some validUntil;
    Policy.totalAmount := Policy.totalAmount policy;
    Policy.commission := Policy.commission policy;
    Policy.vehicleNumber := Policy.vehicleNumber policy;
    Policy.insuranceType := Policy.insuranceType policy;
    Policy.paidByCustomer := Policy.paidByCustomer policy;
    Policy.paidToInsurer := Policy.paidToInsurer policy;
    Policy.customer := Policy.customer policy;
    Policy.createdAt := Policy.createdAt policy |})).

End EditPolicyModal.

(** ** The remaining handlers of [App] *)

Module PaymentExpenseForm.
Record t : Type := {
  paymentExpenseType : string;
  paymentExpenseDate : string;
  paymentExpenseAmount : string;
  paymentExpenseReason : string;
  selectedPolicyForPayment : string
}.

(** The form after the [set...] calls that clear it. *)
Definition cleared : t := {|
  paymentExpenseType := "Payment"; paymentExpenseDate := ""; paymentExpenseAmount := "";
  paymentExpenseReason := ""; selectedPolicyForPayment := ""
|}.
End PaymentExpenseForm.

Module Handlers.

(** What a handler did: the calls it made to the store, in order, the
    modal it opened, and the text of the confirmation dialog if it showed
    one. *)
Record Outcome : Type := {
  calls : list Call.t;
  modalMessage : option string;
  confirmPrompt : option string
}.

Section Handlers.
Context `{B : Builtins} `{F : Formatting}.
(** [storeFailure c] is the way the call [c] fails, if it does. *)
Variable storeFailure : Call.t -> option Failure.

(** The failures of the calls of the policy form, as [App] takes them. *)
Definition storeError (r : StoreRequest) : option string :=
  message <$> storeFailure (callOf r).

Definition handleAddPaymentExpense (env : App.Env) (form : PaymentExpenseForm.t)
    : Outcome * PaymentExpenseForm.t :=
  if negb (App.db env) || negb (truthy (App.userId env)) then
    ({| calls := [];
        modalMessage :=
          Some "Error: Database not ready or user not authenticated. Please log in.";
        confirmPrompt := None |}, form)
  else if App.empty (PaymentExpenseForm.paymentExpenseDate form)
          || App.empty (PaymentExpenseForm.paymentExpenseAmount form)
          || App.empty (PaymentExpenseForm.paymentExpenseType form) then
    ({| calls := [];
        modalMessage := Some "Please fill in Date, Amount, and Type for the payment/expense.";
        confirmPrompt := None |}, form)
  else
    let call :=
      Call.addDoc (App.paymentsExpensesPath env) (ledgerData {|
        LedgerData.type := PaymentExpenseForm.paymentExpenseType form;
        LedgerData.date := PaymentExpenseForm.paymentExpenseDate form;
        LedgerData.amount := parseFloat (VString (PaymentExpenseForm.paymentExpenseAmount form));
        LedgerData.reason := PaymentExpenseForm.paymentExpenseReason form;
        LedgerData.policyId :=
          if App.empty (PaymentExpenseForm.selectedPolicyForPayment form) then None
          else Some (PaymentExpenseForm.selectedPolicyForPayment form);
        LedgerData.createdAt := serverTimestamp |}) in
    match storeFailure call with
    | None =>
        ({| calls := [call];
            modalMessage :=
              Some (PaymentExpenseForm.paymentExpenseType form ++ " added successfully!");
            confirmPrompt := None |}, PaymentExpenseForm.cleared)
    | Some failure =>
        ({| calls := [call];
            modalMessage :=
              Some ("Error adding " ++ PaymentExpenseForm.paymentExpenseType form ++ ": "
                    ++ message failure);
            confirmPrompt := None |}, form)
    end.

(** [policy.customer && policy.customer.idNumber === updatedCustomer.idNumber] *)
Definition isCustomerOf (updatedCustomer : CustomerManagement.Row) (policy : Policy.t) : bool :=
  match Policy.customer policy with
  | Some c =>
      bool_decide (Customer.idNumber c = Some (CustomerManagement.idNumber updatedCustomer))
  | None => false
  end.

(** The object literal of the update: six fields of the customer, and not
    its ID number. *)
Definition customerFields (updatedCustomer : CustomerManagement.Row) : CustomerUpdate.t := {|
  CustomerUpdate.firstName := CustomerManagement.firstName updatedCustomer;
  CustomerUpdate.lastName := CustomerManagement.lastName updatedCustomer;
  CustomerUpdate.phoneNumber := CustomerManagement.phoneNumber updatedCustomer;
  CustomerUpdate.address := CustomerManagement.address updatedCustomer;
  CustomerUpdate.city := CustomerManagement.city updatedCustomer;
  CustomerUpdate.postalCode := CustomerManagement.postalCode updatedCustomer
|}.

(** The call of [handleUpdateCustomer] for one policy. [policy.id] is the
    id of a document of the snapshot. *)
Definition customerUpdateOf (env : App.Env) (updatedCustomer : CustomerManagement.Row)
    (policy : Policy.t) : Call.t :=
  Call.updateDoc (App.policiesPath env) (Policy.id policy)
    (customerUpdate (customerFields updatedCustomer)).

(** [policies.map(policy => ...)]: the calls made, in order, and the
    message of the error that stopped the iteration, if a call threw. The
    promises of the policies of other customers are [Promise.resolve()],
    which [filter(Boolean)] keeps and which fail in no way. *)
Fixpoint batchUpdates (env : App.Env) (updatedCustomer : CustomerManagement.Row)
    (policies : list Policy.t) : list Call.t * option string :=
  match policies with
  | [] => ([], None)
  | policy :: policies' =>
      if isCustomerOf updatedCustomer policy then
        let call := customerUpdateOf env updatedCustomer policy in
        match storeFailure call with
        | Some (thrown m) => ([], Some m)
        | _ =>
            let '(made, error) := batchUpdates env updatedCustomer policies' in
            (call :: made, error)
        end
      else batchUpdates env updatedCustomer policies'
  end.

(** The message of the first call of the list that fails. *)
Definition firstFailure (made : list Call.t) : option string :=
  message <$> (List.find (fun c => bool_decide (is_Some (storeFailure c))) made ≫= storeFailure).

Definition handleUpdateCustomer (env : App.Env) (policies : list Policy.t)
    (updatedCustomer : CustomerManagement.Row) : Outcome :=
  if negb (App.db env) || negb (truthy (App.userId env))
     || App.empty (CustomerManagement.idNumber updatedCustomer) then
    {| calls := [];
       modalMessage := Some "Error: Database not ready or customer ID Number missing.";
       confirmPrompt := None |}
  else
    let '(made, error) := batchUpdates env updatedCustomer policies in
    {| calls := made;
       modalMessage :=
         match (match error with Some m => Some m | None => firstFailure made end) with
         | Some m => Some ("Error updating customer: " ++ m)
         | None =>
             Some "Customer details updated successfully across all associated policies!"
         end;
       confirmPrompt := None |}.

(** [itemAmount?.toFixed(2) || '']: nothing of [undefined], the two
    decimals of a number, and a TypeError on a string, which has no
    [toFixed]. *)
Definition amountText (itemAmount : jsval) : Completion string :=
  match itemAmount with
  | VUndefined => Normal ""
  | VNumber x => Normal (toFixed_2 x)
  | VString _ => Throw "TypeError"
  end.

(** [answer] is what the user replies to [window.confirm]. The text of the
    dialog is built outside the [try]. *)
Definition handleDeletePaymentExpense (env : App.Env) (answer : string -> bool)
    (itemId itemType : string) (itemAmount : jsval) : Completion Outcome :=
  if negb (App.db env) || negb (truthy (App.userId env)) then
    Normal {| calls := [];
              modalMessage := Some "Error: Database not ready or user not authenticated.";
              confirmPrompt := None |}
  else
    bind (amountText itemAmount) (fun amount =>
    let prompt :=
      "Are you sure you want to delete this " ++ itemType ++ " of BGN " ++ amount
      ++ "? This action cannot be undone." in
    if answer prompt then
      let call := Call.deleteDoc (App.paymentsExpensesPath env) itemId in
      Normal {| calls := [call];
                modalMessage :=
                  match storeFailure call with
                  | None => Some (itemType ++ " deleted successfully!")
                  | Some failure =>
                      Some ("Error deleting " ++ itemType ++ ": " ++ message failure)
                  end;
                confirmPrompt := Some prompt |}
    else
      Normal {| calls := []; modalMessage := None; confirmPrompt := Some prompt |}).

(** The handlers of the policy form, with their calls among all calls. *)
Definition ofOutcome (out : App.Outcome) : Outcome :=
  {| calls := List.map callOf (App.requests out);
     modalMessage := App.modalMessage out;
     confirmPrompt := App.confirmPrompt out |}.

(** ** The effect of the calls on the store

    A call that fails has no effect. [deleteDoc] removes the document of
    that id; [updateDoc] on a policy writes the fields of its object
    literal, a nested object as a whole and a field path into the nested
    object, and leaves the others; a [createdAt] it carries is set to
    [serverTime]. The application updates no ledger entry. [addDoc] creates
    a document under an id of the store's choosing, at a place in the order
    of the query that depends on that id: it has no part in [execute], and
    [addedEntry] below is the document it creates. *)
Variable serverTime : Timestamp.

Definition updatedPolicy (data : PolicyData.t) (policy : Policy.t) : Policy.t := {|
  Policy.id := Policy.id policy;
  Policy.policyType := PolicyData.policyType data;
  Policy.policyNumber := PolicyData.policyNumber data;
  Policy.policyDate := PolicyData.policyDate data;
  Policy.validUntil := PolicyData.validUntil data;
  Policy.totalAmount := VNumber (PolicyData.totalAmount data);
  Policy.commission := VNumber (PolicyData.commission data);
  Policy.vehicleNumber := PolicyData.vehicleNumber data;
  Policy.insuranceType := PolicyData.insuranceType data;
  Policy.paidByCustomer := PolicyData.paidByCustomer data;
  Policy.paidToInsurer := PolicyData.paidToInsurer data;
  Policy.customer := Some (PolicyData.customer data);
  Policy.createdAt :=
    match PolicyData.createdAt data with
    | Some serverTimestamp => Some serverTime
    | None => Policy.createdAt policy
    end
|}.

Definition updatedCustomerOf (data : CustomerUpdate.t) (policy : Policy.t) : Policy.t := {|
  Policy.id := Policy.id policy;
  Policy.policyType := Policy.policyType policy;
  Policy.policyNumber := Policy.policyNumber policy;
  Policy.policyDate := Policy.policyDate policy;
  Policy.validUntil := Policy.validUntil policy;
  Policy.totalAmount := Policy.totalAmount policy;
  Policy.commission := Policy.commission policy;
  Policy.vehicleNumber := Policy.vehicleNumber policy;
  Policy.insuranceType := Policy.insuranceType policy;
  Policy.paidByCustomer := Policy.paidByCustomer policy;
  Policy.paidToInsurer := Policy.paidToInsurer policy;
  Policy.customer := Some {|
    Customer.firstName := CustomerUpdate.firstName data;
    Customer.lastName := CustomerUpdate.lastName data;
    Customer.phoneNumber := CustomerUpdate.phoneNumber data;
    Customer.idNumber := Policy.customer policy ≫= Customer.idNumber;
    Customer.address := CustomerUpdate.address data;
    Customer.city := CustomerUpdate.city data;
    Customer.postalCode := CustomerUpdate.postalCode data |};
  Policy.createdAt := Policy.createdAt policy
|}.

Definition updateWhere (id : string) (f : Policy.t -> Policy.t) (st : Store.t) : Store.t :=
  {| Store.policies :=
       List.map (fun p => if Policy.id p =? id then f p else p) (Store.policies st);
     Store.payments_expenses := Store.payments_expenses st |}.

Definition execute (env : App.Env) (st : Store.t) (c : Call.t) : Store.t :=
  match storeFailure c with
  | Some _ => st
  | None =>
      match c with
      | Call.deleteDoc collection id =>
          if collection =? App.policiesPath env then
            {| Store.policies :=
                 List.filter (fun p => negb (Policy.id p =? id)) (Store.policies st);
               Store.payments_expenses := Store.payments_expenses st |}
          else if collection =? App.paymentsExpensesPath env then
            {| Store.policies := Store.policies st;
               Store.payments_expenses :=
                 List.filter (fun e => negb (LedgerEntry.id e =? id))
                   (Store.payments_expenses st) |}
          else st
      | Call.updateDoc collection id (policyData data) =>
          if collection =? App.policiesPath env then updateWhere id (updatedPolicy data) st
          else st
      | Call.updateDoc collection id (customerUpdate data) =>
          if collection =? App.policiesPath env then updateWhere id (updatedCustomerOf data) st
          else st
      | _ => st
      end
  end.

Definition executeAll (env : App.Env) (st : Store.t) (cs : list Call.t) : Store.t :=
  fold_left (execute env) cs st.
End Handlers.

(** The ledger entry that [addDoc] creates from [data], as a snapshot
    delivers it: [id] is the id the store chose, and [createdAt] the time
    the server wrote, [None] as long as the write is pending. *)
Definition addedEntry (id : string) (createdAt : option Timestamp) (data : LedgerData.t)
    : LedgerEntry.t := {|
  LedgerEntry.id := id;
  LedgerEntry.type := LedgerData.type data;
  LedgerEntry.date := Some (LedgerData.date data);
  LedgerEntry.amount := VNumber (LedgerData.amount data);
  LedgerEntry.reason := LedgerData.reason data;
  LedgerEntry.policyId := LedgerData.policyId data;
  LedgerEntry.createdAt := createdAt
|}.

End Handlers.

(** ** More sample data *)
Module Scenario.

(** A store that carries out every call. *)
Definition accepts : Call.t -> option Failure := fun _ => None.

(** The policies state for the sample store: the latest first. *)
Definition policies : list Policy.t := Listeners.onPoliciesSnapshot Sample.policies.

(** The row of customer A1 with another first name and a city. *)
Definition corrected : CustomerManagement.Row := {|
  CustomerManagement.idNumber := "A1";
  CustomerManagement.firstName := Some "Anna";
  CustomerManagement.lastName := Some "Ivanova";
  CustomerManagement.phoneNumber := Some "";
  CustomerManagement.address := Some "";
  CustomerManagement.city := Some "Sofia";
  CustomerManagement.postalCode := Some "";
  CustomerManagement.policiesCount := 2;
  CustomerManagement.totalPolicyValue := 150;
  CustomerManagement.associatedPolicies := []
|}.

Definition edits : list (EditCustomerModal.Input * string) :=
  [ (EditCustomerModal.firstName, "Anna"); (EditCustomerModal.city, "Sofia") ].

(** An expense of 12.50 for policy p1. *)
Definition entryForm : PaymentExpenseForm.t := {|
  PaymentExpenseForm.paymentExpenseType := "Expense";
  PaymentExpenseForm.paymentExpenseDate := "2024-07-01";
  PaymentExpenseForm.paymentExpenseAmount := "12.50";
  PaymentExpenseForm.paymentExpenseReason := "fuel";
  PaymentExpenseForm.selectedPolicyForPayment := "p1"
|}.

Definition entryData : LedgerData.t := {|
  LedgerData.type := "Expense";
  LedgerData.date := "2024-07-01";
  LedgerData.amount := 12.5;
  LedgerData.reason := "fuel";
  LedgerData.policyId := Some "p1";
  LedgerData.createdAt := serverTimestamp
|}.

(** 2024-07-01 at 10:00 UTC. *)
Definition serverTime : Timestamp := {| seconds := 1719828000; nanoseconds := 0 |}.

End Scenario.


(** * Properties *)

(** ** Lists and numbers *)

Lemma reduce_add_sum {A : Type} (g : A -> float) (l : list A) :
  reduce_add g l = Spec.sum (List.map g l).
Proof.
  unfold reduce_add, Spec.sum. generalize 0%float.
  induction l as [|x l IH]; intros acc; simpl; [reflexivity | apply IH].
Qed.

Lemma counts_filter {A : Type} (P : A -> Prop) (f : A -> bool) (l : list A) :
  (forall x, f x = true <-> P x) ->
  Spec.counts P l (length (List.filter f l)).
Proof.
  intros Hf. induction l as [|x l IH]; simpl.
  - constructor.
  - destruct (f x) eqn:E; simpl.
    + apply Spec.counts_yes; [apply Hf, E | exact IH].
    + apply Spec.counts_no; [rewrite <- Hf, E; discriminate | exact IH].
Qed.

Lemma counts_functional {A : Type} (P : A -> Prop) (l : list A) (n m : nat) :
  Spec.counts P l n -> Spec.counts P l m -> n = m.
Proof.
  intros Hn. revert m. induction Hn; intros m Hm; inversion Hm; subst;
    try reflexivity; try contradiction; auto.
Qed.

Lemma orZero_nan (x : float) : PrimFloat.is_nan x = true -> orZero x = 0%float.
Proof. intros H. unfold orZero. now rewrite H. Qed.

Lemma orZero_number (x : float) :
  PrimFloat.is_nan x = false -> (x =? orZero x)%float = true.
Proof.
  intros H. unfold orZero. rewrite H. simpl.
  destruct (PrimFloat.is_zero x) eqn:Z; [exact Z |].
  unfold PrimFloat.is_nan in H. now apply negb_false_iff in H.
Qed.

Lemma truthy_Some (o : option string) :
  truthy o = true <-> exists s, o = Some s /\ s <> "".
Proof.
  destruct o as [s|]; simpl.
  - rewrite negb_true_iff, String.eqb_neq. split.
    + intros H. exists s. auto.
    + intros (s' & [= <-] & H). exact H.
  - split; [discriminate | intros (s & [=] & _)].
Qed.

(** ** Binary64 addition and the sign of zero

    Adding [+0] to a number returns the number, except that [-0 + 0] is
    [+0]; and a sum is [-0] only when both terms are. The accumulators of
    the sums below start at [+0] and add terms that are never [-0], so a
    term replaced by [0] is a term left out. *)
Module Binary64.
Import SpecFloat.
Local Open Scope Z_scope.

Lemma shr_1_div2 (mrs : shr_record) :
  0 <= shr_m mrs -> shr_m (shr_1 mrs) = shr_m mrs / 2.
Proof.
  destruct mrs as [m r s]. simpl. intros Hm.
  destruct m as [|p|p]; [reflexivity | | lia].
  destruct p as [p|p|]; simpl.
  - rewrite Pos2Z.inj_xI. apply Z.div_unique with 1; lia.
  - rewrite Pos2Z.inj_xO. apply Z.div_unique with 0; lia.
  - reflexivity.
Qed.

Lemma iter_shr_1_div (n : positive) (mrs : shr_record) :
  0 <= shr_m mrs -> shr_m (iter_pos shr_1 n mrs) = shr_m mrs / 2 ^ Zpos n.
Proof.
  revert mrs. induction n as [n IH|n IH|]; intros mrs Hm; simpl iter_pos.
  - assert (H1 : 0 <= shr_m (shr_1 mrs)).
    { rewrite shr_1_div2 by assumption. apply Z.div_pos; lia. }
    assert (H2 : 0 <= shr_m (iter_pos shr_1 n (shr_1 mrs))).
    { rewrite IH by assumption. apply Z.div_pos; lia. }
    rewrite IH, IH, shr_1_div2 by assumption.
    assert (0 < 2 ^ Z.pos n) by (apply Z.pow_pos_nonneg; lia).
    rewrite !Z.div_div by lia. f_equal.
    rewrite (Pos2Z.inj_xI n).
    replace (2 * Z.pos n + 1) with (1 + Z.pos n + Z.pos n) by lia.
    rewrite !Z.pow_add_r by lia. change (2 ^ 1) with 2. lia.
  - assert (H2 : 0 <= shr_m (iter_pos shr_1 n mrs)).
    { rewrite IH by assumption. apply Z.div_pos; lia. }
    rewrite IH, IH by assumption.
    assert (0 < 2 ^ Z.pos n) by (apply Z.pow_pos_nonneg; lia).
    rewrite Z.div_div by lia. f_equal.
    rewrite (Pos2Z.inj_xO n).
    replace (2 * Z.pos n) with (Z.pos n + Z.pos n) by lia.
    rewrite Z.pow_add_r by lia. reflexivity.
  - rewrite shr_1_div2 by assumption. reflexivity.
Qed.

Lemma digits2_pos_lower (p : positive) : 2 ^ (Zpos (digits2_pos p) - 1) <= Zpos p.
Proof.
  induction p as [p IH|p IH|]; simpl digits2_pos.
  - rewrite (Pos2Z.inj_succ (digits2_pos p)), (Pos2Z.inj_xI p).
    replace (Z.succ (Zpos (digits2_pos p)) - 1) with (1 + (Zpos (digits2_pos p) - 1)) by lia.
    rewrite Z.pow_add_r by lia. change (2 ^ 1) with 2. lia.
  - rewrite (Pos2Z.inj_succ (digits2_pos p)), (Pos2Z.inj_xO p).
    replace (Z.succ (Zpos (digits2_pos p)) - 1) with (1 + (Zpos (digits2_pos p) - 1)) by lia.
    rewrite Z.pow_add_r by lia. change (2 ^ 1) with 2. lia.
  - reflexivity.
Qed.

Abbreviation emin64 := (SpecFloat.emin prec emax).

(** Shifting a positive mantissa to its canonical exponent leaves it positive. *)
Lemma shr_fexp_pos (m e : Z) (l : location) :
  0 < m -> emin64 <= e ->
  0 < shr_m (fst (shr_fexp prec emax m e l)) /\ emin64 <= snd (shr_fexp prec emax m e l).
Proof.
  intros Hm He. unfold shr_fexp, shr.
  assert (Hrec : shr_m (shr_record_of_loc m l) = m) by (destruct l as [|[]]; reflexivity).
  destruct (fexp prec emax (Zdigits2 m + e) - e) as [|n|n] eqn:En; simpl fst; simpl snd.
  - rewrite Hrec. auto.
  - rewrite iter_shr_1_div by (rewrite Hrec; lia). rewrite Hrec.
    destruct m as [|p|p]; try lia. simpl Zdigits2 in En.
    pose proof (digits2_pos_lower p) as Hd.
    unfold fexp in En. change (SpecFloat.emin prec emax) with emin64 in En.
    assert (Hn : Zpos n <= Zpos (digits2_pos p) - 1).
    { revert En He. generalize (SpecFloat.emin prec emax). change prec with 53. lia. }
    split; [| lia].
    apply Z.div_str_pos. split; [apply Z.pow_pos_nonneg; lia |].
    eapply Z.le_trans; [| exact Hd]. apply Z.pow_le_mono_r; lia.
  - rewrite Hrec. auto.
Qed.

Lemma round_nearest_even_ge (m : Z) (l : location) : m <= round_nearest_even m l.
Proof. destruct l as [|[]]; simpl; try lia. destruct (Z.even m); lia. Qed.

Lemma binary_round_aux_not_zero (sx : bool) (m e : Z) (l : location) :
  0 < m -> emin64 <= e ->
  forall s, binary_round_aux prec emax sx m e l <> S754_zero s.
Proof.
  intros Hm He s. unfold binary_round_aux.
  pose proof (shr_fexp_pos m e l Hm He) as [H1 H1e].
  destruct (shr_fexp prec emax m e l) as [mrs' e']. simpl in H1, H1e.
  pose proof (round_nearest_even_ge (shr_m mrs') (loc_of_shr_record mrs')) as Hr.
  pose proof (shr_fexp_pos (round_nearest_even (shr_m mrs') (loc_of_shr_record mrs')) e' loc_Exact
                ltac:(lia) H1e) as [H2 _].
  destruct (shr_fexp prec emax _ e' loc_Exact) as [mrs'' e'']. simpl in H2.
  destruct (shr_m mrs'') as [|q|q]; try lia.
  destruct (e'' <=? emax - prec); discriminate.
Qed.

Lemma binary_round_not_zero (sx : bool) (p : positive) (e : Z) :
  emin64 <= e -> forall s, binary_round prec emax sx p e <> S754_zero s.
Proof.
  intros He s. unfold binary_round, shl_align.
  set (f := fexp prec emax (Zpos (digits2_pos p) + e)).
  assert (Hf : emin64 <= f) by (unfold f, fexp; lia).
  destruct (f - e) as [|d|d]; apply binary_round_aux_not_zero; lia.
Qed.

Lemma binary_normalize_not_neg_zero (m e : Z) :
  emin64 <= e -> binary_normalize prec emax m e false <> S754_zero true.
Proof.
  intros He. destruct m as [|p|p]; simpl.
  - discriminate.
  - apply binary_round_not_zero, He.
  - apply binary_round_not_zero, He.
Qed.

Lemma valid_exponent (s : bool) (m : positive) (e : Z) :
  SpecFloat.valid_binary prec emax (S754_finite s m e) = true -> emin64 <= e.
Proof.
  simpl. unfold bounded, canonical_mantissa. intros H.
  apply andb_true_iff in H as [H _]. apply Z.eqb_eq in H.
  unfold fexp in H. lia.
Qed.

Lemma SFadd_not_neg_zero (x y : spec_float) :
  SpecFloat.valid_binary prec emax x = true -> SpecFloat.valid_binary prec emax y = true ->
  x <> S754_zero true -> y <> S754_zero true ->
  SF64add x y <> S754_zero true.
Proof.
  intros Vx Vy Hx Hy. unfold SF64add, SFadd.
  destruct x as [[]| [] | |sx mx ex], y as [[]| [] | |sy my ey];
    try discriminate; try congruence.
  apply binary_normalize_not_neg_zero.
  apply valid_exponent in Vx, Vy. lia.
Qed.

Lemma add_not_neg_zero (x y : float) :
  x <> neg_zero -> y <> neg_zero -> (x + y)%float <> neg_zero.
Proof.
  intros Hx Hy H. apply (f_equal Prim2SF) in H. rewrite FloatAxioms.add_spec in H.
  revert H. apply SFadd_not_neg_zero; try apply Prim2SF_valid.
  - intros E. apply Hx. apply Prim2SF_inj. exact E.
  - intros E. apply Hy. apply Prim2SF_inj. exact E.
Qed.

Lemma add_zero_r (x : float) : x <> neg_zero -> (x + 0)%float = x.
Proof.
  intros Hx. apply Prim2SF_inj. rewrite FloatAxioms.add_spec.
  assert (H : Prim2SF x <> S754_zero true).
  { intros E. apply Hx. apply Prim2SF_inj. exact E. }
  change (Prim2SF 0) with (S754_zero false).
  destruct (Prim2SF x) as [[]| [] | |sx mx ex]; try reflexivity. congruence.
Qed.

Lemma SFcompare_antisym (x y : spec_float) :
  SFcompare y x = option_map CompOpp (SFcompare x y).
Proof.
  destruct x as [[]|[]| |[] mx ex], y as [[]|[]| |[] my ey]; simpl; try reflexivity.
  - rewrite (Z.compare_antisym ey ex). destruct (ey ?= ex)%Z; simpl; try reflexivity.
    rewrite !Pos.compare_cont_antisym. reflexivity.
  - rewrite (Z.compare_antisym ey ex). destruct (ey ?= ex)%Z; simpl; try reflexivity.
    rewrite !Pos.compare_cont_antisym. reflexivity.
Qed.

Lemma ltb_asym (x y : float) : (x <? y)%float = true -> (y <? x)%float = false.
Proof.
  rewrite !FloatAxioms.ltb_spec. unfold SFltb. rewrite (SFcompare_antisym (Prim2SF x) (Prim2SF y)).
  destruct (SFcompare (Prim2SF x) (Prim2SF y)) as [[]|]; simpl; congruence.
Qed.

Lemma zero_not_neg_zero : 0%float <> neg_zero.
Proof. intros H. apply (f_equal Prim2SF) in H. vm_compute in H. discriminate. Qed.

End Binary64.

(** Which results of the arithmetic of the reference [parseFloat] are
    numbers: the conversion of an integer below 2^63 is finite, a power of
    ten is positive or [+infinity], and so their quotient is not NaN. *)
Module FloatNumbers.
Import SpecFloat.
Local Open Scope Z_scope.

Lemma is_nan_number (x : float) : Prim2SF x <> S754_nan -> PrimFloat.is_nan x = false.
Proof.
  intros H. unfold PrimFloat.is_nan. rewrite FloatAxioms.eqb_spec. unfold SFeqb.
  destruct (Prim2SF x) as [s|s| |s m e]; try congruence.
  - destruct s; reflexivity.
  - destruct s; reflexivity.
  - simpl. rewrite Z.compare_refl. destruct s; simpl; now rewrite Pos.compare_cont_refl.
Qed.

Lemma shr_fexp_nonneg (m e : Z) (l : location) :
  0 <= m ->
  0 <= shr_m (fst (shr_fexp prec emax m e l)) <= m
  /\ snd (shr_fexp prec emax m e l) = Z.max e (fexp prec emax (Zdigits2 m + e)).
Proof.
  intros Hm. unfold shr_fexp, shr.
  assert (Hrec : shr_m (shr_record_of_loc m l) = m) by (destruct l as [|[]]; reflexivity).
  destruct (fexp prec emax (Zdigits2 m + e) - e) as [|n|n] eqn:En; simpl fst; simpl snd.
  - rewrite Hrec. lia.
  - rewrite Binary64.iter_shr_1_div by (rewrite Hrec; lia). rewrite Hrec.
    assert (0 < 2 ^ Z.pos n) by (apply Z.pow_pos_nonneg; lia).
    split; [| lia]. split; [apply Z.div_pos; lia |].
    apply Z.div_le_upper_bound; nia.
  - rewrite Hrec. lia.
Qed.

Lemma round_nearest_even_le (m : Z) (l : location) : round_nearest_even m l <= m + 1.
Proof. destruct l as [|[]]; simpl; try lia. destruct (Z.even m); lia. Qed.

Lemma binary_round_aux_number (sx : bool) (m e : Z) (l : location) :
  0 <= m -> binary_round_aux prec emax sx m e l <> S754_nan.
Proof.
  intros Hm. unfold binary_round_aux.
  pose proof (shr_fexp_nonneg m e l Hm) as [H1 _].
  destruct (shr_fexp prec emax m e l) as [mrs' e']. simpl in H1.
  pose proof (Binary64.round_nearest_even_ge (shr_m mrs') (loc_of_shr_record mrs')) as Hr.
  pose proof (shr_fexp_nonneg (round_nearest_even (shr_m mrs') (loc_of_shr_record mrs')) e'
                loc_Exact ltac:(lia)) as [H2 _].
  destruct (shr_fexp prec emax _ e' loc_Exact) as [mrs'' e'']. simpl in H2.
  destruct (shr_m mrs'') as [|q|q]; try lia; [discriminate |].
  destruct (e'' <=? emax - prec); discriminate.
Qed.

Lemma Zdigits2_le (m k : Z) : 0 <= k -> 0 <= m < 2 ^ k -> Zdigits2 m <= k.
Proof.
  intros Hk [Hm Hlt]. destruct m as [|p|p]; simpl; [lia | | lia].
  pose proof (Binary64.digits2_pos_lower p) as Hd.
  destruct (Z_le_gt_dec (Z.pos (digits2_pos p)) k) as [H|H]; [exact H |].
  exfalso. assert (2 ^ k <= 2 ^ (Z.pos (digits2_pos p) - 1)) by (apply Z.pow_le_mono_r; lia).
  lia.
Qed.

Lemma binary_round_aux_finite (sx : bool) (m e : Z) (l : location) :
  0 <= m < 2 ^ 200 -> e <= 200 ->
  match binary_round_aux prec emax sx m e l with
  | S754_zero _ | S754_finite _ _ _ => True
  | _ => False
  end.
Proof.
  intros Hm He. unfold binary_round_aux.
  pose proof (shr_fexp_nonneg m e l ltac:(lia)) as [H1 E1].
  destruct (shr_fexp prec emax m e l) as [mrs' e']. simpl in H1, E1.
  pose proof (Binary64.round_nearest_even_ge (shr_m mrs') (loc_of_shr_record mrs')) as Hr.
  pose proof (round_nearest_even_le (shr_m mrs') (loc_of_shr_record mrs')) as Hr'.
  set (m1 := round_nearest_even (shr_m mrs') (loc_of_shr_record mrs')) in *.
  pose proof (shr_fexp_nonneg m1 e' loc_Exact ltac:(lia)) as [H2 E2].
  destruct (shr_fexp prec emax m1 e' loc_Exact) as [mrs'' e'']. simpl in H2, E2.
  assert (D0 : Zdigits2 m <= 200) by (apply Zdigits2_le; lia).
  assert (D1 : Zdigits2 m1 <= 201).
  { apply Zdigits2_le; [lia |]. change (2 ^ 201) with (2 * 2 ^ 200). lia. }
  assert (D0' : 0 <= Zdigits2 m) by (destruct m; simpl; lia).
  assert (D1' : 0 <= Zdigits2 m1) by (destruct m1; simpl; lia).
  unfold fexp, SpecFloat.emin in E1, E2. change prec with 53 in *. change emax with 1024 in *.
  destruct (shr_m mrs'') as [|q|q]; [exact I | | lia].
  destruct (Z.leb_spec e'' (1024 - 53)); [exact I | lia].
Qed.

Lemma of_uint63_finite (n : int) :
  match Prim2SF (of_uint63 n) with
  | S754_zero _ | S754_finite _ _ _ => True
  | _ => False
  end.
Proof.
  rewrite of_uint63_spec.
  pose proof (Uint63.to_Z_bounded n) as Hn. change wB with (2 ^ 63) in Hn.
  destruct (to_Z n) as [|p|p]; [exact I | | lia].
  unfold binary_normalize, binary_round, shl_align.
  set (f := fexp prec emax (Z.pos (digits2_pos p) + 0)).
  assert (Hf : -52 <= f).
  { unfold f, fexp. change prec with 53. lia. }
  destruct (f - 0) as [|d|d] eqn:Ed.
  - apply binary_round_aux_finite; [| lia].
    split; [lia |]. assert (2 ^ 63 <= 2 ^ 200) by (apply Z.pow_le_mono_r; lia). lia.
  - apply binary_round_aux_finite; [| lia].
    split; [lia |]. assert (2 ^ 63 <= 2 ^ 200) by (apply Z.pow_le_mono_r; lia). lia.
  - apply binary_round_aux_finite; [| lia].
    change (PosDef.Pos.iter xO p d) with (Zpower.shift_pos d p).
    rewrite Zpower.shift_pos_correct. change (Zpower_pos 2 d) with (2 ^ Z.pos d).
    assert (Hd : Z.pos d <= 52) by lia.
    assert (0 < 2 ^ Z.pos d) by (apply Z.pow_pos_nonneg; lia).
    assert (2 ^ Z.pos d <= 2 ^ 52) by (apply Z.pow_le_mono_r; lia).
    split; [lia |].
    assert (2 ^ 52 * 2 ^ 63 <= 2 ^ 200).
    { rewrite <- Z.pow_add_r by lia. apply Z.pow_le_mono_r; lia. }
    nia.
Qed.

(** A power of ten is a positive number or [+infinity]. *)
Lemma pow10_small :
  forallb (fun k => match Prim2SF (Ref.pow10 k) with
                    | S754_finite false _ _ | S754_infinity false => true
                    | _ => false
                    end) (seq 0 309) = true.
Proof. vm_compute. reflexivity. Qed.

Lemma pow10_large (k : nat) : Ref.pow10 (309 + k) = infinity.
Proof.
  induction k as [|k IH].
  - vm_compute. reflexivity.
  - replace (309 + S k)%nat with (S (309 + k)) by lia.
    change (Ref.pow10 (S (309 + k))) with (Ref.pow10 (309 + k) * 10)%float.
    rewrite IH. vm_compute. reflexivity.
Qed.

Lemma pow10_positive (k : nat) :
  match Prim2SF (Ref.pow10 k) with
  | S754_finite false _ _ | S754_infinity false => true
  | _ => false
  end = true.
Proof.
  destruct (Nat.lt_ge_cases k 309) as [H|H].
  - pose proof pow10_small as Hs. rewrite forallb_forall in Hs.
    apply (Hs k). apply in_seq. lia.
  - replace k with (309 + (k - 309))%nat by lia. rewrite pow10_large. reflexivity.
Qed.

Lemma div_pow10_number (n : int) (k : nat) :
  PrimFloat.is_nan (of_uint63 n / Ref.pow10 k) = false.
Proof.
  apply is_nan_number. rewrite FloatAxioms.div_spec.
  pose proof (of_uint63_finite n) as Hx. pose proof (pow10_positive k) as Hy.
  unfold SF64div, SFdiv.
  destruct (Prim2SF (of_uint63 n)) as [sx|sx| |sx mx ex]; try destruct Hx;
    destruct (Prim2SF (Ref.pow10 k)) as [sy|[]| |[] my ey]; try discriminate.
  unfold SFdiv_core_binary.
  set (m' := match _ with 0 => Z.pos mx | Z.pos _ => _ | Z.neg _ => 0 end).
  assert (Hm' : 0 <= m').
  { unfold m'. destruct (_ - _ - _) as [|s|s]; try lia. apply Z.shiftl_nonneg. lia. }
  pose proof (Z.div_pos m' (Z.pos my) Hm' ltac:(lia)) as Hq. unfold Z.div in Hq.
  destruct (Z.div_eucl m' (Z.pos my)) as [q r]. simpl in Hq.
  now apply binary_round_aux_number.
Qed.

Lemma of_uint63_number (n : int) : PrimFloat.is_nan (of_uint63 n) = false.
Proof.
  apply is_nan_number. pose proof (of_uint63_finite n) as H.
  destruct (Prim2SF (of_uint63 n)); try discriminate. destruct H.
Qed.

Lemma opp_number (x : float) : PrimFloat.is_nan x = false -> PrimFloat.is_nan (- x) = false.
Proof.
  intros H. apply is_nan_number. rewrite FloatAxioms.opp_spec.
  destruct (Prim2SF x) eqn:E; try discriminate.
  exfalso. unfold PrimFloat.is_nan in H. rewrite FloatAxioms.eqb_spec, E in H. discriminate.
Qed.

End FloatNumbers.

Lemma orZero_not_neg_zero (x : float) : orZero x <> neg_zero.
Proof.
  unfold orZero. destruct (PrimFloat.is_nan x); simpl.
  - apply Binary64.zero_not_neg_zero.
  - destruct (PrimFloat.is_zero x) eqn:Z.
    + apply Binary64.zero_not_neg_zero.
    + intros ->. vm_compute in Z. discriminate.
Qed.

(** A sum in which some terms are replaced by 0 is the sum of the others. *)
Lemma fold_add_where {A : Type} (skip : A -> bool) (g : A -> float) (l : list A) (acc : float) :
  (forall x, g x <> neg_zero) -> acc <> neg_zero ->
  fold_left (fun a x => (a + (if skip x then 0 else g x))%float) l acc
  = fold_left PrimFloat.add (List.map g (List.filter (fun x => negb (skip x)) l)) acc.
Proof.
  intros Hg. revert acc.
  induction l as [|x l IH]; intros acc Hacc; simpl; [reflexivity |].
  destruct (skip x); simpl.
  - rewrite Binary64.add_zero_r by assumption. apply IH, Hacc.
  - apply IH. apply Binary64.add_not_neg_zero; [assumption | apply Hg].
Qed.

Lemma reduce_add_where {A : Type} (skip : A -> bool) (g : A -> float) (l : list A) :
  (forall x, g x <> neg_zero) ->
  reduce_add (fun x => if skip x then 0%float else g x) l
  = Spec.sum (List.map g (List.filter (fun x => negb (skip x)) l)).
Proof.
  intros Hg. apply fold_add_where; [exact Hg | apply Binary64.zero_not_neg_zero].
Qed.

(** ** Dashboard *)

Section DashboardProperties.
Context `{B : Builtins} `{!LocalDay B}.

Lemma numberOrZero_missing : Spec.numberOrZero VUndefined = 0%float.
Proof. reflexivity. Qed.

Lemma numberOrZero_orZero (v : jsval) : orZero (parseFloat v) = Spec.numberOrZero v.
Proof.
  unfold orZero, Spec.numberOrZero.
  destruct (PrimFloat.is_nan (parseFloat v)), (PrimFloat.is_zero (parseFloat v)); reflexivity.
Qed.

(** Comparing the policy date itself with local midnight of today is
    comparing the two dates with their time of day stripped. *)
Lemma before_today_dateOnly (v now : Z) :
  (v < setHours_0 now)%Z <-> (Spec.dateOnly v < Spec.dateOnly now)%Z.
Proof.
  unfold Spec.dateOnly. split; intros H.
  - pose proof (setHours_0_le v). lia.
  - destruct (Z.lt_ge_cases v (setHours_0 now)) as [|Hge]; [assumption |].
    apply setHours_0_mono in Hge. rewrite setHours_0_idem in Hge. lia.
Qed.

Lemma isOverdue_spec (now : Z) (p : Policy.t) :
  Dashboard.isOverdue now p = true <-> Spec.overdue now p.
Proof.
  unfold Dashboard.isOverdue, Spec.overdue.
  destruct (truthy (Policy.validUntil p)) eqn:T.
  - apply truthy_Some in T as (s & Hs & Hne). rewrite Hs. simpl.
    destruct (Date_parse s) as [v|] eqn:D; simpl.
    + rewrite Z.ltb_lt, before_today_dateOnly. split.
      * intros H. exists s, v. auto.
      * intros (s' & v' & [= <-] & _ & Hv & H). rewrite D in Hv. now injection Hv as <-.
    + split; [discriminate |].
      intros (s' & v' & [= <-] & _ & Hv & _). rewrite D in Hv. discriminate.
  - split; [discriminate |].
    intros (s & v & Hs & Hne & _).
    assert (truthy (Policy.validUntil p) = true) by (apply truthy_Some; eauto).
    congruence.
Qed.

(** C1. For every list of policies the dashboard summary has
    [totalPolicies] equal to the length of the list, [totalPolicyValue] and
    [totalCommission] equal to the sums of the two amounts parsed as numbers
    (0 for a missing or non-numeric value), the two paid counts equal to the
    number of policies whose flag is true, and [overduePolicies] equal to
    the number of policies whose [validUntil] is present and, both dates
    stripped of their time of day, earlier than today; the empty list gives
    zeros. The summary is a total function: no input makes it throw. (The
    code strips the time of day of today only; by the calendar laws of
    [LocalDay] that is the same comparison.) *)
Theorem dashboard_summary (now : Z) (P : list Policy.t) :
  let d := Dashboard.render now P in
  Dashboard.totalPolicies d = length P
  /\ Dashboard.totalPolicyValue d
     = Spec.sum (List.map (fun p => Spec.numberOrZero (Policy.totalAmount p)) P)
  /\ Dashboard.totalCommission d
     = Spec.sum (List.map (fun p => Spec.numberOrZero (Policy.commission p)) P)
  /\ Spec.counts (fun p => Policy.paidByCustomer p = true) P (Dashboard.policiesPaidByCustomer d)
  /\ Spec.counts (fun p => Policy.paidToInsurer p = true) P (Dashboard.policiesPaidToInsurer d)
  /\ Spec.counts (Spec.overdue now) P (Dashboard.overduePolicies d)
  /\ Dashboard.render now []
     = {| Dashboard.totalPolicies := 0; Dashboard.totalPolicyValue := 0%float;
          Dashboard.totalCommission := 0%float; Dashboard.policiesPaidByCustomer := 0;
          Dashboard.policiesPaidToInsurer := 0; Dashboard.overduePolicies := 0 |}.
Proof.
  simpl. repeat split.
  - rewrite reduce_add_sum. f_equal. apply map_ext. intros p. apply numberOrZero_orZero.
  - rewrite reduce_add_sum. f_equal. apply map_ext. intros p. apply numberOrZero_orZero.
  - apply counts_filter. reflexivity.
  - apply counts_filter. reflexivity.
  - apply counts_filter. intros p. apply isOverdue_spec.
Qed.

End DashboardProperties.

(** The reference calendar (UTC days) satisfies the calendar laws. *)
Lemma refLocalDay : LocalDay refBuiltins.
Proof.
  assert (HD : (0 < Ref.msPerDay)%Z) by reflexivity.
  split; simpl; unfold Ref.setHours_0; intros.
  - pose proof (Z.mod_pos_bound t _ HD). lia.
  - pose proof (Z.div_le_mono s t _ HD H).
    rewrite (Z.mod_eq s), (Z.mod_eq t) by lia. nia.
  - rewrite (Z.mod_eq t) by lia.
    replace (t - (t - Ref.msPerDay * (t / Ref.msPerDay)))%Z
      with (t / Ref.msPerDay * Ref.msPerDay)%Z by lia.
    rewrite Z.mod_mul by lia. lia.
Qed.

Lemma dashboard_summary_witness :
  LocalDay refBuiltins
  /\ Spec.counts (Spec.overdue (B := refBuiltins) Sample.now) Sample.policies 1
  /\ Spec.sum (List.map (fun p => Spec.numberOrZero (B := refBuiltins) (Policy.commission p))
       Sample.policies) = 10%float.
Proof.
  split; [exact refLocalDay |].
  pose proof (dashboard_summary (B := refBuiltins) (LocalDay0 := refLocalDay)
                Sample.now Sample.policies) as H.
  cbv zeta in H. destruct H as (_ & _ & Hc & _ & _ & Ho & _).
  split; [exact Ho | rewrite <- Hc; reflexivity].
Defined.

(** ** Strings *)

Lemma prefix_app (sub s : string) :
  String.prefix sub s = true <-> exists post, s = (sub ++ post)%string.
Proof.
  revert s. induction sub as [|c sub IH]; intros [|d s]; simpl.
  - split; eauto.
  - split; eauto.
  - split; [discriminate | intros (post & [=])].
  - destruct (ascii_dec c d) as [->|Hne].
    + rewrite IH. split; intros (post & H); exists post; [now rewrite H | now injection H].
    + split; [discriminate | intros (post & [= E _]); congruence].
Qed.

Lemma includes_contains (s sub : string) :
  includes s sub = true <-> Spec.contains s sub.
Proof.
  unfold Spec.contains. induction s as [|c s IH]; cbn [includes].
  - rewrite orb_false_r, prefix_app. split.
    + intros (post & H). exists ""%string, post. exact H.
    + intros (pre & post & H). destruct pre; simpl in H.
      * eauto.
      * discriminate.
  - rewrite orb_true_iff, prefix_app, IH. split.
    + intros [(post & H) | (pre & post & H)].
      * exists ""%string, post. exact H.
      * exists (String c pre), post. simpl. now rewrite H.
    + intros (pre & post & H). destruct pre as [|d pre]; simpl in H.
      * left. eauto.
      * right. injection H as _ H. eauto.
Qed.

Lemma string_ltb_asym (s t : string) : String.ltb s t = true -> String.ltb t s = false.
Proof.
  unfold String.ltb. rewrite (String.compare_antisym t s).
  destruct (String.compare s t); simpl; congruence.
Qed.

Lemma string_compare_trans (s t u : string) :
  String.compare s t = Lt -> String.compare t u = Lt -> String.compare s u = Lt.
Proof.
  revert t u. induction s as [|a s IH]; intros [|b t] [|c u]; simpl; try congruence.
  unfold Ascii.compare.
  destruct (N.compare_spec (N_of_ascii a) (N_of_ascii b)) as [Eab | Lab | Gab];
    try discriminate;
    destruct (N.compare_spec (N_of_ascii b) (N_of_ascii c)) as [Ebc | Lbc | Gbc];
    try discriminate; intros Hst Htu.
  - rewrite Eab, Ebc, N.compare_refl. eauto.
  - rewrite Eab. now apply N.compare_lt_iff in Lbc as ->.
  - rewrite <- Ebc. now apply N.compare_lt_iff in Lab as ->.
  - assert (H : (N_of_ascii a < N_of_ascii c)%N) by lia.
    now apply N.compare_lt_iff in H as ->.
Qed.

Lemma string_ltb_trans (s t u : string) :
  String.ltb s t = true -> String.ltb t u = true -> String.ltb s u = true.
Proof.
  unfold String.ltb. intros Hst Htu.
  destruct (String.compare s t) eqn:Est; try discriminate.
  destruct (String.compare t u) eqn:Etu; try discriminate.
  now rewrite (string_compare_trans s t u Est Etu).
Qed.

Lemma string_ltb_total (s t : string) :
  String.ltb s t = false -> String.ltb t s = false -> s = t.
Proof.
  unfold String.ltb. rewrite (String.compare_antisym t s).
  destruct (String.compare s t) eqn:E; simpl; try discriminate.
  intros _ _. now apply String.compare_eq_iff.
Qed.

Lemma time_le_notAfter (a b : option Z) : time_le a b = true <-> Spec.notAfter a b.
Proof.
  unfold Spec.notAfter. destruct a as [x|], b as [y|]; simpl.
  - rewrite Z.leb_le. split.
    + intros H. exists x, y. auto.
    + intros (x' & y' & [= <-] & [= <-] & H). exact H.
  - split; [discriminate | intros (x' & y' & _ & [=] & _)].
  - split; [discriminate | intros (x' & y' & [=] & _)].
  - split; [discriminate | intros (x' & y' & [=] & _)].
Qed.

(** ** The filter of ViewPolicies *)

Section FilterProperties.
Context `{B : Builtins}.

Lemma includesLower_spec (o : option string) (f : string) :
  ViewPolicies.isTrue (ViewPolicies.includesLower o f) = true
  <-> exists n, o = Some n /\ Spec.containsCI n f.
Proof.
  unfold Spec.containsCI. destruct o as [n|]; simpl.
  - rewrite includes_contains. split.
    + intros H. exists n. auto.
    + intros (n' & [= <-] & H). exact H.
  - split; [discriminate | intros (n & [=] & _)].
Qed.

Lemma matchesCustomerName_spec (f : ViewPolicies.Filters) (p : Policy.t) :
  ViewPolicies.matchesCustomerName f p = true
  <-> ViewPolicies.filterCustomerName f = ""
      \/ exists c n, Policy.customer p = Some c
           /\ (Customer.firstName c = Some n \/ Customer.lastName c = Some n)
           /\ Spec.containsCI n (ViewPolicies.filterCustomerName f).
Proof.
  unfold ViewPolicies.matchesCustomerName.
  rewrite !orb_true_iff, String.eqb_eq, !includesLower_spec.
  destruct (Policy.customer p) as [c|]; simpl; split.
  - intros [H | [(n & Hn & Hc) | (n & Hn & Hc)]]; [now left | right; exists c, n; auto ..].
  - intros [H | (c' & n & [= <-] & [Hn | Hn] & Hc)]; [now left | right; eauto ..].
  - intros [H | [(n & [=] & _) | (n & [=] & _)]]. now left.
  - intros [H | (c' & n & [=] & _)]. now left.
Qed.

Lemma matchesValidUntilDate_spec (f : ViewPolicies.Filters) (p : Policy.t) :
  ViewPolicies.matchesValidUntilDate f p = true
  <-> forall s, Spec.validUntilIs p s ->
        (ViewPolicies.filterValidUntilStartDate f <> "" ->
           Spec.notAfter (Spec.startOfDay (ViewPolicies.filterValidUntilStartDate f)) (Date_parse s))
        /\ (ViewPolicies.filterValidUntilEndDate f <> "" ->
           Spec.notAfter (Date_parse s) (Spec.endOfDay (ViewPolicies.filterValidUntilEndDate f))).
Proof.
  unfold ViewPolicies.matchesValidUntilDate, Spec.validUntilIs, Spec.startOfDay, Spec.endOfDay.
  destruct (truthy (Policy.validUntil p)) eqn:T.
  - apply truthy_Some in T as (s & Hs & Hne). rewrite Hs. simpl.
    rewrite !andb_true_r.
    destruct (String.eqb_spec (ViewPolicies.filterValidUntilStartDate f) "") as [Es|Es],
             (String.eqb_spec (ViewPolicies.filterValidUntilEndDate f) "") as [Ee|Ee]; simpl.
    + split; [| reflexivity]. intros _ s' _. split; intros; contradiction.
    + rewrite time_le_notAfter. split.
      * intros H s' ([= <-] & _). split; [intros; contradiction | auto].
      * intros H. now apply (H s).
    + unfold time_ge. rewrite time_le_notAfter. split.
      * intros H s' ([= <-] & _). split; [auto | intros; contradiction].
      * intros H. now apply (H s).
    + unfold time_ge. rewrite andb_true_iff, !time_le_notAfter. split.
      * intros [H1 H2] s' ([= <-] & _). auto.
      * intros H. destruct (H s) as [H1 H2]; auto.
  - rewrite !andb_false_r. split; [| reflexivity].
    intros _ s (Hs & Hne).
    assert (truthy (Policy.validUntil p) = true) by (apply truthy_Some; eauto).
    congruence.
Qed.

(** The callback of the filter returns true exactly when the six conditions
    hold. *)
Lemma filterPredicate_passes (f : ViewPolicies.Filters) (p : Policy.t) :
  ViewPolicies.filterPredicate f p = true <-> Spec.passes f p.
Proof.
  unfold ViewPolicies.filterPredicate, Spec.passes.
  rewrite !andb_true_iff, matchesCustomerName_spec, matchesValidUntilDate_spec.
  unfold ViewPolicies.matchesPolicyType, ViewPolicies.matchesPolicyNumber,
    ViewPolicies.matchesPaidByCustomer, ViewPolicies.matchesPaidToInsurer.
  rewrite !orb_true_iff, !String.eqb_eq, !includes_contains, !Bool.eqb_true_iff.
  unfold Spec.containsCI. tauto.
Qed.

End FilterProperties.

(** ** Financial report *)

Lemma filter_selects {A : Type} (Q : A -> Prop) (f : A -> bool) (l : list A) :
  (forall x, f x = true <-> Q x) -> Spec.selects Q l (List.filter f l).
Proof.
  intros Hf. induction l as [|x l IH]; simpl.
  - constructor.
  - destruct (f x) eqn:E.
    + apply Spec.selects_keep; [apply Hf, E | exact IH].
    + apply Spec.selects_drop; [rewrite <- Hf, E; discriminate | exact IH].
Qed.

Lemma selects_all {A : Type} (Q : A -> Prop) (l : list A) :
  (forall x, Q x) -> Spec.selects Q l l.
Proof. intros H. induction l; constructor; auto. Qed.

Lemma selects_functional {A : Type} (Q : A -> Prop) (l l1 l2 : list A) :
  Spec.selects Q l l1 -> Spec.selects Q l l2 -> l1 = l2.
Proof.
  intros H1. revert l2. induction H1; intros l2 H2; inversion H2; subst;
    try reflexivity; try contradiction; auto using f_equal.
Qed.

Section ReportProperties.
Context `{B : Builtins}.

Lemma inRange_inWindow (startDate endDate : string) (t : option Z) :
  time_ge t (setHours_0 <$> Date_parse startDate)
  && time_le t (setHours_end <$> Date_parse endDate) = true
  <-> Spec.inWindow startDate endDate t.
Proof.
  unfold time_ge, Spec.inWindow. now rewrite andb_true_iff, !time_le_notAfter.
Qed.

Lemma rangeSupplied_true (startDate endDate : string) :
  negb (startDate =? "") && negb (endDate =? "") = true
  <-> Spec.rangeSupplied startDate endDate.
Proof.
  unfold Spec.rangeSupplied.
  now rewrite andb_true_iff, !negb_true_iff, !String.eqb_neq.
Qed.

Lemma applyDateRange_spec (startDate endDate : string)
    (P : list Policy.t) (L : list LedgerEntry.t) :
  let '(fp, fe) := FinancialReports.applyDateRange startDate endDate P L in
  Spec.selects (fun p => Spec.reported startDate endDate (Spec.policyTimestamp p)) P fp
  /\ Spec.selects (fun e => Spec.reported startDate endDate (Spec.entryTimestamp e)) L fe.
Proof.
  unfold FinancialReports.applyDateRange, Spec.reported.
  destruct (negb (startDate =? "") && negb (endDate =? "")) eqn:R.
  - apply rangeSupplied_true in R. split; apply filter_selects.
    + intros p. unfold FinancialReports.policyInRange, Spec.policyTimestamp.
      destruct (Policy.createdAt p) as [ts|]; simpl.
      * rewrite (inRange_inWindow startDate endDate (Some (toDate ts))). tauto.
      * split; [discriminate |]. intros H. destruct (H R) as [(x & y & _ & [=] & _) _].
    + intros e. unfold FinancialReports.itemInRange.
      rewrite (inRange_inWindow startDate endDate).
      replace (FinancialReports.itemDate e) with (Spec.entryTimestamp e); [tauto |].
      unfold FinancialReports.itemDate, Spec.entryTimestamp, newDate.
      destruct (LedgerEntry.createdAt e), (LedgerEntry.date e); reflexivity.
  - assert (~ Spec.rangeSupplied startDate endDate).
    { rewrite <- rangeSupplied_true, R. discriminate. }
    split; apply selects_all; intros; contradiction.
Qed.

(** C3. The report keeps the policies and ledger entries whose timestamp
    (createdAt for a policy; createdAt, else the entry's own date, for a
    ledger entry) lies within [start-of-day(start), end-of-day(end)] when a
    range is supplied, and all of them otherwise. Over the kept policies it
    sums totalAmount into totalIncome and commission into totalCommission;
    over the kept ledger entries of type Expense it sums amount into
    totalExpenses; over the kept policies not paid to the insurer it sums
    commission and totalAmount into commissionNotPaidToInsurer and
    totalUnpaidToInsurer; amountDueToInsurer is the difference of the last
    two. *)
Theorem financial_report (startDate endDate : string)
    (P : list Policy.t) (L : list LedgerEntry.t) :
  let r := FinancialReports.render startDate endDate P L in
  let fp := FinancialReports.filteredPoliciesReport r in
  let fe := FinancialReports.filteredPaymentsExpenses r in
  Spec.selects (fun p => Spec.reported startDate endDate (Spec.policyTimestamp p)) P fp
  /\ Spec.selects (fun e => Spec.reported startDate endDate (Spec.entryTimestamp e)) L fe
  /\ FinancialReports.totalIncome r
     = Spec.sum (List.map (fun p => Spec.numberOrZero (Policy.totalAmount p)) fp)
  /\ FinancialReports.totalCommission r
     = Spec.sum (List.map (fun p => Spec.numberOrZero (Policy.commission p)) fp)
  /\ (exists expenses,
        Spec.selects (fun e => LedgerEntry.type e = "Expense") fe expenses
        /\ FinancialReports.totalExpenses r
           = Spec.sum (List.map (fun e => Spec.numberOrZero (LedgerEntry.amount e)) expenses))
  /\ (exists unpaid,
        Spec.selects (fun p => Policy.paidToInsurer p = false) fp unpaid
        /\ FinancialReports.commissionNotPaidToInsurer r
           = Spec.sum (List.map (fun p => Spec.numberOrZero (Policy.commission p)) unpaid)
        /\ FinancialReports.totalUnpaidToInsurer r
           = Spec.sum (List.map (fun p => Spec.numberOrZero (Policy.totalAmount p)) unpaid))
  /\ FinancialReports.amountDueToInsurer r
     = (FinancialReports.totalUnpaidToInsurer r
        - FinancialReports.commissionNotPaidToInsurer r)%float.
Proof.
  unfold FinancialReports.render.
  pose proof (applyDateRange_spec startDate endDate P L) as H.
  destruct (FinancialReports.applyDateRange startDate endDate P L) as [fp fe].
  destruct H as [Hp He]. cbn -[Spec.sum reduce_add].
  assert (Hnum : forall (A : Type) (g : A -> jsval) (l : list A),
             List.map (fun x => orZero (parseFloat (g x))) l
             = List.map (fun x => Spec.numberOrZero (g x)) l).
  { intros. apply map_ext. intros. apply numberOrZero_orZero. }
  repeat split; try assumption.
  - now rewrite reduce_add_sum, Hnum.
  - now rewrite reduce_add_sum, Hnum.
  - eexists. split.
    + apply filter_selects. intros e. apply String.eqb_eq.
    + now rewrite reduce_add_sum, Hnum.
  - exists (List.filter (fun p => negb (Policy.paidToInsurer p)) fp). repeat split.
    + apply filter_selects. intros p. apply negb_true_iff.
    + rewrite reduce_add_where by (intros; apply orZero_not_neg_zero). now rewrite Hnum.
    + rewrite reduce_add_where by (intros; apply orZero_not_neg_zero). now rewrite Hnum.
Qed.

End ReportProperties.

(** The scenario of the specification: an Expense of 40 dated inside the
    window and a Payment of 60 created outside it give totalExpenses 40 and
    one reported entry. *)
Lemma financial_report_scenario :
  let r :=
    FinancialReports.render (B := refBuiltins) "2024-03-01" "2024-03-31"
      Sample.policies [Sample.e1; Sample.e2] in
  FinancialReports.filteredPaymentsExpenses r = [Sample.e1]
  /\ FinancialReports.totalExpenses r = 40%float
  /\ FinancialReports.filteredPoliciesReport r = [Sample.p2]
  /\ FinancialReports.totalIncome r = 50%float
  /\ FinancialReports.amountDueToInsurer r = 0%float.
Proof. repeat split. Qed.

(** ** Customer Deriver *)

Section DeriverProperties.
Context `{B : Builtins}.

Lemma customerId_Some (p : Policy.t) (k : string) :
  Spec.customerId p = Some k
  <-> exists c, Policy.customer p = Some c /\ Customer.idNumber c = Some k /\ k <> "".
Proof.
  unfold Spec.customerId. destruct (Policy.customer p) as [c|].
  - destruct (Customer.idNumber c) as [k'|] eqn:Hk'.
    + destruct (String.eqb_spec k' "") as [E|E]; split.
      * discriminate.
      * intros (c' & [= <-] & Hk & Hne). congruence.
      * intros [= <-]. eauto.
      * intros (c' & [= <-] & Hk & Hne). congruence.
    + split; [discriminate | intros (c' & [= <-] & Hk & _); congruence].
  - split; [discriminate | intros (c' & [=] & _)].
Qed.

Lemma reducer_skip (m : gmap string CustomerManagement.Row) (p : Policy.t) :
  Spec.customerId p = None -> CustomerManagement.reducer m p = Normal m.
Proof.
  unfold Spec.customerId, CustomerManagement.reducer.
  destruct (Policy.customer p) as [c|]; [| reflexivity].
  destruct (Customer.idNumber c) as [k|]; [| reflexivity]. simpl.
  destruct (k =? ""); [reflexivity | discriminate].
Qed.

Lemma reducer_key (m : gmap string CustomerManagement.Row) (p : Policy.t)
    (c : Customer.t) (k : string) :
  Policy.customer p = Some c -> Customer.idNumber c = Some k -> k <> "" ->
  CustomerManagement.reducer m p
  = match m !! k with
    | Some row => Normal (<[k := CustomerManagement.account row p]> m)
    | None =>
        if bool_decide (k ∈ CustomerManagement.Object_prototype) then Throw "TypeError"
        else Normal (<[k := CustomerManagement.account (CustomerManagement.newRow c k) p]> m)
    end.
Proof.
  intros Hc Hk Hne. unfold CustomerManagement.reducer. rewrite Hc, Hk. simpl.
  apply String.eqb_neq in Hne. rewrite Hne. simpl.
  unfold CustomerManagement.get at 2.
  destruct (m !! k) as [row|] eqn:E.
  - unfold CustomerManagement.get. now rewrite E.
  - destruct (bool_decide (k ∈ CustomerManagement.Object_prototype)) eqn:D.
    + unfold CustomerManagement.get. now rewrite E, D.
    + unfold CustomerManagement.get. rewrite lookup_insert_eq, E, D.
      now rewrite insert_insert_eq.
Qed.

Lemma uniqueCustomers_snoc (P : list Policy.t) (p : Policy.t) :
  CustomerManagement.uniqueCustomers (P ++ [p])
  = bind (CustomerManagement.uniqueCustomers P) (fun m => CustomerManagement.reducer m p).
Proof. unfold CustomerManagement.uniqueCustomers. now rewrite fold_left_app. Qed.

Lemma policiesOf_snoc (k : string) (P : list Policy.t) (p : Policy.t) :
  Spec.policiesOf k (P ++ [p])
  = (Spec.policiesOf k P ++ if bool_decide (Spec.customerId p = Some k) then [p] else [])%list.
Proof. unfold Spec.policiesOf. rewrite List.filter_app. reflexivity. Qed.

Lemma sum_snoc (l : list float) (x : float) :
  Spec.sum (l ++ [x]) = (Spec.sum l + x)%float.
Proof. unfold Spec.sum. now rewrite fold_left_app. Qed.

Lemma rowOf_snoc_other (k : string) (P : list Policy.t) (p : Policy.t) :
  Spec.customerId p <> Some k -> Spec.rowOf k (P ++ [p]) = Spec.rowOf k P.
Proof.
  intros H. unfold Spec.rowOf. rewrite policiesOf_snoc.
  rewrite bool_decide_eq_false_2 by assumption. now rewrite app_nil_r.
Qed.

Lemma rowOf_snoc_same (k : string) (P : list Policy.t) (p : Policy.t) (c : Customer.t) :
  Policy.customer p = Some c -> Spec.customerId p = Some k ->
  Spec.rowOf k (P ++ [p])
  = Some (CustomerManagement.account
            (default (CustomerManagement.newRow c k) (Spec.rowOf k P)) p).
Proof.
  intros Hc Hk. unfold Spec.rowOf. rewrite policiesOf_snoc.
  rewrite bool_decide_eq_true_2 by assumption.
  destruct (Spec.policiesOf k P) as [|first ps] eqn:E; simpl.
  - rewrite Hc. simpl. unfold CustomerManagement.account, CustomerManagement.newRow. simpl.
    now rewrite numberOrZero_orZero.
  - assert (Hin : In first (Spec.policiesOf k P)) by (rewrite E; now left).
    apply filter_In in Hin as [_ Hfirst]. apply bool_decide_eq_true in Hfirst.
    apply customerId_Some in Hfirst as (c0 & Hc0 & _). rewrite Hc0. simpl.
    unfold CustomerManagement.account. simpl.
    rewrite !length_app, !map_app. simpl.
    rewrite app_comm_cons, sum_snoc, numberOrZero_orZero.
    do 2 f_equal. lia.
Qed.

(** When no idNumber is the name of a member of [Object.prototype], the
    derivation returns, and its rows are the rows of the specification. *)
Lemma uniqueCustomers_rows (P : list Policy.t) :
  Spec.ownKeysOnly P ->
  exists m, CustomerManagement.uniqueCustomers P = Normal m
            /\ forall k, m !! k = Spec.rowOf k P.
Proof.
  induction P as [|p P IH] using rev_ind; intros Hown.
  - exists ∅. split; [reflexivity |]. intros k. apply lookup_empty.
  - destruct IH as (m & Hm & Hrows).
    { intros q k Hq. apply Hown, in_or_app. now left. }
    rewrite uniqueCustomers_snoc, Hm. simpl.
    destruct (Spec.customerId p) as [k0|] eqn:Hid.
    + pose proof Hid as Hid'. apply customerId_Some in Hid' as (c & Hc & Hk & Hne).
      rewrite (reducer_key m p c k0 Hc Hk Hne).
      assert (Hnp : bool_decide (k0 ∈ CustomerManagement.Object_prototype) = false).
      { apply bool_decide_eq_false_2. apply (Hown p); [apply in_or_app; right; now left | exact Hid]. }
      rewrite Hnp, Hrows.
      exists (<[k0 := CustomerManagement.account
                        (default (CustomerManagement.newRow c k0) (Spec.rowOf k0 P)) p]> m).
      split.
      { destruct (Spec.rowOf k0 P); reflexivity. }
      intros k. destruct (decide (k = k0)) as [->|Hkk].
      * rewrite (rowOf_snoc_same k0 P p c Hc Hid). now rewrite lookup_insert_eq.
      * rewrite rowOf_snoc_other by congruence.
        rewrite lookup_insert_ne by congruence. apply Hrows.
    + rewrite reducer_skip by assumption. exists m. split; [reflexivity |].
      intros k. rewrite rowOf_snoc_other by congruence. apply Hrows.
Qed.

Lemma rowOf_Some (k : string) (P : list Policy.t) (row : CustomerManagement.Row) :
  Spec.rowOf k P = Some row ->
  CustomerManagement.idNumber row = k
  /\ CustomerManagement.policiesCount row = length (Spec.policiesOf k P)
  /\ CustomerManagement.totalPolicyValue row
     = Spec.sum (List.map (fun p => Spec.numberOrZero (Policy.totalAmount p))
                  (Spec.policiesOf k P))
  /\ exists first rest c,
       Spec.policiesOf k P = first :: rest /\ Policy.customer first = Some c
       /\ CustomerManagement.firstName row = Customer.firstName c
       /\ CustomerManagement.lastName row = Customer.lastName c
       /\ CustomerManagement.phoneNumber row = Customer.phoneNumber c
       /\ CustomerManagement.address row = Customer.address c
       /\ CustomerManagement.city row = Customer.city c
       /\ CustomerManagement.postalCode row = Customer.postalCode c.
Proof.
  unfold Spec.rowOf. destruct (Spec.policiesOf k P) as [|first rest] eqn:E; [discriminate |].
  destruct (Policy.customer first) as [c|] eqn:Hc; [| discriminate].
  simpl. intros [= <-]. simpl. repeat split. exists first, rest, c. auto 10.
Qed.

Lemma rowOf_is_Some (k : string) (P : list Policy.t) :
  is_Some (Spec.rowOf k P) <-> exists p, In p P /\ Spec.customerId p = Some k.
Proof.
  unfold Spec.rowOf. destruct (Spec.policiesOf k P) as [|first rest] eqn:E.
  - split; [intros [? [=]] |]. intros (p & Hp & Hk).
    assert (Hin : In p (Spec.policiesOf k P)).
    { apply filter_In. split; [exact Hp | now apply bool_decide_eq_true]. }
    rewrite E in Hin. destruct Hin.
  - assert (Hin : In first (Spec.policiesOf k P)) by (rewrite E; now left).
    apply filter_In in Hin as [Hin Hfirst]. apply bool_decide_eq_true in Hfirst.
    pose proof Hfirst as Hf. apply customerId_Some in Hf as (c & Hc & _).
    rewrite Hc. simpl. split; [eauto | intros _; eexists; reflexivity].
Qed.

(** The part of C2 that holds: when no idNumber of [P] names a member of
    [Object.prototype], the Customer Deriver returns exactly one row per
    distinct non-empty idNumber of [P], and the row of an idNumber counts the
    policies that carry it, sums their amounts and takes its identity fields
    from the first of them. *)
Lemma customersList_rows (P : list Policy.t) :
  Spec.ownKeysOnly P ->
  exists rows,
    CustomerManagement.customersList P = Normal rows
    /\ NoDup (List.map CustomerManagement.idNumber rows)
    /\ (forall k, In k (List.map CustomerManagement.idNumber rows)
                  <-> exists p, In p P /\ Spec.customerId p = Some k)
    /\ (forall row, In row rows -> Spec.rowOf (CustomerManagement.idNumber row) P = Some row).
Proof.
  intros Hown. destruct (uniqueCustomers_rows P Hown) as (m & Hm & Hrows).
  unfold CustomerManagement.customersList. rewrite Hm. simpl.
  exists ((map_to_list m).*2). split; [reflexivity |].
  assert (Hkeys : List.map CustomerManagement.idNumber ((map_to_list m).*2)
                  = (map_to_list m).*1).
  { change (CustomerManagement.idNumber <$> (map_to_list m).*2 = (map_to_list m).*1).
    rewrite <- list_fmap_compose. apply list_fmap_ext.
    intros i [k row] Hin. simpl. apply list_elem_of_lookup_2, elem_of_map_to_list in Hin.
    rewrite Hrows in Hin. now apply rowOf_Some in Hin as [-> _]. }
  split; [| split].
  - rewrite Hkeys. apply NoDup_fst_map_to_list.
  - intros k. rewrite Hkeys, <- rowOf_is_Some, <- Hrows.
    rewrite <- list_elem_of_In, list_elem_of_fmap. split.
    + intros ([k' row] & -> & Hin). apply elem_of_map_to_list in Hin. simpl. eauto.
    + intros [row Hrow]. exists (k, row). split; [reflexivity |].
      now apply elem_of_map_to_list.
  - intros row Hin. apply list_elem_of_In, list_elem_of_fmap in Hin as ([k row'] & -> & Hin).
    apply elem_of_map_to_list in Hin. rewrite Hrows in Hin. simpl.
    pose proof Hin as Hid. apply rowOf_Some in Hid as [-> _]. exact Hin.
Qed.

(** An idNumber that names a member of [Object.prototype] stops the
    derivation: the callback throws at the first policy that carries it. *)
Lemma uniqueCustomers_throws (P Q : list Policy.t) (p : Policy.t) (k : string) :
  Spec.ownKeysOnly P -> Spec.customerId p = Some k ->
  k ∈ CustomerManagement.Object_prototype ->
  CustomerManagement.uniqueCustomers (P ++ p :: Q) = Throw "TypeError".
Proof.
  intros Hown Hk Hproto.
  destruct (uniqueCustomers_rows P Hown) as (m & Hm & Hrows).
  assert (Hnone : m !! k = None).
  { rewrite Hrows. apply eq_None_not_Some. rewrite rowOf_is_Some.
    intros (q & Hq & Hqk). now apply (Hown q k). }
  unfold CustomerManagement.uniqueCustomers in *.
  rewrite fold_left_app, Hm. simpl.
  apply customerId_Some in Hk as (c & Hc & Hid & Hne).
  rewrite (reducer_key m p c k Hc Hid Hne), Hnone.
  rewrite bool_decide_eq_true_2 by assumption.
  clear. induction Q as [|q Q IH]; simpl; [reflexivity | exact IH].
Qed.

End DeriverProperties.

Lemma sample_ownKeysOnly : Spec.ownKeysOnly Sample.policies.
Proof.
  intros p k Hp Hk. simpl in Hp.
  destruct Hp as [<- | [<- | [<- | []]]]; injection Hk as <-;
    apply (bool_decide_eq_false_1 _); reflexivity.
Qed.

(** C2, at the input where the code departs from the claim: a policy whose
    customer's idNumber is "constructor". [acc["constructor"]] is the
    inherited [Object], so no row is created and the callback throws a
    TypeError, where the claim has one row with policiesCount 1; and the
    derivation throws in the same way when that policy follows others. *)
Theorem uniqueCustomers_constructor `{B : Builtins} :
  Spec.customerId Sample.p4 = Some "constructor"
  /\ CustomerManagement.customersList [Sample.p4] = Throw "TypeError"
  /\ forall later,
       CustomerManagement.customersList (Sample.policies ++ Sample.p4 :: later)
       = Throw "TypeError".
Proof.
  split; [reflexivity |]. split; [reflexivity |].
  intros later. unfold CustomerManagement.customersList.
  rewrite (uniqueCustomers_throws Sample.policies later Sample.p4 "constructor").
  - reflexivity.
  - exact sample_ownKeysOnly.
  - reflexivity.
  - apply (bool_decide_eq_true_1 _). reflexivity.
Qed.

(** The scenario of C2: three policies, two for A1 (100 and 50) and one for
    B2 (30), give the row of A1 with policiesCount 2 and totalPolicyValue 150
    and the row of B2 with policiesCount 1 and totalPolicyValue 30, and no
    other row. *)
Lemma customersList_scenario :
  exists a1 b2,
    CustomerManagement.uniqueCustomers (B := refBuiltins) Sample.policies
    = Normal {[ "A1" := a1; "B2" := b2 ]}
    /\ CustomerManagement.policiesCount a1 = 2
    /\ CustomerManagement.totalPolicyValue a1 = 150%float
    /\ CustomerManagement.firstName a1 = Some "Ana"
    /\ CustomerManagement.policiesCount b2 = 1
    /\ CustomerManagement.totalPolicyValue b2 = 30%float.
Proof.
  do 2 eexists. split.
  - unfold CustomerManagement.uniqueCustomers, Sample.policies. simpl.
    rewrite (reducer_key (B := refBuiltins) ∅ Sample.p1 _ "A1" eq_refl eq_refl) by discriminate.
    rewrite lookup_empty. simpl.
    rewrite (reducer_key (B := refBuiltins) _ Sample.p2 _ "A1" eq_refl eq_refl) by discriminate.
    rewrite lookup_insert_eq. simpl. rewrite insert_insert_eq.
    rewrite (reducer_key (B := refBuiltins) _ Sample.p3 _ "B2" eq_refl eq_refl) by discriminate.
    rewrite lookup_insert_ne, lookup_empty by discriminate. simpl.
    rewrite insert_insert_ne by discriminate.
    rewrite insert_empty. reflexivity.
  - repeat split; reflexivity.
Qed.

(** ** Mutation handlers *)

Section HandlerProperties.
Context `{B : Builtins}.
Variable storeError : StoreRequest -> option string.

Lemma signedIn_guard (env : App.Env) :
  negb (App.db env) || negb (truthy (App.userId env)) = false <-> Spec.signedIn env.
Proof.
  unfold Spec.signedIn.
  rewrite orb_false_iff, !negb_false_iff, truthy_Some. reflexivity.
Qed.

Lemma required_guard (form : PolicyForm.t) :
  App.empty (PolicyForm.policyNumber form) || App.empty (PolicyForm.totalAmount form)
  || App.empty (PolicyForm.policyDate form) || App.empty (PolicyForm.validUntil form)
  || App.empty (PolicyForm.firstName form) || App.empty (PolicyForm.lastName form) = true
  <-> Spec.someRequiredEmpty form.
Proof.
  unfold Spec.someRequiredEmpty, Spec.requiredFields, App.empty. simpl.
  rewrite !orb_true_iff, !String.eqb_eq. intuition auto.
Qed.

Lemma orZero_not_nan (x : float) : PrimFloat.is_nan (orZero x) = false.
Proof.
  unfold orZero. destruct (PrimFloat.is_nan x) eqn:N; [reflexivity |].
  destruct (PrimFloat.is_zero x); [reflexivity | exact N].
Qed.

Lemma numberOrZero_non_numeric (v : jsval) :
  PrimFloat.is_nan (parseFloat v) = true -> Spec.numberOrZero v = 0%float.
Proof. unfold Spec.numberOrZero. now intros ->. Qed.

(** C7. With the database ready and a user signed in, which is when the
    form is on the screen, an input with one of the six required fields
    empty gets the validation error and no create request, and an input with
    all six filled issues exactly one create request, whose totalAmount is
    the input parsed as a float, whose commission is the input parsed as a
    float with 0 as default, and which asks the store for the creation
    timestamp. The guard the handler starts with issues no request
    either. *)
Theorem handleAddPolicy_requests (env : App.Env) (form : PolicyForm.t) :
  let out := fst (App.handleAddPolicy storeError env form) in
  (~ Spec.signedIn env ->
     App.requests out = [] /\ App.modalMessage out = Some Spec.notSignedInError)
  /\ (Spec.signedIn env -> Spec.someRequiredEmpty form ->
        App.requests out = [] /\ App.modalMessage out = Some Spec.validationError)
  /\ (Spec.signedIn env -> Spec.allRequiredFilled form ->
        exists data,
          App.requests out = [addDoc (App.policiesPath env) data]
          /\ PolicyData.totalAmount data = parseFloat (VString (PolicyForm.totalAmount form))
          /\ PolicyData.commission data = Spec.numberOrZero (VString (PolicyForm.commission form))
          /\ PolicyData.createdAt data = Some serverTimestamp).
Proof.
  unfold App.handleAddPolicy, Spec.allRequiredFilled.
  destruct (negb (App.db env) || negb (truthy (App.userId env))) eqn:G.
  - assert (~ Spec.signedIn env) by (rewrite <- signedIn_guard, G; discriminate).
    simpl. repeat split; intros; try contradiction; reflexivity.
  - apply signedIn_guard in G.
    match goal with |- context [if ?c then _ else _] => destruct c eqn:R end.
    + apply required_guard in R. simpl.
      repeat split; intros; try contradiction; reflexivity.
    + assert (~ Spec.someRequiredEmpty form) by (rewrite <- required_guard, R; discriminate).
      split; [intros; contradiction |]. split; [intros; contradiction |].
      intros _ _. eexists. split.
      * destruct (storeError _); reflexivity.
      * cbn [PolicyData.totalAmount PolicyData.commission PolicyData.createdAt].
        rewrite numberOrZero_orZero. auto.
Qed.

Lemma holds_number `{!ReadsNumbers B} (v : jsval) :
  NumberInput.holds v -> PrimFloat.is_nan (parseFloat v) = false.
Proof.
  destruct v as [|x|s]; simpl; [intros [] | | apply parseFloat_number].
  unfold PrimFloat.is_finite. intros H.
  apply negb_true_iff, orb_false_iff in H as [H _].
  destruct (PrimFloat.is_zero x); [reflexivity | exact H].
Qed.

(** C5. The totalAmount that [addPolicy] and [updatePolicy] hand to the
    store is the number [parseFloat] returns for the amount field, and it is
    not NaN for what that field holds when its form is submitted; the
    commission is the number [parseFloat] returns for its field with 0 in
    place of NaN, so it is never NaN, and it is 0 for an absent or
    non-numeric input. *)
Theorem stored_amounts `{!ReadsNumbers B} :
  (forall env form collection data,
     NumberInput.valid (PolicyForm.totalAmount form) = true ->
     In (addDoc collection data) (App.requests (fst (App.handleAddPolicy storeError env form))) ->
     PolicyData.totalAmount data = parseFloat (VString (PolicyForm.totalAmount form))
     /\ PrimFloat.is_nan (PolicyData.totalAmount data) = false
     /\ PolicyData.commission data = Spec.numberOrZero (VString (PolicyForm.commission form))
     /\ PrimFloat.is_nan (PolicyData.commission data) = false)
  /\ (forall env updatedPolicy collection id data,
        NumberInput.holds (Policy.totalAmount updatedPolicy) ->
        In (updateDoc collection id data)
           (App.requests (App.handleUpdatePolicy storeError env updatedPolicy)) ->
        PolicyData.totalAmount data = parseFloat (Policy.totalAmount updatedPolicy)
        /\ PrimFloat.is_nan (PolicyData.totalAmount data) = false
        /\ PolicyData.commission data = Spec.numberOrZero (Policy.commission updatedPolicy)
        /\ PrimFloat.is_nan (PolicyData.commission data) = false)
  /\ (forall v, PrimFloat.is_nan (parseFloat v) = true -> Spec.numberOrZero v = 0%float).
Proof.
  split; [| split].
  - intros env form collection data Hv. unfold App.handleAddPolicy.
    destruct (negb (App.db env) || negb (truthy (App.userId env))); [intros [] |].
    match goal with |- context [if ?c then _ else _] => destruct c end; [intros [] |].
    destruct (storeError _); cbn [In App.requests fst]; intros [[= _ <-] | []];
      cbn [PolicyData.totalAmount PolicyData.commission];
      rewrite <- numberOrZero_orZero;
      (split; [reflexivity |]); (split; [exact (holds_number (VString _) Hv) |]);
      (split; [reflexivity | apply orZero_not_nan]).
  - intros env up collection id data Hv. unfold App.handleUpdatePolicy.
    match goal with |- context [if ?c then _ else _] => destruct c end; [intros [] |].
    destruct (Policy.customer up); [| intros []].
    destruct (storeError _); cbn [In App.requests fst]; intros [[= _ _ <-] | []];
      cbn [PolicyData.totalAmount PolicyData.commission];
      rewrite <- numberOrZero_orZero;
      (split; [reflexivity |]); (split; [exact (holds_number _ Hv) |]);
      (split; [reflexivity | apply orZero_not_nan]).
  - apply numberOrZero_non_numeric.
Qed.

End HandlerProperties.

Lemma handleAddPolicy_requests_witness :
  Spec.signedIn Sample.signedInEnv
  /\ Spec.allRequiredFilled Sample.form
  /\ exists data,
       App.requests (fst (App.handleAddPolicy (B := refBuiltins) Sample.accepts
                            Sample.signedInEnv Sample.form))
       = [addDoc "artifacts/demo/users/u1/policies" data]
       /\ PolicyData.totalAmount data = 120.5%float
       /\ PolicyData.commission data = 0%float.
Proof.
  assert (Hs : Spec.signedIn Sample.signedInEnv).
  { split; [reflexivity |]. exists "u1". split; [reflexivity | discriminate]. }
  assert (Hf : Spec.allRequiredFilled Sample.form).
  { unfold Spec.allRequiredFilled, Spec.requiredFields. simpl. intuition discriminate. }
  split; [exact Hs |]. split; [exact Hf |].
  destruct (handleAddPolicy_requests (B := refBuiltins) Sample.accepts
              Sample.signedInEnv Sample.form) as (_ & _ & H).
  destruct (H Hs Hf) as (data & Hr & Ht & Hc & _).
  exists data. split; [exact Hr |]. split.
  - rewrite Ht. reflexivity.
  - rewrite Hc. reflexivity.
Defined.

(** ** The reference [parseFloat] on the value of a number field *)

Lemma unsigned_literal_number (s : string) (f : float) (r : string) :
  Ref.unsigned_literal s = Some (f, r) -> PrimFloat.is_nan f = false.
Proof.
  unfold Ref.unsigned_literal, Ref.float_of_Z.
  destruct (Ref.digits 0 0 s) as [[ip ni] r0].
  assert (H0 : (if (ni =? 0)%nat then None else Some (of_uint63 (of_Z ip), r0)) = Some (f, r) ->
               PrimFloat.is_nan f = false).
  { destruct (ni =? 0)%nat; [discriminate |]. intros [= <- _]. apply FloatNumbers.of_uint63_number. }
  destruct r0 as [|c r']; [exact H0 |].
  destruct c as [[] [] [] [] [] [] [] []]; try exact H0.
  destruct (Ref.digits ip 0 r') as [[m nf] r''].
  destruct ((ni =? 0)%nat && (nf =? 0)%nat); [discriminate |].
  intros [= <- _]. apply FloatNumbers.div_pow10_number.
Qed.

Lemma signed_literal_number (s : string) (f : float) (r : string) :
  Ref.signed_literal s = Some (f, r) -> PrimFloat.is_nan f = false.
Proof.
  assert (Hneg : forall s', match Ref.unsigned_literal s' with
                            | Some (f0, r0) => Some ((- f0)%float, r0)
                            | None => None
                            end = Some (f, r) -> PrimFloat.is_nan f = false).
  { intros s'. destruct (Ref.unsigned_literal s') as [[f0 r0]|] eqn:E; [| discriminate].
    intros [= <- _]. apply FloatNumbers.opp_number. eapply unsigned_literal_number, E. }
  unfold Ref.signed_literal. destruct s as [|c s']; [apply unsigned_literal_number |].
  destruct c as [[] [] [] [] [] [] [] []];
    first [apply unsigned_literal_number | apply Hneg].
Qed.

Lemma digits_prefix (acc : Z) (n : nat) (s : string) :
  exists v, Ref.digits acc n s
            = (v, (n + fst (NumberInput.digitsPrefix s))%nat, snd (NumberInput.digitsPrefix s)).
Proof.
  revert acc n. induction s as [|c s IH]; intros acc n; simpl.
  - exists acc. now rewrite Nat.add_0_r.
  - unfold Ref.digit, NumberInput.isDigit.
    destruct ((48 <=? nat_of_ascii c)%nat && (nat_of_ascii c <=? 57)%nat).
    + destruct (IH (acc * 10 + Z.of_nat (nat_of_ascii c - 48))%Z (S n)) as [v E].
      exists v. rewrite E. destruct (NumberInput.digitsPrefix s) as [k r]. simpl.
      now rewrite Nat.add_succ_r.
    + exists acc. simpl. now rewrite Nat.add_0_r.
Qed.

Lemma unsigned_literal_valid (u : string) :
  (let '(ni, r) := NumberInput.digitsPrefix u in
   match r with
   | String "."%char r' =>
       let '(nf, r'') := NumberInput.digitsPrefix r' in
       (0 <? nf)%nat && NumberInput.exponentPart r''
   | _ => (0 <? ni)%nat && NumberInput.exponentPart r
   end) = true ->
  exists f r, Ref.unsigned_literal u = Some (f, r).
Proof.
  unfold Ref.unsigned_literal.
  destruct (digits_prefix 0 0 u) as [ip ->].
  destruct (NumberInput.digitsPrefix u) as [ni r]. simpl fst. simpl snd. simpl Nat.add.
  assert (H0 : (0 <? ni)%nat && NumberInput.exponentPart r = true ->
               exists f r1, (if (ni =? 0)%nat then None
                             else Some (Ref.float_of_Z ip, r)) = Some (f, r1)).
  { intros H. apply andb_true_iff in H as [H _]. apply Nat.ltb_lt in H.
    destruct (Nat.eqb_spec ni 0); [lia | eauto]. }
  destruct r as [|c r']; [exact H0 |].
  destruct c as [[] [] [] [] [] [] [] []]; try exact H0.
  destruct (digits_prefix ip 0 r') as [m ->].
  destruct (NumberInput.digitsPrefix r') as [nf r'']. simpl fst. simpl snd. simpl Nat.add.
  intros H. apply andb_true_iff in H as [H _]. apply Nat.ltb_lt in H.
  destruct (Nat.eqb_spec nf 0); [lia |]. rewrite andb_false_r. eauto.
Qed.

Lemma valid_parse (s : string) :
  NumberInput.valid s = true -> exists f r, Ref.signed_literal (Ref.skip_spaces s) = Some (f, r).
Proof.
  destruct s as [|c s']; [discriminate |].
  destruct c as [[] [] [] [] [] [] [] []]; intros H;
    try (simpl in H; discriminate H);
    match goal with
    | |- exists f r, Ref.signed_literal (Ref.skip_spaces ?s) = _ =>
        first
          [ replace (Ref.signed_literal (Ref.skip_spaces s)) with (Ref.unsigned_literal s)
              by reflexivity;
            apply unsigned_literal_valid; exact H
          | replace (Ref.signed_literal (Ref.skip_spaces s))
              with (match Ref.unsigned_literal s' with
                    | Some (f0, r0) => Some ((- f0)%float, r0)
                    | None => None
                    end) by reflexivity;
            destruct (unsigned_literal_valid s' H) as (f & r & ->); eauto ]
    end.
Qed.

Lemma refReadsNumbers : ReadsNumbers refBuiltins.
Proof.
  constructor. intros s Hv. simpl. unfold Ref.parseFloat_string.
  destruct (valid_parse s Hv) as (f & r & E). rewrite E.
  eapply signed_literal_number, E.
Qed.

Lemma stored_amounts_witness :
  NumberInput.valid (PolicyForm.totalAmount Sample.form) = true
  /\ NumberInput.holds (Policy.totalAmount Sample.p1)
  /\ (exists data,
        In (addDoc "artifacts/demo/users/u1/policies" data)
           (App.requests (fst (App.handleAddPolicy (B := refBuiltins) Sample.accepts
                                 Sample.signedInEnv Sample.form)))
        /\ PolicyData.totalAmount data = 120.5%float
        /\ PrimFloat.is_nan (PolicyData.totalAmount data) = false
        /\ PolicyData.commission data = 0%float)
  /\ (exists data,
        In (updateDoc "artifacts/demo/users/u1/policies" "p1" data)
           (App.requests (App.handleUpdatePolicy (B := refBuiltins) Sample.accepts
                            Sample.signedInEnv Sample.p1))
        /\ PolicyData.totalAmount data = 100%float
        /\ PrimFloat.is_nan (PolicyData.totalAmount data) = false
        /\ PolicyData.commission data = 10%float).
Proof.
  assert (Hv : NumberInput.valid (PolicyForm.totalAmount Sample.form) = true) by reflexivity.
  assert (Hh : NumberInput.holds (Policy.totalAmount Sample.p1)) by reflexivity.
  destruct (@stored_amounts refBuiltins Sample.accepts refReadsNumbers) as (Hadd & Hupd & _).
  split; [exact Hv |]. split; [exact Hh |]. split.
  - eexists. split; [left; reflexivity |].
    destruct (Hadd Sample.signedInEnv Sample.form _ _ Hv (or_introl eq_refl))
      as (Ht & Hn & Hc & _).
    split; [| split]; [rewrite Ht | exact Hn | rewrite Hc]; reflexivity.
  - eexists. split; [left; reflexivity |].
    destruct (Hupd Sample.signedInEnv Sample.p1 _ _ _ Hh (or_introl eq_refl))
      as (Ht & Hn & Hc & _).
    split; [| split]; [rewrite Ht | exact Hn | rewrite Hc]; reflexivity.
Defined.

(** ** Cascade delete *)

Lemma append_inv_head (s a b : string) : (s ++ a)%string = (s ++ b)%string -> a = b.
Proof. induction s as [|c s IH]; simpl; [auto | intros [= H]; auto]. Qed.

Lemma paths_differ (env : App.Env) : App.paymentsExpensesPath env <> App.policiesPath env.
Proof.
  unfold App.paymentsExpensesPath, App.policiesPath. intros H.
  apply append_inv_head in H. discriminate.
Qed.

Section DeleteProperties.
Context `{B : Builtins}.
Variable storeError : StoreRequest -> option string.
Variable env : App.Env.

Lemma execute_policy_delete (st : Store.t) (id : string) :
  storeError (deleteDoc (App.policiesPath env) id) = None ->
  App.execute storeError env st (deleteDoc (App.policiesPath env) id)
  = {| Store.policies := List.filter (fun p => negb (Policy.id p =? id)) (Store.policies st);
       Store.payments_expenses := Store.payments_expenses st |}.
Proof. intros H. unfold App.execute. now rewrite H, String.eqb_refl. Qed.

Lemma execute_ledger_delete (st : Store.t) (id : string) :
  App.execute storeError env st (App.ledgerDelete env id)
  = match storeError (App.ledgerDelete env id) with
    | None =>
        {| Store.policies := Store.policies st;
           Store.payments_expenses :=
             List.filter (fun e => negb (LedgerEntry.id e =? id)) (Store.payments_expenses st) |}
    | Some _ => st
    end.
Proof.
  unfold App.execute, App.ledgerDelete. destruct (storeError _); [reflexivity |].
  rewrite (proj2 (String.eqb_neq _ _) (paths_differ env)). now rewrite String.eqb_refl.
Qed.

(** The ledger after a batch of deletions: the entries whose id is none of
    the ids the store accepted to delete. *)
Lemma executeAll_ledger_deletes (ids : list string) (st : Store.t) :
  let st' := App.executeAll storeError env st (List.map (App.ledgerDelete env) ids) in
  Store.policies st' = Store.policies st
  /\ Store.payments_expenses st'
     = List.filter
         (fun e => negb (existsb (fun id => bool_decide (storeError (App.ledgerDelete env id) = None)
                                           && (LedgerEntry.id e =? id)) ids))
         (Store.payments_expenses st).
Proof.
  unfold App.executeAll. revert st. induction ids as [|id ids IH]; intros st; simpl.
  - split; [reflexivity |]. induction (Store.payments_expenses st) as [|e l IHl]; simpl; congruence.
  - destruct (IH (App.execute storeError env st (App.ledgerDelete env id))) as [Hp Hl].
    rewrite Hp, Hl, execute_ledger_delete. clear IH Hp Hl.
    destruct (storeError (App.ledgerDelete env id)) eqn:E; simpl; (split; [reflexivity |]).
    + apply filter_ext. intros e. reflexivity.
    + induction (Store.payments_expenses st) as [|e l IHl]; simpl; [reflexivity |].
      destruct (LedgerEntry.id e =? id); simpl; [exact IHl |].
      destruct (existsb _ ids); simpl; congruence.
Qed.

Lemma related_ids (L : list LedgerEntry.t) (policyId : string) (e : LedgerEntry.t) :
  NoDup (List.map LedgerEntry.id L) -> In e L ->
  In (LedgerEntry.id e)
     (List.map LedgerEntry.id
        (List.filter (fun item => bool_decide (LedgerEntry.policyId item = Some policyId)) L))
  <-> LedgerEntry.policyId e = Some policyId.
Proof.
  intros Hnd He. rewrite in_map_iff. split.
  - intros (e' & Hid & Hin). apply filter_In in Hin as [Hin Hrel].
    apply bool_decide_eq_true in Hrel.
    replace e with e'; [exact Hrel |].
    clear Hrel. induction L as [|x L IH]; [destruct He |].
    simpl in Hnd. apply NoDup_cons in Hnd as [Hx Hnd].
    destruct He as [-> | He], Hin as [-> | Hin]; auto.
    + exfalso. apply Hx. rewrite <- Hid. apply list_elem_of_In, List.in_map, Hin.
    + exfalso. apply Hx. rewrite Hid. apply list_elem_of_In, List.in_map, He.
  - intros Hrel. exists e. split; [reflexivity |].
    apply filter_In. split; [exact He | now apply bool_decide_eq_true].
Qed.

(** C6. A confirmed deletePolicy whose delete calls the store accepts
    leaves the policies collection without the policy of that id and the
    ledger without the entries whose policyId is that id, every other
    policy and every entry with a different or null policyId staying as it
    was; those stay as they were also when the store rejects some of the
    calls; and when the user does not confirm, no delete call is issued. *)
Theorem handleDeletePolicy_cascade (st : Store.t) (answer : string -> bool)
    (policyId policyNumber : string) :
  NoDup (List.map LedgerEntry.id (Store.payments_expenses st)) ->
  let out :=
    App.handleDeletePolicy storeError env (Store.payments_expenses st) answer
      policyId policyNumber in
  let st' := App.executeAll storeError env st (App.requests out) in
  (forall prompt,
     App.confirmPrompt out = Some prompt -> answer prompt = true ->
     (forall r, In r (App.requests out) -> storeError r = None) ->
     Spec.selects (fun p => Policy.id p <> policyId) (Store.policies st) (Store.policies st')
     /\ Spec.selects (fun e => LedgerEntry.policyId e <> Some policyId)
          (Store.payments_expenses st) (Store.payments_expenses st'))
  /\ ((forall prompt, App.confirmPrompt out = Some prompt -> answer prompt = false) ->
      App.requests out = [] /\ st' = st)
  /\ (forall p, In p (Store.policies st) -> Policy.id p <> policyId ->
                In p (Store.policies st'))
  /\ (forall e, In e (Store.payments_expenses st) ->
                LedgerEntry.policyId e <> Some policyId ->
                In e (Store.payments_expenses st')).
Proof.
  intros Hnd. unfold App.handleDeletePolicy.
  destruct (negb (App.db env) || negb (truthy (App.userId env))).
  { simpl. repeat split; auto; discriminate. }
  match goal with |- context [answer ?s] => set (msg := s) end.
  destruct (answer msg) eqn:Ans.
  2:{ simpl. repeat split; auto; match goal with H : Some _ = Some _ |- _ => injection H as <- end; congruence. }
  set (first := deleteDoc (App.policiesPath env) policyId).
  destruct (storeError first) eqn:Efirst.
  { cbn [App.requests App.confirmPrompt App.executeAll fold_left].
    assert (Hst : App.execute storeError env st first = st).
    { unfold App.execute. now rewrite Efirst. }
    rewrite Hst. split; [| split; [| split]]; auto.
    - intros q _ _ Hacc. rewrite (Hacc first) in Efirst; [discriminate | now left].
    - intros Hno. specialize (Hno msg eq_refl). congruence. }
  cbn [App.requests App.confirmPrompt App.executeAll fold_left].
  unfold first in *. rewrite execute_policy_delete by exact Efirst.
  rewrite <- (List.map_map LedgerEntry.id (fun id => deleteDoc (App.paymentsExpensesPath env) id)).
  match goal with |- context [fold_left _ (List.map _ ?l) ?s] =>
    destruct (executeAll_ledger_deletes l s) as [Hp Hl] end.
  unfold App.executeAll, App.ledgerDelete in Hp, Hl. rewrite Hp, Hl. clear Hp Hl.
  cbn [Store.policies Store.payments_expenses].
  split; [| split; [| split]].
  - intros q [= <-] _ Hacc. split.
    + apply filter_selects. intros p. rewrite negb_true_iff. apply String.eqb_neq.
    + rewrite (filter_ext_in _
        (fun e => negb (bool_decide (LedgerEntry.policyId e = Some policyId)))).
      * apply filter_selects. intros e.
        now rewrite negb_true_iff, bool_decide_eq_false.
      * intros e He. f_equal.
        destruct (decide (LedgerEntry.policyId e = Some policyId)) as [Hrel|Hrel].
        -- rewrite (bool_decide_eq_true_2 _ Hrel).
           apply existsb_exists. exists (LedgerEntry.id e).
           split; [now apply related_ids |].
           rewrite String.eqb_refl, andb_true_r. apply bool_decide_eq_true.
           apply Hacc. right.
           apply (List.in_map (fun id => deleteDoc (App.paymentsExpensesPath env) id)).
           now apply related_ids.
        -- rewrite (bool_decide_eq_false_2 _ Hrel).
           apply not_true_iff_false. rewrite existsb_exists.
           intros (id & Hid & Heq). apply andb_true_iff in Heq as [_ Heq].
           apply String.eqb_eq in Heq. subst id.
           now apply related_ids in Hid.
  - intros Hno. specialize (Hno msg eq_refl). congruence.
  - intros p Hp Hne. apply filter_In. split; [exact Hp |].
    now rewrite negb_true_iff, String.eqb_neq.
  - intros e He Hrel. apply filter_In. split; [exact He |].
    rewrite negb_true_iff. apply not_true_iff_false. rewrite existsb_exists.
    intros (id & Hid & Heq). apply andb_true_iff in Heq as [_ Heq].
    apply String.eqb_eq in Heq. subst id.
    now apply related_ids in Hid.
Qed.

End DeleteProperties.

Lemma handleDeletePolicy_cascade_witness :
  NoDup (List.map LedgerEntry.id (Store.payments_expenses Sample.store))
  /\ App.requests (App.handleDeletePolicy Sample.accepts Sample.signedInEnv
                     Sample.paymentsExpenses Sample.yes "p1" "PN-002")
     = [ deleteDoc "artifacts/demo/users/u1/policies" "p1";
         deleteDoc "artifacts/demo/users/u1/payments_expenses" "e1";
         deleteDoc "artifacts/demo/users/u1/payments_expenses" "e2" ]
  /\ Spec.selects (fun p => Policy.id p <> "p1") Sample.policies [Sample.p2; Sample.p3]
  /\ Spec.selects (fun e => LedgerEntry.policyId e <> Some "p1")
       Sample.paymentsExpenses [Sample.e3].
Proof.
  assert (Hnd : NoDup (List.map LedgerEntry.id (Store.payments_expenses Sample.store))).
  { simpl. repeat (apply NoDup_cons_2; [rewrite list_elem_of_In; simpl; intuition discriminate |]).
    apply NoDup_nil_2. }
  split; [exact Hnd |]. split; [reflexivity |].
  pose proof (handleDeletePolicy_cascade Sample.accepts Sample.signedInEnv
                Sample.store Sample.yes "p1" "PN-002" Hnd) as H.
  cbv zeta in H. destruct H as (H & _).
  exact (H _ eq_refl eq_refl (fun _ _ => eq_refl)).
Defined.

(** ** Sorting *)

Section SortProperties.
Context {A : Type} (cmp : A -> A -> Z).

Lemma sort_insert_perm (x : A) (l : list A) : Permutation (sort_insert cmp x l) (x :: l).
Proof.
  induction l as [|y l IH]; simpl; [reflexivity |].
  destruct (0 <? cmp x y)%Z; [| reflexivity].
  rewrite IH. apply perm_swap.
Qed.

Lemma Array_sort_perm (l : list A) : Permutation (Array_sort cmp l) l.
Proof.
  induction l as [|x l IH]; simpl; [reflexivity |].
  rewrite sort_insert_perm. now apply perm_skip.
Qed.

(** Where [sort_insert] puts the new element: after a prefix of elements it
    compares greater than, and before an element it does not. *)
Lemma sort_insert_split (x : A) (l : list A) :
  exists l1 l2, l = (l1 ++ l2)%list /\ sort_insert cmp x l = (l1 ++ x :: l2)%list
                /\ Forall (fun y => (0 < cmp x y)%Z) l1
                /\ match l2 with
                   | [] => True
                   | y :: _ => ~ (0 < cmp x y)%Z
                   end.
Proof.
  induction l as [|y l IH]; simpl.
  - exists [], []. repeat split; constructor.
  - destruct (0 <? cmp x y)%Z eqn:E.
    + destruct IH as (l1 & l2 & -> & -> & H1 & H2).
      exists (y :: l1), l2. repeat split; [| exact H2].
      constructor; [now apply Z.ltb_lt | exact H1].
    + exists [], (y :: l). repeat split; [constructor |].
      now apply Z.ltb_nlt.
Qed.

Lemma occursBefore_precedes (x y : A) (l : list A) :
  Spec.occursBefore x y l <-> Spec.precedes x y l.
Proof.
  unfold Spec.occursBefore, Spec.precedes. split.
  - intros (l1 & l2 & l3 & ->). exists (length l1), (length l1 + S (length l2)).
    split; [lia |]. split.
    + now rewrite list_lookup_middle.
    + rewrite lookup_app_r by lia.
      replace (length l1 + S (length l2) - length l1) with (S (length l2)) by lia.
      simpl. now rewrite list_lookup_middle.
  - intros (i & j & Hij & Hi & Hj).
    pose proof (take_drop_middle l i x Hi) as E1.
    assert (Hj' : drop (S i) l !! (j - S i) = Some y).
    { rewrite lookup_drop. now replace (S i + (j - S i)) with j by lia. }
    pose proof (take_drop_middle _ _ y Hj') as E2.
    exists (take i l), (take (j - S i) (drop (S i) l)), (drop (S (j - S i)) (drop (S i) l)).
    now rewrite E2, E1.
Qed.

Lemma occursBefore_cons (x y z : A) (l : list A) :
  Spec.occursBefore x y (z :: l) <-> (z = x /\ In y l) \/ Spec.occursBefore x y l.
Proof.
  unfold Spec.occursBefore. split.
  - intros ([|w l1] & l2 & l3 & H); simpl in H; injection H as -> ->.
    + left. split; [reflexivity |]. apply in_or_app. right. now left.
    + right. eauto.
  - intros [[-> Hy] | (l1 & l2 & l3 & ->)].
    + apply in_split in Hy as (l2 & l3 & ->). now exists [], l2, l3.
    + now exists (z :: l1), l2, l3.
Qed.

Lemma occursBefore_insert (x y z : A) (l : list A) :
  Spec.occursBefore x y l -> Spec.occursBefore x y (sort_insert cmp z l).
Proof.
  intros (l1 & l2 & l3 & ->).
  induction l1 as [|w l1 IH]; simpl.
  - destruct (0 <? cmp z x)%Z.
    + apply occursBefore_cons. left. split; [reflexivity |].
      eapply Permutation_in; [symmetry; apply sort_insert_perm |].
      right. apply in_or_app. right. now left.
    + apply occursBefore_cons. right. now exists [], l2, l3.
  - destruct (0 <? cmp z w)%Z.
    + apply occursBefore_cons. right. exact IH.
    + apply occursBefore_cons. right. now exists (w :: l1), l2, l3.
Qed.

Lemma insert_before_tied (x y : A) (l : list A) :
  In y l -> ~ (0 < cmp x y)%Z -> Spec.occursBefore x y (sort_insert cmp x l).
Proof.
  intros Hy Hxy. destruct (sort_insert_split x l) as (l1 & l2 & -> & -> & H1 & _).
  apply in_app_or in Hy as [Hy | Hy].
  - rewrite List.Forall_forall in H1. now apply H1 in Hy.
  - apply in_split in Hy as (l2' & l3 & ->). now exists l1, l2', l3.
Qed.

(** Stability of the sort: an element that comes before another in the
    input and is not greater than it under the comparator still comes
    before it in the output. *)
Lemma Array_sort_stable (x y : A) (l : list A) :
  Spec.occursBefore x y l -> ~ (0 < cmp x y)%Z -> Spec.occursBefore x y (Array_sort cmp l).
Proof.
  intros H Hxy. induction l as [|z l IH]; simpl.
  - destruct H as ([|? ?] & ? & ? & [=]).
  - apply occursBefore_cons in H as [[-> Hy] | H].
    + apply insert_before_tied; [| exact Hxy].
      eapply Permutation_in; [symmetry; apply Array_sort_perm | exact Hy].
    + apply occursBefore_insert. now apply IH.
Qed.

End SortProperties.

(** ** The filtered list of ViewPolicies *)

Section FilteredListProperties.
Context `{B : Builtins}.

(** C4. A policy appears in the filtered list exactly when it is one of the
    policies and the six conditions hold: each text filter is empty or is
    contained, ignoring case, in the policy's field (first or last name for
    the customer filter); each paid filter is "all" or agrees with the
    flag; and each supplied bound of the validUntil range holds, a bound
    being skipped when the policy has no validUntil. The list is an
    arrangement of the policies that pass, each as often as it occurs among
    the policies, under every sort key and direction. *)
Theorem filtered_list_passes (f : ViewPolicies.Filters) (sortColumn : SortColumn)
    (sortDirection : SortDirection) (policies : list Policy.t) :
  let shown := ViewPolicies.filteredAndSortedPolicies f sortColumn sortDirection policies in
  (forall p, In p shown <-> In p policies /\ Spec.passes f p)
  /\ (exists passing,
        Spec.selects (Spec.passes f) policies passing /\ Permutation shown passing).
Proof.
  unfold ViewPolicies.filteredAndSortedPolicies. split.
  - intros p. rewrite <- filterPredicate_passes, <- List.filter_In. split.
    + apply Permutation_in, Array_sort_perm.
    + apply Permutation_in. symmetry. apply Array_sort_perm.
  - exists (List.filter (ViewPolicies.filterPredicate f) policies). split.
    + apply filter_selects, filterPredicate_passes.
    + apply Array_sort_perm.
Qed.

End FilteredListProperties.

Lemma sort_insert_map {A C : Type} (f : A -> C) (cmp : C -> C -> Z) (x : A) (l : list A) :
  sort_insert cmp (f x) (List.map f l)
  = List.map f (sort_insert (fun a b => cmp (f a) (f b)) x l).
Proof.
  induction l as [|y l IH]; simpl; [reflexivity |].
  destruct (0 <? cmp (f x) (f y))%Z; simpl; congruence.
Qed.

Lemma Array_sort_map {A C : Type} (f : A -> C) (cmp : C -> C -> Z) (l : list A) :
  Array_sort cmp (List.map f l) = List.map f (Array_sort (fun a b => cmp (f a) (f b)) l).
Proof.
  induction l as [|x l IH]; simpl; [reflexivity |].
  now rewrite IH, sort_insert_map.
Qed.

Lemma numbered_lookup {A : Type} (l : list A) (i : nat) (x : A) :
  l !! i = Some x -> Spec.numbered l !! i = Some (i, x).
Proof. intros H. unfold Spec.numbered. now rewrite list_lookup_imap, H. Qed.

Lemma numbered_snd {A : Type} (l : list A) : List.map snd (Spec.numbered l) = l.
Proof.
  unfold Spec.numbered. change (snd <$> imap pair l = l).
  apply list_eq. intros i. rewrite list_lookup_fmap, list_lookup_imap.
  now destruct (l !! i).
Qed.

Section SortedProperties.
Context {A : Type} (cmp : A -> A -> Z) (R : A -> A -> Prop).

Lemma StronglySorted_insert_middle (x : A) (l1 l2 : list A) :
  StronglySorted R (l1 ++ l2) -> Forall (fun y => R y x) l1 -> Forall (R x) l2 ->
  StronglySorted R (l1 ++ x :: l2).
Proof.
  induction l1 as [|y l1 IH]; simpl; intros Hs H1 H2.
  - now constructor.
  - apply StronglySorted_inv in Hs as [Hs Hy]. apply List.Forall_cons_iff in H1 as [Hyx H1].
    constructor; [now apply IH |].
    apply List.Forall_app in Hy as [Hy1 Hy2].
    apply List.Forall_app. split; [exact Hy1 | now constructor].
Qed.

Lemma StronglySorted_tail (l1 l2 : list A) :
  StronglySorted R (l1 ++ l2) -> StronglySorted R l2.
Proof.
  induction l1 as [|y l1 IH]; simpl; [auto |].
  intros Hs. apply StronglySorted_inv in Hs as [Hs _]. auto.
Qed.

Lemma ForallOrdPairs_impl (P Q : A -> A -> Prop) (l : list A) :
  (forall x y, P x y -> Q x y) -> ForallOrdPairs P l -> ForallOrdPairs Q l.
Proof.
  intros HPQ H. induction H as [|x l Hx Hl IH]; constructor; [| exact IH].
  eapply List.Forall_impl; [apply HPQ | exact Hx].
Qed.

(** The output of the sort is sorted for [R] when, on the elements of the
    list, the comparator's sign implies [R] and [R] is transitive. *)
Lemma Array_sort_sorted (l : list A) :
  (forall x y, In x l -> In y l -> (0 < cmp x y)%Z -> R y x) ->
  ForallOrdPairs (fun x y => ~ (0 < cmp x y)%Z -> R x y) l ->
  (forall x y z, In x l -> In y l -> In z l -> R x y -> R y z -> R x z) ->
  StronglySorted R (Array_sort cmp l).
Proof.
  induction l as [|x l IH]; intros Hgt Hle Htrans; simpl; [constructor |].
  inversion Hle as [|? ? Hx Hl]; subst.
  assert (Hs : StronglySorted R (Array_sort cmp l)).
  { apply IH; [| exact Hl |].
    - intros y z Hy Hz. apply Hgt; now right.
    - intros y z w Hy Hz Hw. apply Htrans; now right. }
  assert (Hin : forall y, In y (Array_sort cmp l) -> In y l).
  { intros y. apply Permutation_in, Array_sort_perm. }
  destruct (sort_insert_split cmp x (Array_sort cmp l)) as (l1 & l2 & E & -> & H1 & H2).
  rewrite E in Hs, Hin.
  apply StronglySorted_insert_middle; [exact Hs | |].
  - rewrite List.Forall_forall in *. intros y Hy.
    apply Hgt; simpl; auto. right. apply Hin, in_or_app. now left.
  - destruct l2 as [|y l2]; [constructor |].
    assert (Hxy : R x y).
    { rewrite List.Forall_forall in Hx. apply Hx; [| exact H2].
      apply Hin, in_or_app. right. now left. }
    constructor; [exact Hxy |].
    apply StronglySorted_tail, StronglySorted_inv in Hs as [_ Hy].
    rewrite List.Forall_forall in *. intros z Hz.
    apply (Htrans x y z); simpl; auto.
    + right. apply Hin, in_or_app. right. now left.
    + right. apply Hin, in_or_app. right. now right.
Qed.

(** Two arrangements of the same elements that are both sorted for an
    asymmetric relation are the same arrangement. *)
Lemma StronglySorted_unique (l1 l2 : list A) :
  (forall x y, R x y -> R y x -> False) ->
  Permutation l1 l2 -> StronglySorted R l1 -> StronglySorted R l2 -> l1 = l2.
Proof.
  intros Hasym. revert l2. induction l1 as [|x l1 IH]; intros l2 Hp H1 H2.
  - apply Permutation_nil in Hp. now subst.
  - destruct l2 as [|y l2]; [symmetry in Hp; now apply Permutation_nil_cons in Hp |].
    apply StronglySorted_inv in H1 as [H1 Hx]. apply StronglySorted_inv in H2 as [H2 Hy].
    rewrite List.Forall_forall in Hx, Hy.
    assert (E : x = y).
    { assert (Hxin : In x (y :: l2)) by (eapply Permutation_in; [exact Hp | now left]).
      assert (Hyin : In y (x :: l1)) by (eapply Permutation_in; [symmetry; exact Hp | now left]).
      destruct Hxin as [-> | Hxin]; [reflexivity |].
      destruct Hyin as [-> | Hyin]; [reflexivity |].
      exfalso. apply (Hasym x y); auto. }
    subst y. f_equal. apply IH; [| assumption ..].
    now apply Permutation_cons_inv in Hp.
Qed.

End SortedProperties.

Lemma StronglySorted_rev {A : Type} (R : A -> A -> Prop) (l : list A) :
  StronglySorted R l -> StronglySorted (fun x y => R y x) (rev l).
Proof.
  induction 1 as [|x l Hs IH Hx]; simpl; [constructor |].
  apply StronglySorted_insert_middle.
  - now rewrite app_nil_r.
  - rewrite List.Forall_forall in *. intros y Hy. apply Hx. now apply in_rev.
  - constructor.
Qed.

(** ** The comparator of ViewPolicies *)

Section ComparatorProperties.
Context `{B : Builtins}.

Lemma js_lt_asym (v w : jsval) : js_lt v w = true -> js_lt w v = false.
Proof.
  destruct v, w; simpl; auto using Binary64.ltb_asym, string_ltb_asym.
Qed.

Lemma time_lt_asym (s t : option Z) : time_lt s t = true -> time_lt t s = false.
Proof. destruct s, t; simpl; try discriminate. lia. Qed.

Lemma val_lt_asym (x y : SortVal) :
  ViewPolicies.val_lt x y = true -> ViewPolicies.val_lt y x = false.
Proof. destruct x, y; simpl; auto using js_lt_asym, time_lt_asym. Qed.

Lemma comparator_antisym (sortColumn : SortColumn) (sortDirection : SortDirection)
    (a b : Policy.t) :
  ViewPolicies.comparator sortColumn sortDirection b a
  = (- ViewPolicies.comparator sortColumn sortDirection a b)%Z.
Proof.
  unfold ViewPolicies.comparator.
  set (va := ViewPolicies.sortVal sortColumn a).
  set (vb := ViewPolicies.sortVal sortColumn b).
  destruct (ViewPolicies.val_lt va vb) eqn:Hab, (ViewPolicies.val_lt vb va) eqn:Hba;
    destruct sortDirection; try reflexivity;
    apply val_lt_asym in Hab; congruence.
Qed.

Lemma comparator_flip (sortColumn : SortColumn) (sortDirection : SortDirection)
    (a b : Policy.t) :
  ViewPolicies.comparator sortColumn (Spec.flip sortDirection) a b
  = (- ViewPolicies.comparator sortColumn sortDirection a b)%Z.
Proof.
  unfold ViewPolicies.comparator.
  set (va := ViewPolicies.sortVal sortColumn a).
  set (vb := ViewPolicies.sortVal sortColumn b).
  destruct (ViewPolicies.val_lt va vb), (ViewPolicies.val_lt vb va);
    destruct sortDirection; reflexivity.
Qed.

(** With no ties and a transitive comparison, the ascending sort is
    strictly increasing. *)
Lemma sort_asc_increasing (sortColumn : SortColumn) (l : list Policy.t) :
  Spec.noTies sortColumn l -> Spec.transitiveOn sortColumn l ->
  StronglySorted (fun a b => (ViewPolicies.comparator sortColumn asc a b < 0)%Z)
    (Array_sort (ViewPolicies.comparator sortColumn asc) l).
Proof.
  intros Hties Htrans. apply Array_sort_sorted.
  - intros a b _ _ H. rewrite comparator_antisym. lia.
  - eapply ForallOrdPairs_impl; [| exact Hties]. simpl. intros a b Hne Hle. lia.
  - exact Htrans.
Qed.

(** ... and the descending sort is strictly decreasing. *)
Lemma sort_desc_decreasing (sortColumn : SortColumn) (l : list Policy.t) :
  Spec.noTies sortColumn l -> Spec.transitiveOn sortColumn l ->
  StronglySorted (fun a b => (ViewPolicies.comparator sortColumn asc b a < 0)%Z)
    (Array_sort (ViewPolicies.comparator sortColumn desc) l).
Proof.
  intros Hties Htrans. apply Array_sort_sorted.
  - intros a b _ _. rewrite (comparator_flip sortColumn asc). lia.
  - eapply ForallOrdPairs_impl; [| exact Hties]. simpl. intros a b Hne.
    rewrite (comparator_flip sortColumn asc), (comparator_antisym sortColumn asc a b). lia.
  - intros a b c Ha Hb Hc Hab Hbc. now apply (Htrans c b a).
Qed.

Lemma sort_desc_rev_asc (sortColumn : SortColumn) (l : list Policy.t) :
  Spec.noTies sortColumn l -> Spec.transitiveOn sortColumn l ->
  Array_sort (ViewPolicies.comparator sortColumn desc) l
  = rev (Array_sort (ViewPolicies.comparator sortColumn asc) l).
Proof.
  intros Hties Htrans.
  apply (StronglySorted_unique
           (fun a b => (ViewPolicies.comparator sortColumn asc b a < 0)%Z)).
  - intros a b. rewrite (comparator_antisym sortColumn asc a b). lia.
  - rewrite Array_sort_perm, <- Permutation_rev. symmetry. apply Array_sort_perm.
  - now apply sort_desc_decreasing.
  - apply (StronglySorted_rev
             (fun a b => (ViewPolicies.comparator sortColumn asc a b < 0)%Z)).
    now apply sort_asc_increasing.
Qed.

(** The comparison is transitive under a text key on every list, and under
    a date key on every list whose present values are dates. *)
Lemma comparator_text (sortColumn : SortColumn) (a b : Policy.t) :
  Spec.isTextColumn sortColumn ->
  exists s t, Spec.textKey sortColumn a = Some s /\ Spec.textKey sortColumn b = Some t
    /\ ViewPolicies.comparator sortColumn asc a b
       = (if String.ltb s t then -1 else if String.ltb t s then 1 else 0)%Z.
Proof.
  intros [-> | [-> | ->]]; do 2 eexists; repeat split.
Qed.

Lemma transitiveOn_text (sortColumn : SortColumn) (l : list Policy.t) :
  Spec.isTextColumn sortColumn -> Spec.transitiveOn sortColumn l.
Proof.
  intros Hcol a b c _ _ _.
  destruct (comparator_text sortColumn a b Hcol) as (s & t & Hs & Ht & ->).
  destruct (comparator_text sortColumn b c Hcol) as (t' & u & Ht' & Hu & ->).
  destruct (comparator_text sortColumn a c Hcol) as (s' & u' & Hs' & Hu' & ->).
  assert (t' = t) by congruence. assert (s' = s) by congruence.
  assert (u' = u) by congruence. subst.
  destruct (String.ltb s t) eqn:Hst; [| destruct (String.ltb t s); lia].
  destruct (String.ltb t u) eqn:Htu; [| destruct (String.ltb u t); lia].
  now rewrite (string_ltb_trans s t u Hst Htu).
Qed.

Lemma noTies_text (sortColumn : SortColumn) (l : list Policy.t) :
  Spec.isTextColumn sortColumn ->
  NoDup (List.map (Spec.textKey sortColumn) l) -> Spec.noTies sortColumn l.
Proof.
  intros Hcol. unfold Spec.noTies. induction l as [|a l IH]; simpl; intros Hnd.
  - constructor.
  - apply NoDup_cons in Hnd as [Ha Hnd]. constructor; [| now apply IH].
    apply List.Forall_forall. intros b Hb.
    destruct (comparator_text sortColumn a b Hcol) as (s & t & Hs & Ht & ->).
    destruct (String.ltb s t) eqn:Hst; [lia |].
    destruct (String.ltb t s) eqn:Hts; [lia |].
    intros _. apply Ha. rewrite Hs, (string_ltb_total s t Hst Hts), <- Ht.
    apply list_elem_of_In, List.in_map, Hb.
Qed.

(** C8, as the code has it. Selecting the current key flips the direction,
    and selecting another key sets that key with ascending direction. The
    flipped sort shows the same policies; it shows them in exactly the
    reverse order when no two of them tie under the key and the comparison
    is transitive on them. *)
Theorem sort_toggle (f : ViewPolicies.Filters) (sortColumn : SortColumn)
    (sortDirection : SortDirection) (policies : list Policy.t) :
  let shown := List.filter (ViewPolicies.filterPredicate f) policies in
  let before := ViewPolicies.filteredAndSortedPolicies f sortColumn sortDirection policies in
  let after :=
    ViewPolicies.filteredAndSortedPolicies f sortColumn (Spec.flip sortDirection) policies in
  ViewPolicies.handleSort sortColumn (sortColumn, sortDirection)
  = (sortColumn, Spec.flip sortDirection)
  /\ (forall column, column <> sortColumn ->
        ViewPolicies.handleSort column (sortColumn, sortDirection) = (column, asc))
  /\ Permutation after before
  /\ (Spec.noTies sortColumn shown -> Spec.transitiveOn sortColumn shown ->
      after = rev before).
Proof.
  unfold ViewPolicies.filteredAndSortedPolicies, ViewPolicies.handleSort. simpl.
  split; [| split; [| split]].
  - rewrite decide_True by reflexivity. now destruct sortDirection.
  - intros column Hne. now rewrite decide_False by congruence.
  - now rewrite !Array_sort_perm.
  - intros Hties Htrans. destruct sortDirection; simpl.
    + now apply sort_desc_rev_asc.
    + rewrite sort_desc_rev_asc by assumption. now rewrite rev_involutive.
Qed.

End ComparatorProperties.

(** ** Date-valued sort keys *)

Lemma StronglySorted_lookup {A : Type} (R : A -> A -> Prop) (l : list A)
    (i j : nat) (x y : A) :
  StronglySorted R l -> i < j -> l !! i = Some x -> l !! j = Some y -> R x y.
Proof.
  intros Hs Hij Hi Hj.
  assert (Hb : Spec.occursBefore x y l).
  { apply occursBefore_precedes. exists i, j. auto. }
  destruct Hb as (l1 & l2 & l3 & ->).
  apply StronglySorted_tail, StronglySorted_inv in Hs as [_ Hx].
  rewrite List.Forall_forall in Hx. apply Hx, in_or_app. right. now left.
Qed.

Section DateKeyProperties.
Context `{B : Builtins}.

Lemma sortVal_date (sortColumn : SortColumn) (a : Policy.t) :
  Spec.isDateColumn sortColumn ->
  ViewPolicies.sortVal sortColumn a
  = STime (default (Some 0%Z) (Spec.dateValue sortColumn a)).
Proof.
  intros [-> | [-> | ->]]; simpl.
  - now destruct (Policy.createdAt a).
  - destruct (Policy.policyDate a) as [s|]; simpl; [| reflexivity].
    now destruct (s =? "").
  - destruct (Policy.validUntil a) as [s|]; simpl; [| reflexivity].
    now destruct (s =? "").
Qed.

Lemma sortVal_valid (sortColumn : SortColumn) (a : Policy.t) :
  Spec.isDateColumn sortColumn -> Spec.dateValue sortColumn a <> Some None ->
  ViewPolicies.sortVal sortColumn a = STime (Some (Spec.timeKey sortColumn a)).
Proof.
  intros Hcol Hv. rewrite sortVal_date by assumption. unfold Spec.timeKey.
  destruct (Spec.dateValue sortColumn a) as [[t|]|]; simpl; congruence.
Qed.

Lemma comparator_valid (sortColumn : SortColumn) (sortDirection : SortDirection)
    (a b : Policy.t) :
  Spec.isDateColumn sortColumn ->
  Spec.dateValue sortColumn a <> Some None -> Spec.dateValue sortColumn b <> Some None ->
  ViewPolicies.comparator sortColumn sortDirection a b
  = (let s := if decide (sortDirection = asc) then 1 else -1 in
     if Spec.timeKey sortColumn a <? Spec.timeKey sortColumn b then - s
     else if Spec.timeKey sortColumn b <? Spec.timeKey sortColumn a then s else 0)%Z.
Proof.
  intros Hcol Ha Hb. unfold ViewPolicies.comparator.
  rewrite !sortVal_valid by assumption. simpl.
  destruct sortDirection; reflexivity.
Qed.

Lemma sort_by_date_sorted (sortColumn : SortColumn) (sortDirection : SortDirection)
    (l : list Policy.t) :
  Spec.isDateColumn sortColumn -> Spec.validKeys sortColumn l ->
  StronglySorted
    (fun a b => if decide (sortDirection = asc)
                then (Spec.timeKey sortColumn a <= Spec.timeKey sortColumn b)%Z
                else (Spec.timeKey sortColumn b <= Spec.timeKey sortColumn a)%Z)
    (Array_sort (ViewPolicies.comparator sortColumn sortDirection) l).
Proof.
  intros Hcol Hv. apply Array_sort_sorted.
  - intros a b Ha Hb. rewrite comparator_valid by auto. simpl.
    destruct sortDirection; simpl;
      destruct (Z.ltb_spec (Spec.timeKey sortColumn a) (Spec.timeKey sortColumn b));
      destruct (Z.ltb_spec (Spec.timeKey sortColumn b) (Spec.timeKey sortColumn a)); lia.
  - apply ForallPairs_ForallOrdPairs. intros a b Ha Hb.
    rewrite comparator_valid by auto. simpl.
    destruct sortDirection; simpl;
      destruct (Z.ltb_spec (Spec.timeKey sortColumn a) (Spec.timeKey sortColumn b));
      destruct (Z.ltb_spec (Spec.timeKey sortColumn b) (Spec.timeKey sortColumn a)); lia.
  - intros a b c _ _ _. destruct sortDirection; simpl; lia.
Qed.

Lemma transitiveOn_dates (sortColumn : SortColumn) (l : list Policy.t) :
  Spec.isDateColumn sortColumn -> Spec.validKeys sortColumn l ->
  Spec.transitiveOn sortColumn l.
Proof.
  intros Hcol Hv a b c Ha Hb Hc. rewrite !comparator_valid by auto. simpl.
  destruct (Z.ltb_spec (Spec.timeKey sortColumn a) (Spec.timeKey sortColumn b));
    destruct (Z.ltb_spec (Spec.timeKey sortColumn b) (Spec.timeKey sortColumn a));
    destruct (Z.ltb_spec (Spec.timeKey sortColumn b) (Spec.timeKey sortColumn c));
    destruct (Z.ltb_spec (Spec.timeKey sortColumn c) (Spec.timeKey sortColumn b));
    destruct (Z.ltb_spec (Spec.timeKey sortColumn a) (Spec.timeKey sortColumn c));
    destruct (Z.ltb_spec (Spec.timeKey sortColumn c) (Spec.timeKey sortColumn a)); lia.
Qed.

(** C10, as the code has it. Under a date-valued key a policy that lacks
    the key is compared as timestamp 0. When every value of the key present
    in the list parses to a timestamp, the ascending sort puts every policy
    that lacks the key before every policy whose key is a positive
    timestamp, and the descending sort puts it after them. *)
Theorem sort_missing_dates (sortColumn : SortColumn) (l : list Policy.t) :
  Spec.isDateColumn sortColumn ->
  Spec.validKeys sortColumn l ->
  (forall a, Spec.lacksKey sortColumn a ->
             ViewPolicies.sortVal sortColumn a = STime (Some 0%Z))
  /\ (forall i j m p,
        Array_sort (ViewPolicies.comparator sortColumn asc) l !! i = Some m ->
        Array_sort (ViewPolicies.comparator sortColumn asc) l !! j = Some p ->
        Spec.lacksKey sortColumn m -> Spec.positiveKey sortColumn p -> i < j)
  /\ (forall i j m p,
        Array_sort (ViewPolicies.comparator sortColumn desc) l !! i = Some m ->
        Array_sort (ViewPolicies.comparator sortColumn desc) l !! j = Some p ->
        Spec.lacksKey sortColumn m -> Spec.positiveKey sortColumn p -> j < i).
Proof.
  intros Hcol Hv. split; [| split].
  - intros a Ha. rewrite sortVal_date by assumption. unfold Spec.lacksKey in Ha.
    now rewrite Ha.
  - intros i j m p Hi Hj Hm (t & Hp & Ht).
    assert (Km : Spec.timeKey sortColumn m = 0%Z) by (unfold Spec.timeKey; now rewrite Hm).
    assert (Kp : Spec.timeKey sortColumn p = t) by (unfold Spec.timeKey; now rewrite Hp).
    destruct (lt_eq_lt_dec i j) as [[Hlt | ->] | Hgt]; [exact Hlt | |].
    + rewrite Hi in Hj. injection Hj as ->. unfold Spec.lacksKey in Hm. congruence.
    + pose proof (StronglySorted_lookup _ _ j i p m
                    (sort_by_date_sorted sortColumn asc l Hcol Hv) Hgt Hj Hi) as H.
      simpl in H. lia.
  - intros i j m p Hi Hj Hm (t & Hp & Ht).
    assert (Km : Spec.timeKey sortColumn m = 0%Z) by (unfold Spec.timeKey; now rewrite Hm).
    assert (Kp : Spec.timeKey sortColumn p = t) by (unfold Spec.timeKey; now rewrite Hp).
    destruct (lt_eq_lt_dec i j) as [[Hlt | ->] | Hgt]; [| | exact Hgt].
    + pose proof (StronglySorted_lookup _ _ i j m p
                    (sort_by_date_sorted sortColumn desc l Hcol Hv) Hlt Hi Hj) as H.
      simpl in H. lia.
    + rewrite Hi in Hj. injection Hj as ->. unfold Spec.lacksKey in Hm. congruence.
Qed.

End DateKeyProperties.

(** ** Consistent comparators and the stable order *)

Lemma occursBefore_sorted {A : Type} (R : A -> A -> Prop) (l : list A) :
  (forall x y, Spec.occursBefore x y l -> R x y) -> StronglySorted R l.
Proof.
  induction l as [|z l IH]; intros H; constructor.
  - apply IH. intros x y Hxy. apply H, occursBefore_cons. now right.
  - apply List.Forall_forall. intros y Hy. apply H, occursBefore_cons. left. auto.
Qed.

Lemma occursBefore_ForallOrdPairs {A : Type} (P : A -> A -> Prop) (l : list A) :
  (forall x y, Spec.occursBefore x y l -> P x y) -> ForallOrdPairs P l.
Proof.
  induction l as [|z l IH]; intros H; constructor.
  - apply List.Forall_forall. intros y Hy. apply H, occursBefore_cons. left. auto.
  - apply IH. intros x y Hxy. apply H, occursBefore_cons. now right.
Qed.

Lemma StronglySorted_occursBefore {A : Type} (R : A -> A -> Prop) (l : list A) (x y : A) :
  StronglySorted R l -> Spec.occursBefore x y l -> R x y.
Proof.
  intros Hs (l1 & l2 & l3 & ->).
  apply StronglySorted_tail, StronglySorted_inv in Hs as [_ Hx].
  rewrite List.Forall_forall in Hx. apply Hx, in_or_app. right. now left.
Qed.

Lemma occursBefore_In {A : Type} (l : list A) (x y : A) :
  Spec.occursBefore x y l -> In x l /\ In y l.
Proof.
  intros (l1 & l2 & l3 & ->). split; apply in_or_app; right; [now left |].
  right. apply in_or_app. right. now left.
Qed.

Lemma numbered_occursBefore {A : Type} (l : list A) (x y : nat * A) :
  Spec.occursBefore x y (Spec.numbered l) -> fst x < fst y.
Proof.
  intros H. apply occursBefore_precedes in H as (i & j & Hij & Hi & Hj).
  unfold Spec.numbered in Hi, Hj. rewrite list_lookup_imap in Hi, Hj.
  destruct (l !! i), (l !! j); simpl in Hi, Hj; try discriminate.
  injection Hi as <-. injection Hj as <-. exact Hij.
Qed.

Lemma numbered_In {A : Type} (l : list A) (x : nat * A) :
  In x (Spec.numbered l) -> In (snd x) l.
Proof. intros H. rewrite <- (numbered_snd l). now apply List.in_map. Qed.

Section ConsistentComparators.
Context {A : Type} (cmp : A -> A -> Z).

(** Under a consistent comparator the output of the sort is in order. *)
Lemma Array_sort_consistent (l : list A) :
  Spec.consistentOn cmp l ->
  StronglySorted (fun x y => (cmp x y <= 0)%Z) (Array_sort cmp l).
Proof.
  intros [Hanti Htrans]. apply Array_sort_sorted.
  - intros x y Hx Hy H. apply Hanti in H; auto. lia.
  - apply ForallPairs_ForallOrdPairs. intros x y _ _. lia.
  - exact Htrans.
Qed.

Lemma before_asym (l : list A) (x y : nat * A) :
  Spec.consistentOn cmp l -> Spec.stablyBefore cmp l x y -> Spec.stablyBefore cmp l y x -> False.
Proof.
  intros [Hanti _] (Hx & Hy & H1) (_ & _ & H2).
  pose proof (Hanti _ _ Hx Hy). pose proof (Hanti _ _ Hy Hx). lia.
Qed.

Lemma before_trans (l : list A) (x y z : nat * A) :
  Spec.consistentOn cmp l -> Spec.stablyBefore cmp l x y -> Spec.stablyBefore cmp l y z -> Spec.stablyBefore cmp l x z.
Proof.
  intros [Hanti Htrans] (Hx & Hy & H1) (_ & Hz & H2).
  split; [exact Hx |]. split; [exact Hz |].
  pose proof (Hanti _ _ Hx Hy). pose proof (Hanti _ _ Hy Hx).
  pose proof (Hanti _ _ Hy Hz). pose proof (Hanti _ _ Hz Hy).
  pose proof (Hanti _ _ Hx Hz). pose proof (Hanti _ _ Hz Hx).
  pose proof (Htrans _ _ _ Hx Hy Hz). pose proof (Htrans _ _ _ Hz Hx Hy).
  pose proof (Htrans _ _ _ Hy Hz Hx). pose proof (Htrans _ _ _ Hz Hy Hx).
  pose proof (Htrans _ _ _ Hy Hx Hz). pose proof (Htrans _ _ _ Hx Hz Hy).
  lia.
Qed.

(** There is one sorted and stable arrangement: an arrangement of the
    numbered elements that is in the order of a consistent comparator and
    keeps ties in the order of their positions is the output of the
    sort. *)
Lemma stable_sort_unique (l : list A) (other : list (nat * A)) :
  Spec.consistentOn cmp l ->
  Permutation other (Spec.numbered l) ->
  StronglySorted (fun x y => (cmp (snd x) (snd y) <= 0)%Z) other ->
  (forall x y, Spec.occursBefore x y other -> cmp (snd x) (snd y) = 0%Z -> fst x < fst y) ->
  other = Array_sort (fun x y => cmp (snd x) (snd y)) (Spec.numbered l).
Proof.
  intros Hc Hp Hs Hst. apply (StronglySorted_unique (Spec.stablyBefore cmp l)).
  - intros x y. now apply before_asym.
  - rewrite Hp. symmetry. apply Array_sort_perm.
  - apply occursBefore_sorted. intros x y Hxy.
    destruct (occursBefore_In _ _ _ Hxy) as [Hx Hy].
    split; [apply numbered_In; eapply Permutation_in; eauto |].
    split; [apply numbered_In; eapply Permutation_in; eauto |].
    pose proof (StronglySorted_occursBefore _ _ _ _ Hs Hxy) as Hle. simpl in Hle.
    destruct (Z.eq_dec (cmp (snd x) (snd y)) 0%Z) as [E|E]; [right | left; lia].
    split; [exact E | now apply Hst].
  - apply Array_sort_sorted.
    + intros x y Hx Hy H. destruct Hc as [Hanti _].
      apply numbered_In in Hx, Hy. split; [exact Hy |]. split; [exact Hx |].
      left. now apply Hanti.
    + apply occursBefore_ForallOrdPairs. intros x y Hxy Hle.
      destruct (occursBefore_In _ _ _ Hxy) as [Hx Hy]. apply numbered_In in Hx, Hy.
      split; [exact Hx |]. split; [exact Hy |].
      destruct (Z.eq_dec (cmp (snd x) (snd y)) 0%Z) as [E|E]; [right | left; lia].
      split; [exact E | now apply numbered_occursBefore in Hxy].
    + intros x y z _ _ _. now apply before_trans.
Qed.

End ConsistentComparators.

(** ** The sort of V8 under a consistent comparator *)

Section V8Maps.
Context {A C : Type} (f : A -> C) (cmp : C -> C -> Z).

Lemma continues_map (isDescending : bool) (prev : A) (rest : list A) :
  V8.continues cmp isDescending (f prev) (List.map f rest)
  = V8.continues (fun a b => cmp (f a) (f b)) isDescending prev rest.
Proof.
  revert prev. induction rest as [|x rest IH]; intros prev; simpl; [reflexivity |].
  now rewrite IH.
Qed.

Lemma countAndMakeRun_map (l : list A) :
  V8.countAndMakeRun cmp (List.map f l)
  = (fst (V8.countAndMakeRun (fun a b => cmp (f a) (f b)) l),
     List.map f (snd (V8.countAndMakeRun (fun a b => cmp (f a) (f b)) l))).
Proof.
  destruct l as [|x0 [|x1 rest]]; try reflexivity.
  unfold V8.countAndMakeRun. cbn [List.map]. rewrite continues_map.
  cbn [fst snd]. f_equal.
  destruct (cmp (f x1) (f x0) <? 0)%Z; [| reflexivity].
  change (f x0 :: f x1 :: List.map f rest) with (List.map f (x0 :: x1 :: rest)).
  now rewrite List.map_app, List.map_rev, <- firstn_map, <- skipn_map.
Qed.

Lemma search_map (n : nat) (pivot : A) (a : list A) (lo hi : nat) :
  V8.search cmp n (f pivot) (List.map f a) lo hi
  = V8.search (fun a b => cmp (f a) (f b)) n pivot a lo hi.
Proof.
  revert lo hi. induction n as [|n IH]; intros lo hi; simpl; [reflexivity |].
  destruct (lo <? hi)%nat; [| reflexivity].
  change (List.map f a) with (f <$> a). rewrite list_lookup_fmap.
  destruct (a !! (lo + Nat.div2 (hi - lo))%nat) as [x|]; simpl; [| reflexivity].
  change (f <$> a) with (List.map f a). now rewrite !IH.
Qed.

Lemma binaryInsertionSort_map (sorted rest : list A) :
  V8.binaryInsertionSort cmp (List.map f sorted) (List.map f rest)
  = List.map f (V8.binaryInsertionSort (fun a b => cmp (f a) (f b)) sorted rest).
Proof.
  revert sorted. induction rest as [|pivot rest IH]; intros sorted; simpl; [reflexivity |].
  rewrite length_map, search_map, <- IH. f_equal.
  rewrite List.map_app. cbn [List.map]. now rewrite firstn_map, skipn_map.
Qed.

Lemma V8_sort_map (l : list A) :
  V8.sort cmp (List.map f l) = List.map f (V8.sort (fun a b => cmp (f a) (f b)) l).
Proof.
  unfold V8.sort. rewrite countAndMakeRun_map.
  destruct (V8.countAndMakeRun _ l) as [n a]. cbn [fst snd].
  now rewrite firstn_map, skipn_map, binaryInsertionSort_map.
Qed.

End V8Maps.

Section V8Sorted.
Context {A : Type} (cmp : A -> A -> Z) (l : list A).
Hypothesis Hc : Spec.consistentOn cmp l.

Abbreviation before := (Spec.stablyBefore cmp l).
Abbreviation later := (fun x y : nat * A => fst x < fst y).
Abbreviation compare := (fun x y : nat * A => cmp (snd x) (snd y)).

(** Of two elements, the comparator tells which comes first in the stable
    order when it is asked about the later against the earlier. *)
Lemma earlier_or_later (x y : nat * A) :
  In (snd x) l -> In (snd y) l -> fst x < fst y ->
  if (cmp (snd y) (snd x) <? 0)%Z then before y x else before x y.
Proof.
  intros Hx Hy Hlt. destruct Hc as [Hanti _].
  pose proof (Hanti _ _ Hx Hy). pose proof (Hanti _ _ Hy Hx).
  destruct (Z.ltb_spec (cmp (snd y) (snd x)) 0); (split; [| split]); auto; lia.
Qed.

Lemma before_Transitive : Relations_1.Transitive before.
Proof. intros x y z. now apply before_trans. Qed.

Lemma search_spec (pivot : nat * A) (a : list (nat * A)) (n lo hi : nat) :
  StronglySorted before a -> In (snd pivot) l ->
  (forall x, In x a -> In (snd x) l /\ fst x < fst pivot) ->
  lo <= hi <= length a -> hi - lo <= n ->
  (forall i x, i < lo -> a !! i = Some x -> before x pivot) ->
  (forall i x, hi <= i -> a !! i = Some x -> before pivot x) ->
  let k := V8.search compare n pivot a lo hi in
  lo <= k <= hi
  /\ (forall i x, i < k -> a !! i = Some x -> before x pivot)
  /\ (forall i x, k <= i -> a !! i = Some x -> before pivot x).
Proof.
  intros Hs Hp Ha. revert lo hi. induction n as [|n IH]; intros lo hi Hb Hn Hlo Hhi; simpl.
  - assert (lo = hi) by lia. subst. split; [lia |]. split; assumption.
  - destruct (Nat.ltb_spec lo hi) as [Hlt|Hge].
    + set (mid := lo + Nat.div2 (hi - lo)).
      assert (Hmid : lo <= mid < hi).
      { unfold mid. pose proof (Nat.lt_div2 (hi - lo) ltac:(lia)) as Hd.
        revert Hd. generalize (Nat.div2 (hi - lo)). clear -Hlt. intros d Hd. lia. }
      destruct (lookup_lt_is_Some_2 a mid ltac:(lia)) as [x Hx]. rewrite Hx.
      destruct (Ha x (proj1 (list_elem_of_In _ _) (list_elem_of_lookup_2 _ _ _ Hx)))
        as [Hxl Hxp].
      pose proof (earlier_or_later x pivot Hxl Hp Hxp) as Hd.
      destruct (cmp (snd pivot) (snd x) <? 0)%Z.
      * destruct (IH lo mid) as (H1 & H2 & H3); [lia | lia | exact Hlo | |].
        -- intros i z Hi Hz. destruct (Nat.eq_dec i mid) as [->|Hne].
           ++ rewrite Hx in Hz. now injection Hz as <-.
           ++ apply (before_trans cmp l pivot x z Hc Hd).
              apply (StronglySorted_lookup _ a mid i); auto. lia.
        -- split; [lia |]. split; assumption.
      * destruct (IH (mid + 1) hi) as (H1 & H2 & H3); [lia | lia | | exact Hhi |].
        -- intros i z Hi Hz. destruct (Nat.eq_dec i mid) as [->|Hne].
           ++ rewrite Hx in Hz. now injection Hz as <-.
           ++ apply (before_trans cmp l z x pivot Hc); [| exact Hd].
              apply (StronglySorted_lookup _ a i mid); auto. lia.
        -- split; [lia |]. split; assumption.
    + assert (lo = hi) by lia. subst. split; [lia |]. split; assumption.
Qed.

Lemma binaryInsertionSort_perm (sorted rest : list (nat * A)) :
  Permutation (V8.binaryInsertionSort compare sorted rest) (sorted ++ rest)%list.
Proof.
  revert sorted. induction rest as [|pivot rest IH]; intros sorted; simpl.
  - now rewrite app_nil_r.
  - rewrite IH.
    set (k := V8.search compare (length sorted) pivot sorted 0 (length sorted)).
    transitivity ((take k sorted ++ drop k sorted) ++ pivot :: rest)%list.
    + rewrite <- !app_assoc. apply Permutation_app_head. simpl. apply Permutation_middle.
    + now rewrite take_drop.
Qed.

Lemma binaryInsertionSort_sorted (sorted rest : list (nat * A)) :
  StronglySorted before sorted -> StronglySorted later rest ->
  (forall x y, In x sorted -> In y rest -> fst x < fst y) ->
  (forall x, In x (sorted ++ rest)%list -> In (snd x) l) ->
  StronglySorted before (V8.binaryInsertionSort compare sorted rest).
Proof.
  revert sorted. induction rest as [|pivot rest IH]; intros sorted Hs Hr Hsr Hin; simpl;
    [exact Hs |].
  apply StronglySorted_inv in Hr as [Hr Hpivot]. rewrite List.Forall_forall in Hpivot.
  assert (Hp : In (snd pivot) l) by (apply Hin, in_or_app; right; now left).
  assert (Ha : forall x, In x sorted -> In (snd x) l /\ fst x < fst pivot).
  { intros x Hx. split; [apply Hin, in_or_app; now left | apply Hsr; simpl; auto]. }
  assert (Hlo : forall i x, i < 0 -> sorted !! i = Some x -> Spec.stablyBefore cmp l x pivot)
    by (intros i x Hi; lia).
  assert (Hhi : forall i x, length sorted <= i -> sorted !! i = Some x ->
                            Spec.stablyBefore cmp l pivot x).
  { intros i x Hi Hx. apply lookup_lt_Some in Hx. lia. }
  destruct (search_spec pivot sorted (length sorted) 0 (length sorted) Hs Hp Ha
              ltac:(lia) ltac:(lia) Hlo Hhi) as (_ & Hbefore & Hafter).
  set (k := V8.search compare (length sorted) pivot sorted 0 (length sorted)) in *.
  assert (Hsub : forall x, In x (take k sorted ++ pivot :: drop k sorted)%list
                           <-> x = pivot \/ In x sorted).
  { intros x. rewrite in_app_iff. simpl. rewrite <- (take_drop k sorted) at 3.
    rewrite in_app_iff. intuition auto. }
  apply IH.
  - apply StronglySorted_insert_middle.
    + now rewrite take_drop.
    + apply List.Forall_forall. intros x Hx.
      apply list_elem_of_In, list_elem_of_lookup in Hx as [i Hi].
      apply lookup_take_Some in Hi as [Hi Hik]. now apply (Hbefore i).
    + apply List.Forall_forall. intros x Hx.
      apply list_elem_of_In, list_elem_of_lookup in Hx as [i Hi].
      rewrite lookup_drop in Hi. apply (Hafter (k + i)); [lia | exact Hi].
  - exact Hr.
  - intros x y Hx Hy. apply Hsub in Hx as [-> | Hx]; [now apply Hpivot |].
    apply Hsr; simpl; auto.
  - intros x Hx. apply in_app_iff in Hx as [Hx | Hx].
    + apply Hsub in Hx as [-> | Hx]; [exact Hp | apply Hin, in_or_app; now left].
    + apply Hin, in_or_app. right. now right.
Qed.

Lemma continues_le (isDescending : bool) (prev : nat * A) (rest : list (nat * A)) :
  V8.continues compare isDescending prev rest <= length rest.
Proof.
  revert prev. induction rest as [|x rest IH]; intros prev; simpl; [lia |].
  destruct (if isDescending then _ else _); [lia |]. specialize (IH x). lia.
Qed.

Lemma run_ascending (prev : nat * A) (rest : list (nat * A)) :
  StronglySorted later (prev :: rest) -> (forall x, In x (prev :: rest) -> In (snd x) l) ->
  Sorted before (prev :: take (V8.continues compare false prev rest) rest).
Proof.
  revert prev. induction rest as [|x rest IH]; intros prev Hs Hin; simpl.
  - repeat constructor.
  - pose proof Hs as Hs'. apply StronglySorted_inv in Hs' as [Hs' Hprev].
    apply List.Forall_cons_iff in Hprev as [Hpx _].
    pose proof (earlier_or_later prev x (Hin _ (or_introl eq_refl))
                  (Hin _ (or_intror (or_introl eq_refl))) Hpx) as Hd.
    destruct (cmp (snd x) (snd prev) <? 0)%Z; simpl.
    + repeat constructor.
    + constructor; [| now constructor].
      apply IH; [exact Hs' | intros y Hy; apply Hin; now right].
Qed.

Lemma run_descending (prev : nat * A) (rest : list (nat * A)) :
  StronglySorted later (prev :: rest) -> (forall x, In x (prev :: rest) -> In (snd x) l) ->
  Sorted (fun x y => before y x) (prev :: take (V8.continues compare true prev rest) rest).
Proof.
  revert prev. induction rest as [|x rest IH]; intros prev Hs Hin; simpl.
  - repeat constructor.
  - pose proof Hs as Hs'. apply StronglySorted_inv in Hs' as [Hs' Hprev].
    apply List.Forall_cons_iff in Hprev as [Hpx _].
    pose proof (earlier_or_later prev x (Hin _ (or_introl eq_refl))
                  (Hin _ (or_intror (or_introl eq_refl))) Hpx) as Hd.
    destruct (Z.ltb_spec (cmp (snd x) (snd prev)) 0) as [Hlt|Hge].
    + replace (0 <=? cmp (snd x) (snd prev))%Z with false by (symmetry; apply Z.leb_gt, Hlt).
      simpl. constructor; [| now constructor].
      apply IH; [exact Hs' | intros y Hy; apply Hin; now right].
    + replace (0 <=? cmp (snd x) (snd prev))%Z with true by (symmetry; apply Z.leb_le, Hge).
      simpl. repeat constructor.
Qed.

Lemma StronglySorted_app_In {E : Type} (R : E -> E -> Prop) (l1 l2 : list E) (x y : E) :
  StronglySorted R (l1 ++ l2)%list -> In x l1 -> In y l2 -> R x y.
Proof.
  induction l1 as [|z l1 IH]; simpl; intros Hs Hx Hy; [destruct Hx |].
  apply StronglySorted_inv in Hs as [Hs Hz]. destruct Hx as [-> | Hx]; [| auto].
  rewrite List.Forall_forall in Hz. apply Hz, in_or_app. now right.
Qed.

Lemma V8_sort_stablyBefore (nl : list (nat * A)) :
  StronglySorted later nl -> (forall x, In x nl -> In (snd x) l) ->
  StronglySorted before (V8.sort compare nl) /\ Permutation (V8.sort compare nl) nl.
Proof.
  intros Hs Hin. destruct nl as [|x0 [|x1 rest]].
  - split; constructor.
  - split; [repeat constructor | reflexivity].
  - unfold V8.sort, V8.countAndMakeRun.
    set (isD := (cmp (snd x1) (snd x0) <? 0)%Z).
    set (k := V8.continues compare isD x1 rest).
    assert (Hk : k <= length rest) by apply continues_le.
    set (run := x0 :: x1 :: take k rest).
    assert (Hrun : take (2 + k) (x0 :: x1 :: rest) = run) by reflexivity.
    assert (Hrest : drop (2 + k) (x0 :: x1 :: rest) = drop k rest) by reflexivity.
    assert (Hlen : length run = 2 + k) by (unfold run; simpl; rewrite length_take_le; lia).
    assert (Hnl : x0 :: x1 :: rest = (run ++ drop k rest)%list).
    { unfold run. simpl. now rewrite take_drop. }
    rewrite Hnl in Hs.
    pose proof Hs as Hs1. rewrite <- Hnl in Hs1.
    pose proof Hs1 as Hs2. apply StronglySorted_inv in Hs2 as [Hs2 Hx0].
    apply List.Forall_cons_iff in Hx0 as [Hx01 _].
    pose proof (earlier_or_later x0 x1 (Hin _ (or_introl eq_refl))
                  (Hin _ (or_intror (or_introl eq_refl))) Hx01) as Hd. fold isD in Hd.
    assert (Hin1 : forall x, In x (x1 :: rest) -> In (snd x) l) by (intros x Hx; apply Hin; now right).
    assert (Hsorted : exists sorted,
              (let '(runLength, workArray) :=
                 ((2 + k)%nat,
                  if isD then (rev (take (2 + k) (x0 :: x1 :: rest))
                               ++ drop (2 + k) (x0 :: x1 :: rest))%list
                  else x0 :: x1 :: rest) in
               V8.binaryInsertionSort compare (take runLength workArray)
                 (drop runLength workArray))
              = V8.binaryInsertionSort compare sorted (drop k rest)
              /\ StronglySorted before sorted /\ Permutation sorted run).
    { destruct isD eqn:E.
      - exists (rev run). rewrite Hrun, Hrest. cbn beta iota.
        rewrite take_app_length', drop_app_length' by (rewrite length_rev; symmetry; exact Hlen).
        split; [reflexivity |]. split; [| symmetry; apply Permutation_rev].
        apply (StronglySorted_rev (fun x y => before y x)).
        apply Sorted_StronglySorted.
        + intros x y z H1 H2. now apply (before_trans cmp l z y x Hc).
        + unfold run. constructor; [| now constructor].
          unfold k. now apply run_descending.
      - exists run. cbn beta iota. rewrite Hrun, Hrest.
        split; [reflexivity |]. split; [| reflexivity].
        apply Sorted_StronglySorted; [exact before_Transitive |].
        unfold run. constructor; [| now constructor].
        unfold k. now apply run_ascending. }
    destruct Hsorted as (sorted & -> & Hsorted & Hperm). split.
    + apply binaryInsertionSort_sorted.
      * exact Hsorted.
      * eapply StronglySorted_tail, Hs.
      * intros x y Hx Hy. apply (StronglySorted_app_In _ _ _ _ _ Hs); [| exact Hy].
        eapply Permutation_in; [exact Hperm | exact Hx].
      * intros x Hx. apply Hin. rewrite Hnl. apply in_app_iff in Hx as [Hx | Hx].
        -- apply in_or_app. left. eapply Permutation_in; [exact Hperm | exact Hx].
        -- apply in_or_app. now right.
    + rewrite binaryInsertionSort_perm, Hperm. now rewrite Hnl.
Qed.

(** Under a consistent comparator the sort of V8 returns the array of the
    embedding. *)
Lemma V8_sort_consistent : V8.sort cmp l = Array_sort cmp l.
Proof.
  transitivity (List.map snd (V8.sort compare (Spec.numbered l))).
  { rewrite <- (V8_sort_map snd cmp). now rewrite numbered_snd. }
  transitivity (List.map snd (Array_sort compare (Spec.numbered l))).
  2: { rewrite <- (Array_sort_map snd cmp). now rewrite numbered_snd. }
  f_equal.
  destruct (V8_sort_stablyBefore (Spec.numbered l)) as [Hs Hp].
  { apply occursBefore_sorted. intros x y. apply numbered_occursBefore. }
  { intros x. apply numbered_In. }
  apply stable_sort_unique; [exact Hc | exact Hp | |].
  - apply occursBefore_sorted. intros x y Hxy.
    destruct (StronglySorted_occursBefore _ _ _ _ Hs Hxy) as (_ & _ & H). lia.
  - intros x y Hxy E.
    destruct (StronglySorted_occursBefore _ _ _ _ Hs Hxy) as (_ & _ & [H | [_ H]]); [lia | exact H].
Qed.

End V8Sorted.

Section StabilityProperties.
Context `{B : Builtins}.

Lemma consistentOn_flip (sortColumn : SortColumn) (sortDirection : SortDirection)
    (l : list Policy.t) :
  Spec.consistentOn (ViewPolicies.comparator sortColumn asc) l ->
  Spec.consistentOn (ViewPolicies.comparator sortColumn sortDirection) l.
Proof.
  destruct sortDirection; [auto |]. intros [Hanti Htrans]. split.
  - intros a b Ha Hb. rewrite !(comparator_flip sortColumn asc).
    pose proof (Hanti _ _ Ha Hb). pose proof (Hanti _ _ Hb Ha). simpl. lia.
  - intros a b c Ha Hb Hc. rewrite !(comparator_flip sortColumn asc). simpl.
    pose proof (Hanti _ _ Ha Hb). pose proof (Hanti _ _ Hb Ha).
    pose proof (Hanti _ _ Hb Hc). pose proof (Hanti _ _ Hc Hb).
    pose proof (Hanti _ _ Ha Hc). pose proof (Hanti _ _ Hc Ha).
    pose proof (Htrans _ _ _ Hc Hb Ha). lia.
Qed.

(** The comparator is consistent under a text key on every list, and under
    a date key on every list whose present values are dates. *)
Lemma consistentOn_text (sortColumn : SortColumn) (sortDirection : SortDirection)
    (l : list Policy.t) :
  Spec.isTextColumn sortColumn ->
  Spec.consistentOn (ViewPolicies.comparator sortColumn sortDirection) l.
Proof.
  intros Hcol. apply consistentOn_flip. split.
  - intros a b _ _. rewrite (comparator_antisym sortColumn asc a b). lia.
  - intros a b c _ _ _.
    destruct (comparator_text sortColumn a b Hcol) as (s & t & Hs & Ht & ->).
    destruct (comparator_text sortColumn b c Hcol) as (t' & u & Ht' & Hu & ->).
    destruct (comparator_text sortColumn a c Hcol) as (s' & u' & Hs' & Hu' & ->).
    assert (t' = t) by congruence. assert (s' = s) by congruence.
    assert (u' = u) by congruence. subst.
    destruct (String.ltb s t) eqn:Hst.
    + destruct (String.ltb t u) eqn:Htu.
      * rewrite (string_ltb_trans s t u Hst Htu). lia.
      * destruct (String.ltb u t) eqn:Hut; [lia |].
        rewrite <- (string_ltb_total t u Htu Hut), Hst. lia.
    + destruct (String.ltb t s) eqn:Hts; [lia |].
      rewrite (string_ltb_total s t Hst Hts). tauto.
Qed.

Lemma consistentOn_dates (sortColumn : SortColumn) (sortDirection : SortDirection)
    (l : list Policy.t) :
  Spec.isDateColumn sortColumn -> Spec.validKeys sortColumn l ->
  Spec.consistentOn (ViewPolicies.comparator sortColumn sortDirection) l.
Proof.
  intros Hcol Hv. apply consistentOn_flip. split.
  - intros a b _ _. rewrite (comparator_antisym sortColumn asc a b). lia.
  - intros a b c Ha Hb Hc. rewrite !comparator_valid by auto. simpl.
    destruct (Z.ltb_spec (Spec.timeKey sortColumn a) (Spec.timeKey sortColumn b));
      destruct (Z.ltb_spec (Spec.timeKey sortColumn b) (Spec.timeKey sortColumn a));
      destruct (Z.ltb_spec (Spec.timeKey sortColumn b) (Spec.timeKey sortColumn c));
      destruct (Z.ltb_spec (Spec.timeKey sortColumn c) (Spec.timeKey sortColumn b));
      destruct (Z.ltb_spec (Spec.timeKey sortColumn a) (Spec.timeKey sortColumn c));
      destruct (Z.ltb_spec (Spec.timeKey sortColumn c) (Spec.timeKey sortColumn a)); lia.
Qed.

(** C9, as the code has it. When the comparator orders the policies shown
    consistently, the sorted list is in the order of the key and two
    policies that compare equal under the key come out in the order of
    their positions before the sort; this is the only arrangement of the
    policies that is sorted and keeps ties in place, so every stable sort
    returns it, and it is the array the sort of V8 returns. *)
Theorem sort_stable (f : ViewPolicies.Filters) (sortColumn : SortColumn)
    (sortDirection : SortDirection) (policies : list Policy.t) :
  let compare := ViewPolicies.comparator sortColumn sortDirection in
  let shown := List.filter (ViewPolicies.filterPredicate f) policies in
  let sorted := Array_sort (fun x y => compare (snd x) (snd y)) (Spec.numbered shown) in
  Spec.consistentOn compare shown ->
  List.map snd sorted = ViewPolicies.filteredAndSortedPolicies f sortColumn sortDirection policies
  /\ StronglySorted (fun a b => (compare a b <= 0)%Z)
       (ViewPolicies.filteredAndSortedPolicies f sortColumn sortDirection policies)
  /\ (forall i j a b,
        i < j -> shown !! i = Some a -> shown !! j = Some b -> compare a b = 0%Z ->
        Spec.precedes (i, a) (j, b) sorted)
  /\ (forall other,
        Permutation other (Spec.numbered shown) ->
        StronglySorted (fun x y => (compare (snd x) (snd y) <= 0)%Z) other ->
        (forall x y, Spec.occursBefore x y other -> compare (snd x) (snd y) = 0%Z ->
                     fst x < fst y) ->
        other = sorted)
  /\ V8.sort compare shown
     = ViewPolicies.filteredAndSortedPolicies f sortColumn sortDirection policies.
Proof.
  intros compare shown sorted Hc. unfold ViewPolicies.filteredAndSortedPolicies.
  fold shown. fold compare. split; [| split; [| split; [| split]]].
  - unfold sorted. now rewrite <- Array_sort_map, numbered_snd.
  - now apply Array_sort_consistent.
  - intros i j a b Hij Ha Hb Htie. apply occursBefore_precedes, Array_sort_stable.
    + apply occursBefore_precedes. exists i, j. auto using numbered_lookup.
    + simpl. rewrite Htie. lia.
  - intros other Hp Hs Hst. now apply stable_sort_unique.
  - now apply V8_sort_consistent.
Qed.

End StabilityProperties.

(** ** The theorems at the sample documents *)

(** C8, where the claim as stated fails: two policies with the same policy
    number come out in the same order in both directions, so the flipped
    sort is not the reverse of the previous one. *)
Lemma sort_toggle_ties :
  let before :=
    ViewPolicies.filteredAndSortedPolicies (B := refBuiltins) Sample.noFilters
      ColPolicyNumber asc [Sample.t1; Sample.t2] in
  let after :=
    ViewPolicies.filteredAndSortedPolicies (B := refBuiltins) Sample.noFilters
      ColPolicyNumber desc [Sample.t1; Sample.t2] in
  before = [Sample.t1; Sample.t2] /\ after = [Sample.t1; Sample.t2] /\ after <> rev before.
Proof.
  split; [reflexivity |]. split; [reflexivity |].
  intros H. apply (f_equal (List.map Policy.id)) in H. discriminate.
Qed.

Lemma sample_noTies : Spec.noTies (B := refBuiltins) ColPolicyNumber Sample.policies.
Proof.
  unfold Spec.noTies, Sample.policies.
  repeat (constructor; [repeat (constructor; [discriminate |]); constructor |]).
  constructor.
Qed.

Lemma sample_transitiveOn :
  Spec.transitiveOn (B := refBuiltins) ColPolicyNumber Sample.policies.
Proof. apply transitiveOn_text. now left. Qed.

Lemma sort_toggle_witness :
  Spec.noTies (B := refBuiltins) ColPolicyNumber Sample.policies
  /\ Spec.transitiveOn (B := refBuiltins) ColPolicyNumber Sample.policies
  /\ ViewPolicies.filteredAndSortedPolicies (B := refBuiltins) Sample.noFilters
       ColPolicyNumber desc Sample.policies
     = rev [Sample.p2; Sample.p1; Sample.p3].
Proof.
  split; [exact sample_noTies |]. split; [exact sample_transitiveOn |].
  destruct (sort_toggle (B := refBuiltins) Sample.noFilters ColPolicyNumber asc Sample.policies)
    as (_ & _ & _ & H).
  exact (H sample_noTies sample_transitiveOn).
Defined.

Lemma sort_stable_witness :
  Spec.consistentOn (ViewPolicies.comparator (B := refBuiltins) ColPolicyNumber desc)
    [Sample.t1; Sample.t2]
  /\ ViewPolicies.comparator (B := refBuiltins) ColPolicyNumber desc Sample.t1 Sample.t2 = 0%Z
  /\ Spec.precedes (0, Sample.t1) (1, Sample.t2)
       (Array_sort
          (fun x y => ViewPolicies.comparator (B := refBuiltins) ColPolicyNumber desc
                        (snd x) (snd y))
          (Spec.numbered [Sample.t1; Sample.t2])).
Proof.
  assert (Hc : Spec.consistentOn
                 (ViewPolicies.comparator (B := refBuiltins) ColPolicyNumber desc)
                 [Sample.t1; Sample.t2]).
  { apply consistentOn_text. now left. }
  split; [exact Hc |]. split; [reflexivity |].
  destruct (sort_stable (B := refBuiltins) Sample.noFilters ColPolicyNumber desc
              [Sample.t1; Sample.t2] Hc) as (_ & _ & H & _ & _).
  apply (H 0 1 Sample.t1 Sample.t2); [lia | reflexivity ..].
Defined.

(** C9, where the claim as stated fails: a policy without totalAmount
    compares equal to every policy under that key, so the comparator is not
    consistent, and the sort of V8 moves a policy of amount 20 from behind
    it to before it, although the two compare equal. *)
Lemma sort_stable_missing_amount :
  let compare := ViewPolicies.comparator (B := refBuiltins) ColTotalAmount asc in
  let policies := [Sample.priced30; Sample.priced20; Sample.unpriced; Sample.priced20b] in
  List.filter (ViewPolicies.filterPredicate (B := refBuiltins) Sample.noFilters) policies
  = policies
  /\ compare Sample.unpriced Sample.priced20b = 0%Z
  /\ V8.sort compare policies
     = [Sample.priced20; Sample.priced20b; Sample.priced30; Sample.unpriced]
  /\ ~ Spec.consistentOn compare policies.
Proof.
  split; [reflexivity |]. split; [reflexivity |]. split; [reflexivity |].
  intros [_ Htrans].
  assert (H : (ViewPolicies.comparator (B := refBuiltins) ColTotalAmount asc
                 Sample.priced30 Sample.priced20 <= 0)%Z).
  { apply (Htrans _ Sample.unpriced _); [simpl; auto .. | |]; vm_compute; discriminate. }
  vm_compute in H. now apply H.
Qed.

(** C10, where the claim as stated fails: with a policy whose validUntil is
    not a date between them, the policy that lacks validUntil stays after
    the policy whose validUntil is a positive timestamp in the ascending
    sort. *)
Lemma sort_missing_dates_invalid :
  let sorted :=
    Array_sort (ViewPolicies.comparator (B := refBuiltins) ColValidUntil asc)
      [Sample.dated; Sample.misdated; Sample.undated] in
  Spec.positiveKey (B := refBuiltins) ColValidUntil Sample.dated
  /\ Spec.lacksKey (B := refBuiltins) ColValidUntil Sample.undated
  /\ sorted !! 0 = Some Sample.dated
  /\ sorted !! 2 = Some Sample.undated.
Proof.
  split; [| repeat split].
  eexists. split; [reflexivity | reflexivity].
Qed.

Lemma sort_missing_dates_witness :
  Spec.isDateColumn ColValidUntil
  /\ Spec.validKeys (B := refBuiltins) ColValidUntil Sample.policies
  /\ Array_sort (ViewPolicies.comparator (B := refBuiltins) ColValidUntil asc) Sample.policies
     = [Sample.p3; Sample.p1; Sample.p2]
  /\ (forall i j m p,
        [Sample.p3; Sample.p1; Sample.p2] !! i = Some m ->
        [Sample.p3; Sample.p1; Sample.p2] !! j = Some p ->
        Spec.lacksKey (B := refBuiltins) ColValidUntil m ->
        Spec.positiveKey (B := refBuiltins) ColValidUntil p -> i < j).
Proof.
  assert (Hcol : Spec.isDateColumn ColValidUntil) by (right; right; reflexivity).
  assert (Hv : Spec.validKeys (B := refBuiltins) ColValidUntil Sample.policies).
  { intros a Ha. simpl in Ha. destruct Ha as [<- | [<- | [<- | []]]]; discriminate. }
  split; [exact Hcol |]. split; [exact Hv |]. split; [reflexivity |].
  destruct (sort_missing_dates (B := refBuiltins) ColValidUntil Sample.policies Hcol Hv)
    as (_ & H & _).
  exact H.
Defined.

(** * Properties of the rest of the application *)

(** ** Sorting by a date, newest first *)

Lemma ForallOrdPairs_all {A : Type} (R : A -> A -> Prop) (l : list A) :
  (forall x y, R x y) -> ForallOrdPairs R l.
Proof.
  intros H. induction l as [|x l IH]; constructor; [| exact IH].
  apply List.Forall_forall. auto.
Qed.

Lemma Array_sort_ext {A : Type} (cmp cmp' : A -> A -> Z) (l : list A) :
  (forall x y, cmp x y = cmp' x y) -> Array_sort cmp l = Array_sort cmp' l.
Proof.
  intros H. induction l as [|x l IH]; simpl; [reflexivity |].
  rewrite IH. generalize (Array_sort cmp' l). intros s.
  induction s as [|y s IHs]; simpl; [reflexivity |]. now rewrite H, IHs.
Qed.

(** A sort whose comparator is the difference of a key, second argument
    first, puts the greater keys first. *)
Lemma Array_sort_by_key {A : Type} (key : A -> Z) (l : list A) :
  StronglySorted (fun a b => (key b <= key a)%Z) (Array_sort (fun a b => (key b - key a)%Z) l).
Proof.
  apply Array_sort_sorted.
  - intros x y _ _ H. lia.
  - apply ForallOrdPairs_all. intros x y H. lia.
  - intros x y z _ _ _ H1 H2. lia.
Qed.

(** X1. The policies state after a snapshot holds the documents of the
    snapshot, each once, the later created first, a document without
    createdAt counting as created at time 0: it comes after every document
    created after 1970. Documents created at the same time keep the order
    of the snapshot. *)
Theorem onPoliciesSnapshot_newest_first (docs : list Policy.t) :
  let policies := Listeners.onPoliciesSnapshot docs in
  Permutation policies docs
  /\ StronglySorted
       (fun a b => (Listeners.createdAtOrZero b <= Listeners.createdAtOrZero a)%Z) policies
  /\ (forall a b, Spec.occursBefore a b docs ->
        Listeners.createdAtOrZero a = Listeners.createdAtOrZero b ->
        Spec.occursBefore a b policies)
  /\ (forall i j a b ts,
        policies !! i = Some a -> policies !! j = Some b ->
        Policy.createdAt a = None -> Policy.createdAt b = Some ts -> (0 < toDate ts)%Z ->
        j < i).
Proof.
  unfold Listeners.onPoliciesSnapshot, Listeners.comparator.
  assert (Hs := Array_sort_by_key Listeners.createdAtOrZero docs).
  split; [| split; [| split]].
  - apply Array_sort_perm.
  - exact Hs.
  - intros a b Hab Hkey. apply Array_sort_stable; [exact Hab | lia].
  - intros i j a b ts Hi Hj Ha Hb Hpos.
    destruct (Nat.lt_trichotomy i j) as [Hlt | [-> | Hgt]]; [| congruence | exact Hgt].
    pose proof (StronglySorted_lookup _ _ i j a b Hs Hlt Hi Hj) as H.
    unfold Listeners.createdAtOrZero in H. rewrite Ha, Hb in H. lia.
Qed.

(** ** The tables of ledger entries *)


Section LedgerTableProperties.
Context `{B : Builtins} `{F : Formatting}.


(** A row is made from an entry unless its date is present and cannot be
    read or its amount is a string. *)
Lemma row_Normal (last : LedgerEntry.t -> LedgerTable.LastCell) (item : LedgerEntry.t)
    (r : LedgerTable.Row) :
  LedgerTable.row last item = Normal r ->
  LedgerTable.key r = LedgerEntry.id item
  /\ LedgerTable.type r = LedgerEntry.type item
  /\ formatDate (LedgerEntry.date item) = Normal (LedgerTable.date r)
  /\ LedgerTable.amountCell (LedgerEntry.amount item) = Normal (LedgerTable.amount r)
  /\ LedgerTable.lastCell r = last item.
Proof.
  unfold LedgerTable.row.
  destruct (formatDate (LedgerEntry.date item)) as [d|]; simpl; [| discriminate].
  destruct (LedgerTable.amountCell (LedgerEntry.amount item)) as [a|]; simpl; [| discriminate].
  intros [= <-]. simpl. auto.
Qed.



Lemma Array_map_Normal {A C : Type} (f : A -> Completion C) (l : list A) (rows : list C) :
  LedgerTable.Array_map f l = Normal rows <-> Forall2 (fun x y => f x = Normal y) l rows.
Proof.
  revert rows. induction l as [|x l IH]; simpl; intros rows.
  - split; [intros [= <-]; constructor | intros H; now inversion H].
  - destruct (f x) as [y|e] eqn:E; simpl.
    + destruct (LedgerTable.Array_map f l) as [ys|e] eqn:E2; simpl.
      * split.
        -- intros [= <-]. constructor; [exact E | now apply IH].
        -- intros H. inversion H as [|? y' ? ys' Hy Hys]; subst.
           apply IH in Hys. congruence.
      * split; [discriminate |].
        intros H. inversion H as [|? y' ? ys' Hy Hys]; subst.
        apply IH in Hys. discriminate.
    + split; [discriminate |]. intros H. inversion H; congruence.
Qed.





End LedgerTableProperties.

(** X3. What the expanded row of a policy lists is what deleting the
    policy removes: when the rows under the policy render, and the user has
    confirmed and the store has deleted the policy, the other calls of
    handleDeletePolicy are the deletions of the entries of these rows, one
    for each row. *)
Theorem linked_rows_are_the_cascade `{B : Builtins} `{F : Formatting}
    (storeError : StoreRequest -> option string)
    (env : App.Env) (paymentsExpenses : list LedgerEntry.t) (answer : string -> bool)
    (policy : Policy.t) (first : StoreRequest) (others : list StoreRequest)
    (rows : list LedgerTable.Row) :
  App.requests
    (App.handleDeletePolicy storeError env paymentsExpenses answer
       (Policy.id policy) (Policy.policyNumber policy)) = first :: others ->
  storeError first = None ->
  LedgerTable.linkedRows paymentsExpenses policy = Normal rows ->
  first = deleteDoc (App.policiesPath env) (Policy.id policy)
  /\ Permutation others
       (List.map (fun r => App.ledgerDelete env (LedgerTable.key r)) rows).
Proof.
  unfold App.handleDeletePolicy.
  destruct (negb (App.db env) || negb (truthy (App.userId env))); [discriminate |].
  match goal with |- context [answer ?s] => destruct (answer s) end; [| discriminate].
  destruct (storeError (deleteDoc (App.policiesPath env) (Policy.id policy))) eqn:E.
  - intros [= <- <-] H. congruence.
  - intros [= <- <-] _ Hrows. split; [reflexivity |].
    apply Array_map_Normal in Hrows.
    assert (Hkeys : List.map (fun r => App.ledgerDelete env (LedgerTable.key r)) rows
                    = List.map (fun e => App.ledgerDelete env (LedgerEntry.id e))
                        (LedgerTable.linkedEntries paymentsExpenses policy)).
    { induction Hrows as [|item r items rows' Hr _ IH]; simpl; [reflexivity |].
      apply row_Normal in Hr as (-> & _). now rewrite IH. }
    rewrite Hkeys. unfold LedgerTable.linkedEntries, App.ledgerDelete.
    apply Permutation_map. symmetry. apply Array_sort_perm.
Qed.

Lemma linked_rows_are_the_cascade_witness :
  exists rows,
    LedgerTable.linkedRows (B := refBuiltins) (F := refFormatting)
      Sample.paymentsExpenses Sample.p1 = Normal rows
    /\ List.map LedgerTable.key rows = ["e2"; "e1"]
    /\ List.map LedgerTable.date rows = ["2024-06-20"; "2024-03-02"]
    /\ App.requests
         (App.handleDeletePolicy Sample.accepts Sample.signedInEnv Sample.paymentsExpenses
            Sample.yes (Policy.id Sample.p1) (Policy.policyNumber Sample.p1))
       = [deleteDoc (App.policiesPath Sample.signedInEnv) "p1";
          App.ledgerDelete Sample.signedInEnv "e1"; App.ledgerDelete Sample.signedInEnv "e2"]
    /\ Permutation
         [App.ledgerDelete Sample.signedInEnv "e1"; App.ledgerDelete Sample.signedInEnv "e2"]
         (List.map (fun r => App.ledgerDelete Sample.signedInEnv (LedgerTable.key r)) rows).
Proof.
  assert (H : exists rows,
            LedgerTable.linkedRows (B := refBuiltins) (F := refFormatting)
              Sample.paymentsExpenses Sample.p1 = Normal rows
            /\ List.map LedgerTable.key rows = ["e2"; "e1"]
            /\ List.map LedgerTable.date rows = ["2024-06-20"; "2024-03-02"]).
  { eexists. split; [vm_compute; reflexivity |]. split; reflexivity. }
  destruct H as (rows & Hr & Hk & Hd).
  exists rows. split; [exact Hr |]. split; [exact Hk |]. split; [exact Hd |].
  split; [reflexivity |].
  exact (proj2 (linked_rows_are_the_cascade (B := refBuiltins) (F := refFormatting)
                  Sample.accepts Sample.signedInEnv Sample.paymentsExpenses Sample.yes
                  Sample.p1 _ _ rows eq_refl eq_refl Hr)).
Defined.

(** ** What no handler does *)

Section HandlerSafety.
Context `{B : Builtins} `{F : Formatting}.
Variable storeFailure : Call.t -> option Failure.

Lemma batchUpdates_calls (env : App.Env) (updatedCustomer : CustomerManagement.Row)
    (policies : list Policy.t) (c : Call.t) :
  In c (fst (Handlers.batchUpdates storeFailure env updatedCustomer policies)) ->
  exists policy, In policy policies
    /\ Handlers.isCustomerOf updatedCustomer policy = true
    /\ c = Handlers.customerUpdateOf env updatedCustomer policy.
Proof.
  induction policies as [|p l IH]; simpl; [intros [] |].
  destruct (Handlers.isCustomerOf updatedCustomer p) eqn:Hp.
  - destruct (storeFailure (Handlers.customerUpdateOf env updatedCustomer p)) as [[m|m]|];
      [intros [] | |];
      destruct (Handlers.batchUpdates storeFailure env updatedCustomer l) as [made error];
      simpl in *; (intros [<- | Hc]; [eauto | destruct (IH Hc) as (q & Hq & H); eauto]).
  - intros Hc. destruct (IH Hc) as (q & Hq & H). eauto.
Qed.

(** X4. Without a database or a signed-in user no handler calls the store
    or asks for a confirmation: each of the six opens its error modal and
    returns, the two forms keeping what was typed; and the two listeners
    leave the lists of policies and of ledger entries empty. *)
Theorem signed_out_handlers_make_no_call (env : App.Env) (st : Store.t) (form : PolicyForm.t)
    (updatedPolicy : Policy.t) (policies : list Policy.t)
    (updatedCustomer : CustomerManagement.Row) (entryForm : PaymentExpenseForm.t)
    (paymentsExpenses : list LedgerEntry.t) (answer : string -> bool)
    (policyId policyNumber itemId itemType : string) (itemAmount : jsval) :
  App.db env = false \/ truthy (App.userId env) = false ->
  let storeError := Handlers.storeError storeFailure in
  let silent (out : Handlers.Outcome) :=
    Handlers.calls out = [] /\ Handlers.confirmPrompt out = None
    /\ exists text, Handlers.modalMessage out = Some text
                    /\ String.prefix "Error: Database not ready" text = true in
  silent (Handlers.ofOutcome (fst (App.handleAddPolicy storeError env form)))
  /\ snd (App.handleAddPolicy storeError env form) = form
  /\ silent (Handlers.ofOutcome (App.handleUpdatePolicy storeError env updatedPolicy))
  /\ silent (Handlers.ofOutcome
               (App.handleDeletePolicy storeError env paymentsExpenses answer
                  policyId policyNumber))
  /\ silent (Handlers.handleUpdateCustomer storeFailure env policies updatedCustomer)
  /\ silent (fst (Handlers.handleAddPaymentExpense storeFailure env entryForm))
  /\ snd (Handlers.handleAddPaymentExpense storeFailure env entryForm) = entryForm
  /\ (exists out,
        Handlers.handleDeletePaymentExpense storeFailure env answer itemId itemType itemAmount
        = Normal out /\ silent out)
  /\ Listeners.policies env st = []
  /\ Listeners.paymentsExpenses env st = [].
Proof.
  intros Hout storeError silent.
  assert (Hguard : negb (App.db env) || negb (truthy (App.userId env)) = true).
  { destruct Hout as [-> | ->]; [reflexivity | apply orb_true_r]. }
  unfold App.handleAddPolicy, App.handleUpdatePolicy, App.handleDeletePolicy,
    Handlers.handleUpdateCustomer, Handlers.handleAddPaymentExpense,
    Handlers.handleDeletePaymentExpense, Listeners.policies, Listeners.paymentsExpenses.
  rewrite Hguard. simpl.
  repeat split; try (eexists; split; reflexivity).
  eexists. split; [reflexivity |]. repeat split. eexists; split; reflexivity.
Qed.

(** X5. Every call of every handler is on one of the two collections of
    the signed-in user: the policy form and the customer form write to
    [artifacts/<project>/users/<user>/policies] only, the ledger form and
    the deletion of an entry to [.../payments_expenses] only, and the
    deletion of a policy to the two. *)
Theorem calls_stay_in_the_user_collections (env : App.Env) (form : PolicyForm.t)
    (updatedPolicy : Policy.t) (policies : list Policy.t)
    (updatedCustomer : CustomerManagement.Row) (entryForm : PaymentExpenseForm.t)
    (paymentsExpenses : list LedgerEntry.t) (answer : string -> bool)
    (policyId policyNumber itemId itemType : string) (itemAmount : jsval) :
  let storeError := Handlers.storeError storeFailure in
  let user := ("artifacts/" ++ App.projectId env ++ "/users/" ++ default "" (App.userId env))%string in
  let onPolicies (c : Call.t) := Call.collection c = (user ++ "/policies")%string in
  let onLedger (c : Call.t) := Call.collection c = (user ++ "/payments_expenses")%string in
  Forall onPolicies (Handlers.calls (Handlers.ofOutcome (fst (App.handleAddPolicy storeError env form))))
  /\ Forall onPolicies
       (Handlers.calls (Handlers.ofOutcome (App.handleUpdatePolicy storeError env updatedPolicy)))
  /\ Forall (fun c => onPolicies c \/ onLedger c)
       (Handlers.calls
          (Handlers.ofOutcome
             (App.handleDeletePolicy storeError env paymentsExpenses answer
                policyId policyNumber)))
  /\ Forall onPolicies
       (Handlers.calls (Handlers.handleUpdateCustomer storeFailure env policies updatedCustomer))
  /\ Forall onLedger
       (Handlers.calls (fst (Handlers.handleAddPaymentExpense storeFailure env entryForm)))
  /\ (forall out,
        Handlers.handleDeletePaymentExpense storeFailure env answer itemId itemType itemAmount
        = Normal out -> Forall onLedger (Handlers.calls out)).
Proof.
  intros storeError user onPolicies onLedger.
  split; [| split; [| split; [| split; [| split]]]].
  - unfold App.handleAddPolicy.
    destruct (_ || _); [constructor |].
    destruct (_ || _); [constructor |].
    destruct (storeError _); simpl; repeat constructor.
  - unfold App.handleUpdatePolicy.
    destruct (_ || _); [constructor |].
    destruct (Policy.customer updatedPolicy); [| constructor].
    destruct (storeError _); simpl; repeat constructor.
  - unfold App.handleDeletePolicy.
    destruct (_ || _); [constructor |].
    match goal with |- context [answer ?s] => destruct (answer s) end; [| constructor].
    destruct (storeError _); simpl; [repeat constructor; now left |].
    constructor; [now left |].
    apply List.Forall_forall. intros c Hc.
    apply in_map_iff in Hc as (r & <- & Hr). apply in_map_iff in Hr as (e & <- & _).
    now right.
  - unfold Handlers.handleUpdateCustomer.
    destruct (_ || _); [constructor |].
    destruct (Handlers.batchUpdates storeFailure env updatedCustomer policies)
      as [made error] eqn:E.
    simpl. apply List.Forall_forall. intros c Hc.
    destruct (batchUpdates_calls env updatedCustomer policies c) as (p & _ & _ & ->).
    { now rewrite E. }
    reflexivity.
  - unfold Handlers.handleAddPaymentExpense.
    destruct (_ || _); [constructor |].
    destruct (_ || _); [constructor |].
    destruct (storeFailure _); simpl; repeat constructor.
  - intros out. unfold Handlers.handleDeletePaymentExpense.
    destruct (_ || _); [intros [= <-]; constructor |].
    destruct (Handlers.amountText itemAmount) as [amount|]; simpl; [| discriminate].
    match goal with |- context [answer ?s] => destruct (answer s) end;
      intros [= <-]; simpl; repeat constructor.
Qed.

End HandlerSafety.

Lemma signed_out_handlers_make_no_call_witness :
  truthy (App.userId Sample.signedOutEnv) = false
  /\ Handlers.calls
       (Handlers.handleUpdateCustomer (fun _ => None) Sample.signedOutEnv Sample.policies
          (CustomerManagement.newRow (Sample.customer "Ana" "Ivanova" "A1") "A1")) = [].
Proof.
  split; [reflexivity |].
  exact (proj1 (proj1 (proj2 (proj2 (proj2 (proj2
    (signed_out_handlers_make_no_call (B := refBuiltins) (F := refFormatting)
       (fun _ => None) Sample.signedOutEnv Sample.store Sample.form Sample.p1 Sample.policies
       (CustomerManagement.newRow (Sample.customer "Ana" "Ivanova" "A1") "A1")
       PaymentExpenseForm.cleared Sample.paymentsExpenses Sample.yes "p1" "PN-002" "e1"
       "Expense" (VNumber 40) (or_intror eq_refl)))))))).
Defined.

(** ** Updating a customer *)

Lemma Forall2_In_l {A C : Type} (P : A -> C -> Prop) (l : list A) (l' : list C) (x : A) :
  Forall2 P l l' -> In x l -> exists y, In y l' /\ P x y.
Proof.
  induction 1 as [|a c l l' Hac _ IH]; intros Hx; [destruct Hx |].
  destruct Hx as [-> | Hx]; [exists c; simpl; auto |].
  destruct (IH Hx) as (y & Hy & Hxy). exists y. simpl. auto.
Qed.

Lemma Forall2_In_r {A C : Type} (P : A -> C -> Prop) (l : list A) (l' : list C) (y : C) :
  Forall2 P l l' -> In y l' -> exists x, In x l /\ P x y.
Proof.
  induction 1 as [|a c l l' Hac _ IH]; intros Hy; [destruct Hy |].
  destruct Hy as [-> | Hy]; [exists a; simpl; auto |].
  destruct (IH Hy) as (x & Hx & Hxy). exists x. simpl. auto.
Qed.

Lemma NoDup_map_inj_In {A C : Type} (f : A -> C) (l : list A) (x y : A) :
  NoDup (List.map f l) -> In x l -> In y l -> f x = f y -> x = y.
Proof.
  induction l as [|z l IH]; simpl; [intros _ [] |].
  intros Hnd Hx Hy E. apply NoDup_cons in Hnd as [Hz Hnd].
  destruct Hx as [-> | Hx], Hy as [-> | Hy]; auto.
  - exfalso. apply Hz. rewrite E. apply list_elem_of_In, List.in_map, Hy.
  - exfalso. apply Hz. rewrite <- E. apply list_elem_of_In, List.in_map, Hx.
Qed.

Lemma filter_map_comm {A : Type} (f : A -> bool) (g : A -> A) (l : list A) :
  (forall x, f (g x) = f x) ->
  List.filter f (List.map g l) = List.map g (List.filter f l).
Proof.
  intros H. induction l as [|x l IH]; simpl; [reflexivity |].
  rewrite H. destruct (f x); simpl; congruence.
Qed.

Lemma reduce_add_map {A : Type} (f : A -> float) (g : A -> A) (l : list A) :
  (forall x, f (g x) = f x) -> reduce_add f (List.map g l) = reduce_add f l.
Proof.
  intros H. unfold reduce_add. generalize 0%float.
  induction l as [|x l IH]; intros acc; simpl; [reflexivity |]. now rewrite H, IH.
Qed.

Section DeriverConverse.
Context `{B : Builtins}.

(** The derivation returns only when no idNumber names a member of
    [Object.prototype]. *)
Lemma uniqueCustomers_Normal_own (P : list Policy.t) (m : gmap string CustomerManagement.Row) :
  CustomerManagement.uniqueCustomers P = Normal m -> Spec.ownKeysOnly P.
Proof.
  revert m. induction P as [|p P IH] using rev_ind; intros m Hm.
  - intros q k [].
  - rewrite uniqueCustomers_snoc in Hm.
    destruct (CustomerManagement.uniqueCustomers P) as [m0|] eqn:E0; [| discriminate].
    simpl in Hm. specialize (IH m0 eq_refl).
    intros q k Hq Hk. apply in_app_or in Hq as [Hq | [-> | []]]; [now apply (IH q) |].
    pose proof Hk as Hk'. apply customerId_Some in Hk' as (c & Hc & Hid & Hne).
    rewrite (reducer_key m0 q c k Hc Hid Hne) in Hm.
    destruct (uniqueCustomers_rows P IH) as (m1 & Hm1 & Hrows).
    rewrite E0 in Hm1. injection Hm1 as <-.
    destruct (m0 !! k) as [row|] eqn:Erow.
    + rewrite Hrows in Erow.
      assert (Hsome : is_Some (Spec.rowOf k P)) by (rewrite Erow; eauto).
      apply rowOf_is_Some in Hsome as (q' & Hq' & Hk''). now apply (IH q').
    + destruct (bool_decide (k ∈ CustomerManagement.Object_prototype)) eqn:D; [discriminate |].
      now apply bool_decide_eq_false in D.
Qed.

End DeriverConverse.

Section CustomerUpdateProperties.
Context `{B : Builtins} `{F : Formatting}.
Variable storeFailure : Call.t -> option Failure.
Variable serverTime : Timestamp.
Variable env : App.Env.

Lemma batchUpdates_made (updated : CustomerManagement.Row) (policies : list Policy.t) :
  (forall p m, In p policies ->
     storeFailure (Handlers.customerUpdateOf env updated p) <> Some (thrown m)) ->
  Handlers.batchUpdates storeFailure env updated policies
  = (List.map (Handlers.customerUpdateOf env updated)
       (List.filter (Handlers.isCustomerOf updated) policies), None).
Proof.
  induction policies as [|p l IH]; intros Hno; simpl; [reflexivity |].
  rewrite IH by (intros q m Hq; apply Hno; now right).
  destruct (Handlers.isCustomerOf updated p); [| reflexivity].
  destruct (storeFailure (Handlers.customerUpdateOf env updated p)) as [[m|m]|] eqn:E;
    try reflexivity.
  exfalso. apply (Hno p m); [now left | exact E].
Qed.

Lemma isCustomerOf_customerId (updated : CustomerManagement.Row) (p : Policy.t) :
  CustomerManagement.idNumber updated <> "" ->
  Handlers.isCustomerOf updated p
  = bool_decide (Spec.customerId p = Some (CustomerManagement.idNumber updated)).
Proof.
  intros Hne. unfold Handlers.isCustomerOf, Spec.customerId.
  destruct (Policy.customer p) as [c|]; [| reflexivity].
  destruct (Customer.idNumber c) as [k|]; [| reflexivity].
  destruct (String.eqb_spec k "") as [-> | Hk].
  - rewrite !bool_decide_eq_false_2; congruence.
  - reflexivity.
Qed.

Lemma execute_customer_update (updated : CustomerManagement.Row) (q : Policy.t)
    (st : Store.t) :
  Handlers.execute storeFailure serverTime env st (Handlers.customerUpdateOf env updated q)
  = match storeFailure (Handlers.customerUpdateOf env updated q) with
    | Some _ => st
    | None =>
        Handlers.updateWhere (Policy.id q)
          (Handlers.updatedCustomerOf (Handlers.customerFields updated)) st
    end.
Proof.
  unfold Handlers.execute. destruct (storeFailure _); [reflexivity |].
  unfold Handlers.customerUpdateOf. now rewrite String.eqb_refl.
Qed.

(** The policies after the updates of one customer: the six fields are
    written into the policies whose update the store carried out. *)
Lemma executeAll_customer_updates (updated : CustomerManagement.Row) (qs : list Policy.t)
    (st : Store.t) :
  Handlers.executeAll storeFailure serverTime env st
    (List.map (Handlers.customerUpdateOf env updated) qs)
  = {| Store.policies :=
         List.map
           (fun p =>
              if existsb
                   (fun q =>
                      bool_decide (storeFailure (Handlers.customerUpdateOf env updated q) = None)
                      && (Policy.id p =? Policy.id q)) qs
              then Handlers.updatedCustomerOf (Handlers.customerFields updated) p else p)
           (Store.policies st);
       Store.payments_expenses := Store.payments_expenses st |}.
Proof.
  unfold Handlers.executeAll. revert st. induction qs as [|q qs IH]; intros st; simpl.
  - rewrite List.map_id. now destruct st.
  - rewrite IH, execute_customer_update. clear IH.
    destruct (storeFailure (Handlers.customerUpdateOf env updated q)) eqn:E.
    + reflexivity.
    + unfold Handlers.updateWhere. simpl. f_equal. rewrite List.map_map.
      apply List.map_ext. intros p.
      destruct (Policy.id p =? Policy.id q) eqn:Eid; simpl; [| reflexivity].
      now destruct (existsb _ qs).
Qed.

Lemma batchUpdates_shape (updated : CustomerManagement.Row) (policies : list Policy.t) :
  exists qs, fst (Handlers.batchUpdates storeFailure env updated policies)
             = List.map (Handlers.customerUpdateOf env updated) qs
             /\ forall q, In q qs -> In q policies /\ Handlers.isCustomerOf updated q = true.
Proof.
  induction policies as [|p l (qs & IH & Hqs)]; simpl.
  - exists []. split; [reflexivity | intros q []].
  - destruct (Handlers.isCustomerOf updated p) eqn:Hp.
    + destruct (storeFailure (Handlers.customerUpdateOf env updated p)) as [[m|m]|].
      * exists []. split; [reflexivity | intros q []].
      * destruct (Handlers.batchUpdates storeFailure env updated l) as [made error].
        exists (p :: qs). simpl in *. rewrite IH. split; [reflexivity |].
        intros q [<- | Hq]; [auto | destruct (Hqs q Hq); auto].
      * destruct (Handlers.batchUpdates storeFailure env updated l) as [made error].
        exists (p :: qs). simpl in *. rewrite IH. split; [reflexivity |].
        intros q [<- | Hq]; [auto | destruct (Hqs q Hq); auto].
    + exists qs. split; [exact IH |]. intros q Hq. destruct (Hqs q Hq); auto.
Qed.

Lemma snapshot_map (h : Policy.t -> Policy.t) (docs : list Policy.t) :
  (forall p, Policy.createdAt (h p) = Policy.createdAt p) ->
  Listeners.onPoliciesSnapshot (List.map h docs)
  = List.map h (Listeners.onPoliciesSnapshot docs).
Proof.
  intros Hh. unfold Listeners.onPoliciesSnapshot. rewrite Array_sort_map.
  f_equal. apply Array_sort_ext. intros x y.
  unfold Listeners.comparator, Listeners.createdAtOrZero. now rewrite !Hh.
Qed.

Lemma dashboard_map (h : Policy.t -> Policy.t) (now : Z) (l : list Policy.t) :
  (forall p, Policy.totalAmount (h p) = Policy.totalAmount p) ->
  (forall p, Policy.commission (h p) = Policy.commission p) ->
  (forall p, Policy.paidByCustomer (h p) = Policy.paidByCustomer p) ->
  (forall p, Policy.paidToInsurer (h p) = Policy.paidToInsurer p) ->
  (forall p, Policy.validUntil (h p) = Policy.validUntil p) ->
  Dashboard.render now (List.map h l) = Dashboard.render now l.
Proof.
  intros Ha Hc Hpc Hpi Hv. unfold Dashboard.render.
  rewrite !filter_map_comm, !length_map by
    (try assumption; intros p; unfold Dashboard.isOverdue; now rewrite Hv).
  rewrite !reduce_add_map by (intros p; now rewrite ?Ha, ?Hc).
  reflexivity.
Qed.

Lemma report_map (h : Policy.t -> Policy.t) (startDate endDate : string)
    (P : list Policy.t) (L : list LedgerEntry.t) :
  (forall p, Policy.totalAmount (h p) = Policy.totalAmount p) ->
  (forall p, Policy.commission (h p) = Policy.commission p) ->
  (forall p, Policy.paidToInsurer (h p) = Policy.paidToInsurer p) ->
  (forall p, Policy.createdAt (h p) = Policy.createdAt p) ->
  let r := FinancialReports.render startDate endDate P L in
  let r' := FinancialReports.render startDate endDate (List.map h P) L in
  FinancialReports.filteredPoliciesReport r'
  = List.map h (FinancialReports.filteredPoliciesReport r)
  /\ FinancialReports.filteredPaymentsExpenses r' = FinancialReports.filteredPaymentsExpenses r
  /\ FinancialReports.totalIncome r' = FinancialReports.totalIncome r
  /\ FinancialReports.totalCommission r' = FinancialReports.totalCommission r
  /\ FinancialReports.totalExpenses r' = FinancialReports.totalExpenses r
  /\ FinancialReports.commissionNotPaidToInsurer r' = FinancialReports.commissionNotPaidToInsurer r
  /\ FinancialReports.totalUnpaidToInsurer r' = FinancialReports.totalUnpaidToInsurer r
  /\ FinancialReports.amountDueToInsurer r' = FinancialReports.amountDueToInsurer r.
Proof.
  intros Ha Hc Hpi Ht. unfold FinancialReports.render, FinancialReports.applyDateRange.
  destruct (negb (startDate =? "") && negb (endDate =? "")).
  - rewrite filter_map_comm by
      (intros p; unfold FinancialReports.policyInRange; now rewrite Ht).
    simpl. rewrite !reduce_add_map by (intros p; now rewrite ?Ha, ?Hc, ?Hpi).
    repeat split.
  - simpl. rewrite !reduce_add_map by (intros p; now rewrite ?Ha, ?Hc, ?Hpi).
    repeat split.
Qed.

(** X6. Saving a customer touches nothing but six customer fields of
    policies, whatever the store does with the calls: the ledger is as it
    was, every policy keeps its id, its type, number, dates, amounts,
    flags and creation time and its customer's ID number, and the
    dashboard and the totals of the report are the same. *)
Theorem handleUpdateCustomer_frame (st : Store.t) (policies : list Policy.t)
    (updatedCustomer : CustomerManagement.Row) (now : Z) (startDate endDate : string) :
  let out := Handlers.handleUpdateCustomer storeFailure env policies updatedCustomer in
  let st' := Handlers.executeAll storeFailure serverTime env st (Handlers.calls out) in
  let kept (p : Policy.t) :=
    (Policy.id p, Policy.policyType p, Policy.policyNumber p, Policy.policyDate p,
     Policy.validUntil p, Policy.totalAmount p, Policy.commission p,
     Policy.vehicleNumber p, Policy.insuranceType p, Policy.paidByCustomer p,
     Policy.paidToInsurer p, Policy.createdAt p, Policy.customer p ≫= Customer.idNumber) in
  let state := Listeners.onPoliciesSnapshot (Store.policies st) in
  let state' := Listeners.onPoliciesSnapshot (Store.policies st') in
  let r := FinancialReports.render startDate endDate state (Store.payments_expenses st) in
  let r' := FinancialReports.render startDate endDate state' (Store.payments_expenses st') in
  Store.payments_expenses st' = Store.payments_expenses st
  /\ List.map kept (Store.policies st') = List.map kept (Store.policies st)
  /\ List.map kept state' = List.map kept state
  /\ Dashboard.render now state' = Dashboard.render now state
  /\ FinancialReports.totalIncome r' = FinancialReports.totalIncome r
  /\ FinancialReports.totalCommission r' = FinancialReports.totalCommission r
  /\ FinancialReports.totalExpenses r' = FinancialReports.totalExpenses r
  /\ FinancialReports.amountDueToInsurer r' = FinancialReports.amountDueToInsurer r.
Proof.
  intros out st' kept state state' r r'.
  assert (Hst : exists h, (forall p, h p = p
                             \/ h p = Handlers.updatedCustomerOf
                                        (Handlers.customerFields updatedCustomer) p)
                          /\ st' = {| Store.policies := List.map h (Store.policies st);
                                      Store.payments_expenses := Store.payments_expenses st |}).
  { unfold st', out, Handlers.handleUpdateCustomer.
    destruct (_ || _).
    - exists (fun p => p). split; [auto |]. simpl. rewrite List.map_id. now destruct st.
    - destruct (batchUpdates_shape updatedCustomer policies) as (qs & Hqs & _).
      destruct (Handlers.batchUpdates storeFailure env updatedCustomer policies)
        as [made error]. simpl in *. subst made.
      rewrite executeAll_customer_updates. eexists. split; [| reflexivity].
      intros p. simpl. destruct (existsb _ qs); auto. }
  destruct Hst as (h & Hh & Hst').
  assert (Hkept : forall p, kept (h p) = kept p).
  { intros p. destruct (Hh p) as [-> | ->]; reflexivity. }
  assert (Hf : forall (A : Type) (f : Policy.t -> A),
             (forall p, f (Handlers.updatedCustomerOf
                             (Handlers.customerFields updatedCustomer) p) = f p) ->
             forall p, f (h p) = f p).
  { intros A f Hfp p. destruct (Hh p) as [-> | ->]; auto. }
  assert (Hstate : state' = List.map h state).
  { unfold state', state. rewrite Hst'. simpl. apply snapshot_map. now apply Hf. }
  assert (Hl : Store.payments_expenses st' = Store.payments_expenses st) by now rewrite Hst'.
  split; [exact Hl |]. split.
  { rewrite Hst'. simpl. rewrite List.map_map. now apply List.map_ext. }
  split.
  { rewrite Hstate, List.map_map. now apply List.map_ext. }
  split.
  { rewrite Hstate. apply dashboard_map; now apply Hf. }
  unfold r', r. rewrite Hl, Hstate.
  destruct (report_map h startDate endDate state (Store.payments_expenses st))
    as (_ & _ & H1 & H2 & H3 & _ & _ & H4); try now apply Hf.
  auto.
Qed.

(** The policy with the six fields of [updated] written into it when it
    is a policy of the customer [k]. *)
Lemma customerId_updated (updated : CustomerManagement.Row) (k : string) (p : Policy.t) :
  Spec.customerId p = Some k ->
  Spec.customerId (Handlers.updatedCustomerOf (Handlers.customerFields updated) p) = Some k.
Proof.
  intros Hk. apply customerId_Some in Hk as (c & Hc & Hid & Hne).
  apply customerId_Some. eexists. split; [reflexivity |].
  simpl. rewrite Hc. simpl. auto.
Qed.

Lemma customerId_rewritten (updated : CustomerManagement.Row) (k : string) (p : Policy.t) :
  Spec.customerId
    (if bool_decide (Spec.customerId p = Some k)
     then Handlers.updatedCustomerOf (Handlers.customerFields updated) p else p)
  = Spec.customerId p.
Proof.
  destruct (decide (Spec.customerId p = Some k)) as [Hk|Hk].
  - rewrite (bool_decide_eq_true_2 _ Hk), Hk. now apply customerId_updated.
  - now rewrite (bool_decide_eq_false_2 _ Hk).
Qed.

Lemma policiesOf_rewritten (updated : CustomerManagement.Row) (k k' : string)
    (P : list Policy.t) :
  let g p :=
    if bool_decide (Spec.customerId p = Some k)
    then Handlers.updatedCustomerOf (Handlers.customerFields updated) p else p in
  Spec.policiesOf k' (List.map g P)
  = if bool_decide (k' = k)
    then List.map (Handlers.updatedCustomerOf (Handlers.customerFields updated))
           (Spec.policiesOf k P)
    else Spec.policiesOf k' P.
Proof.
  intros g. unfold Spec.policiesOf.
  rewrite filter_map_comm by (intros p; unfold g; now rewrite customerId_rewritten).
  destruct (decide (k' = k)) as [->|Hk].
  - rewrite (bool_decide_eq_true_2 _ eq_refl). apply List.map_ext_in.
    intros p Hp. apply filter_In in Hp as [_ Hp]. unfold g. now rewrite Hp.
  - rewrite (bool_decide_eq_false_2 _ Hk).
    rewrite <- (List.map_id (List.filter _ P)) at 2. apply List.map_ext_in.
    intros p Hp. apply filter_In in Hp as [_ Hp]. apply bool_decide_eq_true in Hp.
    unfold g. rewrite bool_decide_eq_false_2; [reflexivity | congruence].
Qed.

Lemma rowOf_associated (k : string) (P : list Policy.t) (row : CustomerManagement.Row) :
  Spec.rowOf k P = Some row ->
  CustomerManagement.associatedPolicies row
  = List.map CustomerManagement.refOf (Spec.policiesOf k P)
  /\ k <> "".
Proof.
  intros Hrow. split.
  - unfold Spec.rowOf in Hrow. destruct (Spec.policiesOf k P) as [|first rest]; [discriminate |].
    destruct (Policy.customer first); [| discriminate]. simpl in Hrow.
    now injection Hrow as <-.
  - assert (Hs : is_Some (Spec.rowOf k P)) by (rewrite Hrow; eauto).
    apply rowOf_is_Some in Hs as (p & _ & Hp).
    now apply customerId_Some in Hp as (c & _ & _ & Hne).
Qed.

Lemma edits_keep (edits : list (EditCustomerModal.Input * string))
    (row : CustomerManagement.Row) :
  let updated :=
    fold_left (fun r e => EditCustomerModal.handleChange (fst e) (snd e) r) edits row in
  CustomerManagement.idNumber updated = CustomerManagement.idNumber row
  /\ CustomerManagement.policiesCount updated = CustomerManagement.policiesCount row
  /\ CustomerManagement.totalPolicyValue updated = CustomerManagement.totalPolicyValue row
  /\ CustomerManagement.associatedPolicies updated = CustomerManagement.associatedPolicies row.
Proof.
  revert row. induction edits as [|e edits IH]; intros row; simpl; [auto |].
  destruct (IH (EditCustomerModal.handleChange (fst e) (snd e) row)) as (H1 & H2 & H3 & H4).
  rewrite H1, H2, H3, H4. auto.
Qed.

Lemma handleUpdateCustomer_calls (policies : list Policy.t)
    (updated : CustomerManagement.Row) :
  Spec.signedIn env -> CustomerManagement.idNumber updated <> "" ->
  (forall p m, In p policies ->
     storeFailure (Handlers.customerUpdateOf env updated p) <> Some (thrown m)) ->
  Handlers.calls (Handlers.handleUpdateCustomer storeFailure env policies updated)
  = List.map (Handlers.customerUpdateOf env updated)
      (Spec.policiesOf (CustomerManagement.idNumber updated) policies).
Proof.
  intros Hin Hne Hno. unfold Handlers.handleUpdateCustomer.
  rewrite (proj2 (signedIn_guard env) Hin). simpl.
  unfold App.empty. rewrite (proj2 (String.eqb_neq _ _) Hne).
  rewrite batchUpdates_made by exact Hno. simpl. f_equal.
  unfold Spec.policiesOf. apply filter_ext. intros p.
  now apply isCustomerOf_customerId.
Qed.

(** X7. Saving an edited row of the customer list calls the store once
    for each policy listed under that row, in the order of the list, with
    the six fields of the form, and for no other policy; the ID number is
    not among the fields written. *)
Theorem handleUpdateCustomer_targets (policies : list Policy.t)
    (rows : list CustomerManagement.Row) (row updatedCustomer : CustomerManagement.Row) :
  Spec.signedIn env ->
  CustomerManagement.customersList policies = Normal rows -> In row rows ->
  CustomerManagement.idNumber updatedCustomer = CustomerManagement.idNumber row ->
  (forall p m, In p policies ->
     storeFailure (Handlers.customerUpdateOf env updatedCustomer p) <> Some (thrown m)) ->
  Handlers.calls (Handlers.handleUpdateCustomer storeFailure env policies updatedCustomer)
  = List.map
      (fun ref =>
         Call.updateDoc (App.policiesPath env) (CustomerManagement.id ref)
           (customerUpdate {|
              CustomerUpdate.firstName := CustomerManagement.firstName updatedCustomer;
              CustomerUpdate.lastName := CustomerManagement.lastName updatedCustomer;
              CustomerUpdate.phoneNumber := CustomerManagement.phoneNumber updatedCustomer;
              CustomerUpdate.address := CustomerManagement.address updatedCustomer;
              CustomerUpdate.city := CustomerManagement.city updatedCustomer;
              CustomerUpdate.postalCode := CustomerManagement.postalCode updatedCustomer |}))
      (CustomerManagement.associatedPolicies row).
Proof.
  intros Hin Hlist Hrow Hid Hno.
  unfold CustomerManagement.customersList in Hlist.
  destruct (CustomerManagement.uniqueCustomers policies) as [m|] eqn:Hm; [| discriminate].
  pose proof (uniqueCustomers_Normal_own policies m Hm) as Hown.
  destruct (customersList_rows policies Hown) as (rows' & Hrows' & _ & _ & Hall).
  unfold CustomerManagement.customersList in Hrows'. rewrite Hm in Hrows'.
  simpl in Hlist, Hrows'. injection Hlist as <-. injection Hrows' as <-.
  specialize (Hall row Hrow). rewrite <- Hid in Hall.
  destruct (rowOf_associated _ _ _ Hall) as [-> Hne].
  rewrite handleUpdateCustomer_calls by assumption.
  now rewrite List.map_map.
Qed.

Lemma rowOf_rewritten (updated row : CustomerManagement.Row) (k k' : string)
    (P : list Policy.t) :
  let g p :=
    if bool_decide (Spec.customerId p = Some k)
    then Handlers.updatedCustomerOf (Handlers.customerFields updated) p else p in
  Spec.rowOf k P = Some row ->
  CustomerManagement.idNumber updated = k ->
  CustomerManagement.policiesCount updated = CustomerManagement.policiesCount row ->
  CustomerManagement.totalPolicyValue updated = CustomerManagement.totalPolicyValue row ->
  CustomerManagement.associatedPolicies updated = CustomerManagement.associatedPolicies row ->
  Spec.rowOf k' (List.map g P) = if bool_decide (k' = k) then Some updated else Spec.rowOf k' P.
Proof.
  intros g Hrow Hid Hcount Htotal Hassoc.
  unfold Spec.rowOf at 1. unfold g. rewrite policiesOf_rewritten.
  destruct (decide (k' = k)) as [->|Hk].
  - rewrite (bool_decide_eq_true_2 _ eq_refl).
    pose proof (rowOf_Some k P row Hrow) as (_ & Hc & Ht & _).
    pose proof (rowOf_associated k P row Hrow) as [Ha _].
    unfold Spec.rowOf in Hrow.
    destruct (Spec.policiesOf k P) as [|first rest] eqn:E; [discriminate |].
    cbn [List.map Policy.customer Handlers.updatedCustomerOf mbind option_bind].
    f_equal. destruct updated. simpl in *. subst.
    rewrite Hc, Ht, Ha, !length_map, !List.map_map. reflexivity.
  - now rewrite (bool_decide_eq_false_2 _ Hk).
Qed.

(** X8. The round trip of the customer form. A row of the customer list
    is edited in the form and saved, and the store carries out the calls:
    the customer list derived from the next snapshot has the edited row in
    the place of the row, and every other row as before. *)
Theorem customer_edit_round_trip (st : Store.t)
    (m : gmap string CustomerManagement.Row) (k : string) (row : CustomerManagement.Row)
    (edits : list (EditCustomerModal.Input * string)) :
  let policies := Listeners.onPoliciesSnapshot (Store.policies st) in
  let updatedCustomer :=
    fold_left (fun r e => EditCustomerModal.handleChange (fst e) (snd e) r) edits row in
  let out := Handlers.handleUpdateCustomer storeFailure env policies updatedCustomer in
  let st' := Handlers.executeAll storeFailure serverTime env st (Handlers.calls out) in
  Spec.signedIn env ->
  NoDup (List.map Policy.id (Store.policies st)) ->
  CustomerManagement.uniqueCustomers policies = Normal m ->
  m !! k = Some row ->
  (forall p, In p policies ->
     storeFailure (Handlers.customerUpdateOf env updatedCustomer p) = None) ->
  CustomerManagement.uniqueCustomers (Listeners.onPoliciesSnapshot (Store.policies st'))
  = Normal (<[k := updatedCustomer]> m)
  /\ Store.payments_expenses st' = Store.payments_expenses st.
Proof.
  intros policies updated out st' Hin Hnd Hm Hk Hacc.
  pose proof (uniqueCustomers_Normal_own policies m Hm) as Hown.
  destruct (uniqueCustomers_rows policies Hown) as (m1 & Hm1 & Hrows).
  rewrite Hm in Hm1. injection Hm1 as <-.
  rewrite Hrows in Hk.
  pose proof (rowOf_Some k policies row Hk) as (Hidrow & _).
  destruct (edits_keep edits row) as (Hid & Hcount & Htotal & Hassoc).
  fold updated in Hid, Hcount, Htotal, Hassoc. rewrite Hidrow in Hid.
  destruct (rowOf_associated k policies row Hk) as [_ Hne].
  assert (Hperm : Permutation policies (Store.policies st)) by apply Array_sort_perm.
  set (g := fun p =>
              if bool_decide (Spec.customerId p = Some k)
              then Handlers.updatedCustomerOf (Handlers.customerFields updated) p else p).
  assert (Hst : st' = {| Store.policies := List.map g (Store.policies st);
                         Store.payments_expenses := Store.payments_expenses st |}).
  { unfold st', out. rewrite handleUpdateCustomer_calls; [| exact Hin | congruence |].
    2:{ intros p b Hp. rewrite Hacc by exact Hp. discriminate. }
    rewrite executeAll_customer_updates, Hid. f_equal.
    apply List.map_ext_in. intros p Hp. unfold g.
    destruct (decide (Spec.customerId p = Some k)) as [Hpk|Hpk].
    - rewrite (bool_decide_eq_true_2 _ Hpk).
      assert (Hp' : In p (Spec.policiesOf k policies)).
      { apply filter_In. split; [| now apply bool_decide_eq_true].
        eapply Permutation_in; [symmetry; exact Hperm | exact Hp]. }
      replace (existsb _ _) with true; [reflexivity |].
      symmetry. apply existsb_exists. exists p. split; [exact Hp' |].
      rewrite String.eqb_refl, andb_true_r. apply bool_decide_eq_true.
      apply Hacc. now apply filter_In in Hp' as [Hp' _].
    - rewrite (bool_decide_eq_false_2 _ Hpk).
      replace (existsb _ _) with false; [reflexivity |].
      symmetry. apply not_true_iff_false. rewrite existsb_exists.
      intros (q & Hq & Hpq). apply andb_true_iff in Hpq as [_ Hpq].
      apply String.eqb_eq in Hpq. apply filter_In in Hq as [Hq Hqk].
      apply bool_decide_eq_true in Hqk.
      assert (p = q); [| congruence].
      apply (NoDup_map_inj_In Policy.id (Store.policies st)); auto.
      eapply Permutation_in; [exact Hperm | exact Hq]. }
  split; [| now rewrite Hst].
  rewrite Hst. cbn [Store.policies].
  rewrite snapshot_map by (intros p; unfold g; now destruct (bool_decide _)).
  fold policies.
  assert (Hown' : Spec.ownKeysOnly (List.map g policies)).
  { intros q k' Hq Hqk. apply in_map_iff in Hq as (p & <- & Hp).
    unfold g in Hqk. rewrite customerId_rewritten in Hqk. now apply (Hown p). }
  destruct (uniqueCustomers_rows _ Hown') as (m' & Hm' & Hrows').
  rewrite Hm'. f_equal. apply map_eq. intros k'.
  rewrite Hrows'. unfold g.
  rewrite (rowOf_rewritten updated row k k' policies Hk Hid Hcount Htotal Hassoc).
  destruct (decide (k' = k)) as [->|Hkk].
  - now rewrite (bool_decide_eq_true_2 _ eq_refl), lookup_insert_eq.
  - rewrite (bool_decide_eq_false_2 _ Hkk), lookup_insert_ne by congruence.
    symmetry. apply Hrows.
Qed.

End CustomerUpdateProperties.

Lemma ownKeysOnly_perm (P Q : list Policy.t) :
  Permutation P Q -> Spec.ownKeysOnly Q -> Spec.ownKeysOnly P.
Proof.
  intros Hp Hown p k Hin. apply Hown. eapply Permutation_in; [exact Hp | exact Hin].
Qed.

Lemma scenario_policies : Scenario.policies = [Sample.p3; Sample.p2; Sample.p1].
Proof. reflexivity. Qed.

Lemma scenario_ownKeysOnly : Spec.ownKeysOnly Scenario.policies.
Proof.
  apply (ownKeysOnly_perm _ Sample.policies); [apply Array_sort_perm |].
  exact sample_ownKeysOnly.
Qed.

Lemma handleUpdateCustomer_targets_witness :
  Spec.signedIn Sample.signedInEnv
  /\ exists rows row,
       CustomerManagement.customersList (B := refBuiltins) Scenario.policies = Normal rows
       /\ In row rows
       /\ CustomerManagement.idNumber row = "A1"
       /\ List.map CustomerManagement.id (CustomerManagement.associatedPolicies row)
          = ["p2"; "p1"]
       /\ List.map
            (fun ref =>
               Call.updateDoc (App.policiesPath Sample.signedInEnv) (CustomerManagement.id ref)
                 (customerUpdate (Handlers.customerFields Scenario.corrected)))
            (CustomerManagement.associatedPolicies row)
          = [ Call.updateDoc "artifacts/demo/users/u1/policies" "p2"
                (customerUpdate (Handlers.customerFields Scenario.corrected));
              Call.updateDoc "artifacts/demo/users/u1/policies" "p1"
                (customerUpdate (Handlers.customerFields Scenario.corrected)) ].
Proof.
  assert (Hin : Spec.signedIn Sample.signedInEnv).
  { split; [reflexivity |]. exists "u1". split; [reflexivity | discriminate]. }
  split; [exact Hin |].
  destruct (customersList_rows (B := refBuiltins) Scenario.policies scenario_ownKeysOnly)
    as (rows & Hrows & _ & Hkeys & Hall).
  assert (Hk : In "A1" (List.map CustomerManagement.idNumber rows)).
  { apply Hkeys. exists Sample.p1. split; [right; right; now left | reflexivity]. }
  apply in_map_iff in Hk as (row & Hid & Hrow).
  exists rows, row. split; [exact Hrows |]. split; [exact Hrow |]. split; [exact Hid |].
  pose proof (Hall row Hrow) as Hr. rewrite Hid in Hr.
  destruct (rowOf_associated (B := refBuiltins) "A1" Scenario.policies row Hr) as [Ha _].
  split; [now rewrite Ha |].
  refine (eq_trans (eq_sym (handleUpdateCustomer_targets (B := refBuiltins) Scenario.accepts
                              Sample.signedInEnv Scenario.policies rows row Scenario.corrected
                              Hin Hrows Hrow (eq_sym Hid) _)) _).
  - discriminate.
  - reflexivity.
Defined.

Lemma customer_edit_round_trip_witness :
  Spec.signedIn Sample.signedInEnv
  /\ NoDup (List.map Policy.id (Store.policies Sample.store))
  /\ exists m row,
       CustomerManagement.uniqueCustomers (B := refBuiltins)
         (Listeners.onPoliciesSnapshot (Store.policies Sample.store)) = Normal m
       /\ m !! "A1" = Some row
       /\ CustomerManagement.firstName row = Some "Ana"
       /\ let updated :=
            fold_left (fun r e => EditCustomerModal.handleChange (fst e) (snd e) r)
              Scenario.edits row in
          CustomerManagement.firstName updated = Some "Anna"
          /\ CustomerManagement.uniqueCustomers (B := refBuiltins)
               (Listeners.onPoliciesSnapshot
                  (Store.policies
                     (Handlers.executeAll Scenario.accepts Scenario.serverTime
                        Sample.signedInEnv Sample.store
                        (Handlers.calls
                           (Handlers.handleUpdateCustomer Scenario.accepts Sample.signedInEnv
                              (Listeners.onPoliciesSnapshot (Store.policies Sample.store))
                              updated)))))
             = Normal (<["A1" := updated]> m).
Proof.
  assert (Hin : Spec.signedIn Sample.signedInEnv).
  { split; [reflexivity |]. exists "u1". split; [reflexivity | discriminate]. }
  assert (Hnd : NoDup (List.map Policy.id (Store.policies Sample.store))).
  { repeat (apply NoDup_cons_2; [apply (bool_decide_eq_false_1 _); reflexivity |]).
    apply NoDup_nil_2. }
  split; [exact Hin |]. split; [exact Hnd |].
  destruct (uniqueCustomers_rows (B := refBuiltins) Scenario.policies scenario_ownKeysOnly)
    as (m & Hm & Hrows).
  assert (Hrow : exists row, m !! "A1" = Some row /\ CustomerManagement.firstName row = Some "Ana").
  { rewrite Hrows. eexists. split; reflexivity. }
  destruct Hrow as (row & Hrow & Hname).
  exists m, row. split; [exact Hm |]. split; [exact Hrow |]. split; [exact Hname |].
  split; [reflexivity |].
  exact (proj1 (customer_edit_round_trip (B := refBuiltins) Scenario.accepts
                  Scenario.serverTime Sample.signedInEnv Sample.store m "A1" row
                  Scenario.edits Hin Hnd Hm Hrow (fun _ _ => eq_refl))).
Defined.

(** ** The ledger form *)

Section LedgerHandlerProperties.
Context `{B : Builtins} `{F : Formatting}.
Variable storeFailure : Call.t -> option Failure.
Variable serverTime : Timestamp.
Variable env : App.Env.

(** X9. handleAddPaymentExpense first checks that the database is ready
    and a user is signed in, then that the date, the amount and the type
    are filled in; the reason and the policy are optional. It then makes
    one call, which adds to the ledger of the user an entry with the type,
    date and reason of the form, the amount parsed as a float, the selected
    policy, or none when no policy is selected, and the server's time of
    creation. The form is cleared when the store accepts the call and kept
    when it does not. *)
Theorem handleAddPaymentExpense_calls (form : PaymentExpenseForm.t) :
  let out := fst (Handlers.handleAddPaymentExpense storeFailure env form) in
  let form' := snd (Handlers.handleAddPaymentExpense storeFailure env form) in
  let missing :=
    PaymentExpenseForm.paymentExpenseDate form = ""
    \/ PaymentExpenseForm.paymentExpenseAmount form = ""
    \/ PaymentExpenseForm.paymentExpenseType form = "" in
  let call :=
    Call.addDoc (App.paymentsExpensesPath env) (ledgerData {|
      LedgerData.type := PaymentExpenseForm.paymentExpenseType form;
      LedgerData.date := PaymentExpenseForm.paymentExpenseDate form;
      LedgerData.amount := parseFloat (VString (PaymentExpenseForm.paymentExpenseAmount form));
      LedgerData.reason := PaymentExpenseForm.paymentExpenseReason form;
      LedgerData.policyId :=
        match PaymentExpenseForm.selectedPolicyForPayment form with
        | "" => None
        | id => Some id
        end;
      LedgerData.createdAt := serverTimestamp |}) in
  (~ Spec.signedIn env ->
     Handlers.calls out = [] /\ form' = form
     /\ Handlers.modalMessage out = Some Spec.notSignedInError)
  /\ (Spec.signedIn env -> missing ->
      Handlers.calls out = [] /\ form' = form
      /\ Handlers.modalMessage out
         = Some "Please fill in Date, Amount, and Type for the payment/expense.")
  /\ (Spec.signedIn env -> ~ missing ->
      Handlers.calls out = [call]
      /\ (storeFailure call = None -> form' = PaymentExpenseForm.cleared)
      /\ (storeFailure call <> None -> form' = form)).
Proof.
  intros out form' missing call.
  unfold out, form', Handlers.handleAddPaymentExpense.
  destruct (negb (App.db env) || negb (truthy (App.userId env))) eqn:G.
  { split; [auto |].
    split; intros Hin; apply signedIn_guard in Hin; congruence. }
  apply signedIn_guard in G.
  assert (Hmissing : App.empty (PaymentExpenseForm.paymentExpenseDate form)
                     || App.empty (PaymentExpenseForm.paymentExpenseAmount form)
                     || App.empty (PaymentExpenseForm.paymentExpenseType form) = true
                     <-> missing).
  { unfold missing, App.empty. rewrite !orb_true_iff, !String.eqb_eq. tauto. }
  destruct (_ || _ || _) eqn:E.
  { split; [tauto |]. split; [auto |]. intros _ Hn. exfalso. now apply Hn, Hmissing. }
  split; [tauto |]. split.
  { intros _ Hm. apply Hmissing in Hm. discriminate. }
  intros _ _.
  replace (if App.empty (PaymentExpenseForm.selectedPolicyForPayment form) then None
           else Some (PaymentExpenseForm.selectedPolicyForPayment form))
    with (match PaymentExpenseForm.selectedPolicyForPayment form with
          | "" => None
          | id => Some id
          end)
    by (unfold App.empty; now destruct (PaymentExpenseForm.selectedPolicyForPayment form)).
  fold call. destruct (storeFailure call); simpl; repeat split; congruence.
Qed.

Lemma execute_entry_delete (st : Store.t) (itemId : string) :
  Handlers.execute storeFailure serverTime env st
    (Call.deleteDoc (App.paymentsExpensesPath env) itemId)
  = match storeFailure (Call.deleteDoc (App.paymentsExpensesPath env) itemId) with
    | Some _ => st
    | None =>
        {| Store.policies := Store.policies st;
           Store.payments_expenses :=
             List.filter (fun e => negb (LedgerEntry.id e =? itemId))
               (Store.payments_expenses st) |}
    end.
Proof.
  unfold Handlers.execute. destruct (storeFailure _); [reflexivity |].
  rewrite (proj2 (String.eqb_neq _ _) (paths_differ env)). now rewrite String.eqb_refl.
Qed.

(** X10. handleDeletePaymentExpense asks for a confirmation that names
    the type and the amount with two decimals, and on a yes makes one call,
    which deletes the entry of that id from the ledger of the user: when
    the store carries it out, the ledger is left with the entries of other
    ids, in their order. In every case the policies are untouched; and
    nothing changes when the user says no or the store refuses. An amount
    that is stored as a string has no toFixed: the handler then throws a
    TypeError before it asks, and calls nothing. *)
Theorem handleDeletePaymentExpense_effect (st : Store.t) (answer : string -> bool)
    (itemId itemType : string) (itemAmount : jsval) :
  let result :=
    Handlers.handleDeletePaymentExpense storeFailure env answer itemId itemType itemAmount in
  let call := Call.deleteDoc (App.paymentsExpensesPath env) itemId in
  (forall s, Spec.signedIn env -> itemAmount = VString s -> result = Throw "TypeError")
  /\ (forall out, result = Normal out ->
        let st' := Handlers.executeAll storeFailure serverTime env st (Handlers.calls out) in
        Store.policies st' = Store.policies st
        /\ (Handlers.calls out = [] \/ Handlers.calls out = [call])
        /\ (forall x, Spec.signedIn env -> itemAmount = VNumber x ->
              Handlers.confirmPrompt out
              = Some ("Are you sure you want to delete this " ++ itemType ++ " of BGN "
                      ++ toFixed_2 x ++ "? This action cannot be undone."))
        /\ (forall prompt, Handlers.confirmPrompt out = Some prompt ->
              answer prompt = true -> storeFailure call = None ->
              Handlers.calls out = [call]
              /\ Spec.selects (fun e => LedgerEntry.id e <> itemId)
                   (Store.payments_expenses st) (Store.payments_expenses st'))
        /\ (forall prompt, Handlers.confirmPrompt out = Some prompt ->
              answer prompt = false -> Handlers.calls out = [] /\ st' = st)
        /\ (storeFailure call <> None -> st' = st)).
Proof.
  intros result call. unfold result, Handlers.handleDeletePaymentExpense. split.
  { intros s Hin ->. now rewrite (proj2 (signedIn_guard env) Hin). }
  intros out.
  destruct (negb (App.db env) || negb (truthy (App.userId env))) eqn:G.
  { intros [= <-]. simpl. split; [reflexivity |]. split; [now left |].
    split; [intros x Hin; apply signedIn_guard in Hin; congruence |].
    split; [discriminate |]. split; [discriminate | reflexivity]. }
  assert (Hcase : forall amount out,
    (let prompt :=
       "Are you sure you want to delete this " ++ itemType ++ " of BGN " ++ amount
       ++ "? This action cannot be undone." in
     if answer prompt
     then Normal {| Handlers.calls := [call];
                    Handlers.modalMessage :=
                      match storeFailure call with
                      | Some failure =>
                          Some ("Error deleting " ++ itemType ++ ": " ++ message failure)
                      | None => Some (itemType ++ " deleted successfully!")
                      end;
                    Handlers.confirmPrompt := Some prompt |}
     else Normal {| Handlers.calls := []; Handlers.modalMessage := None;
                    Handlers.confirmPrompt := Some prompt |}) = Normal out ->
    let st' := Handlers.executeAll storeFailure serverTime env st (Handlers.calls out) in
    Store.policies st' = Store.policies st
    /\ (Handlers.calls out = [] \/ Handlers.calls out = [call])
    /\ Handlers.confirmPrompt out
       = Some ("Are you sure you want to delete this " ++ itemType ++ " of BGN " ++ amount
               ++ "? This action cannot be undone.")
    /\ (forall prompt, Handlers.confirmPrompt out = Some prompt ->
          answer prompt = true -> storeFailure call = None ->
          Handlers.calls out = [call]
          /\ Spec.selects (fun e => LedgerEntry.id e <> itemId)
               (Store.payments_expenses st) (Store.payments_expenses st'))
    /\ (forall prompt, Handlers.confirmPrompt out = Some prompt ->
          answer prompt = false -> Handlers.calls out = [] /\ st' = st)
    /\ (storeFailure call <> None -> st' = st)).
  { intros amount out'. cbv zeta.
    match goal with |- context [answer ?s] => set (msg := s) end.
    destruct (answer msg) eqn:Ans; intros [= <-];
      cbn [Handlers.calls Handlers.confirmPrompt Handlers.executeAll fold_left].
    - unfold call. rewrite execute_entry_delete. fold call.
      split; [now destruct (storeFailure call) |].
      split; [now right |]. split; [reflexivity |].
      split; [| split].
      + intros q _ _ Hacc. rewrite Hacc. split; [reflexivity |].
        cbn [Store.payments_expenses]. apply filter_selects.
        intros e. rewrite negb_true_iff. apply String.eqb_neq.
      + intros q [= <-] Hno. congruence.
      + intros Hrej. now destruct (storeFailure call).
    - split; [reflexivity |]. split; [now left |]. split; [reflexivity |].
      split; [| split; [auto | auto]].
      intros q [= <-] Hyes. congruence. }
  destruct itemAmount as [|x|s]; cbn [Handlers.amountText bind]; [| | discriminate].
  - intros Hout. destruct (Hcase _ _ Hout) as (H1 & H2 & _ & H4 & H5 & H6).
    split; [exact H1 |]. split; [exact H2 |]. split; [discriminate |]. auto.
  - intros Hout. destruct (Hcase _ _ Hout) as (H1 & H2 & H3 & H4 & H5 & H6).
    split; [exact H1 |]. split; [exact H2 |].
    split; [intros y _ [= <-]; exact H3 |]. auto.
Qed.

(** X11. An entry added with a policy selected is an entry of that
    policy. In a ledger that holds it, under ids that are unique: whenever
    the rows under that policy render, the entry is one of them, and it is
    in the rows of no other policy; and whenever the breakdown of the
    report renders, the "Linked Policy" cell of the entry shows the number
    of that policy ("N/A" if the number is empty). An entry added with no
    policy selected is in the rows of no policy, and its cell shows
    "None". *)
Theorem added_entry_link (form : PaymentExpenseForm.t) (data : LedgerData.t)
    (id : string) (createdAt : option Timestamp)
    (policies : list Policy.t) (paymentsExpenses : list LedgerEntry.t) :
  In (Call.addDoc (App.paymentsExpensesPath env) (ledgerData data))
     (Handlers.calls (fst (Handlers.handleAddPaymentExpense storeFailure env form))) ->
  NoDup (List.map Policy.id policies) ->
  In (Handlers.addedEntry id createdAt data) paymentsExpenses ->
  NoDup (List.map LedgerEntry.id paymentsExpenses) ->
  let selected := PaymentExpenseForm.selectedPolicyForPayment form in
  let listed (rows : list LedgerTable.Row) := In id (List.map LedgerTable.key rows) in
  let cell (text : string) :=
    forall rows,
      LedgerTable.breakdownRows policies paymentsExpenses = Normal rows ->
      exists r, In r rows /\ LedgerTable.key r = id
                /\ LedgerTable.lastCell r = LedgerTable.linkedPolicyCell text in
  (selected = "" ->
     cell "None"
     /\ forall policy rows,
          LedgerTable.linkedRows paymentsExpenses policy = Normal rows -> ~ listed rows)
  /\ (forall policy, In policy policies -> selected = Policy.id policy -> selected <> "" ->
        cell (if Policy.policyNumber policy =? "" then "N/A" else Policy.policyNumber policy)
        /\ (forall rows,
              LedgerTable.linkedRows paymentsExpenses policy = Normal rows -> listed rows)
        /\ forall other rows,
             Policy.id other <> Policy.id policy ->
             LedgerTable.linkedRows paymentsExpenses other = Normal rows -> ~ listed rows).
Proof.
  intros Hcall Hnd Hentry Hids selected listed cell.
  set (entry := Handlers.addedEntry id createdAt data) in *.
  assert (Hlink : LedgerEntry.policyId entry
                  = if App.empty selected then None else Some selected).
  { unfold Handlers.handleAddPaymentExpense in Hcall.
    destruct (_ || _); [destruct Hcall |].
    destruct (_ || _ || _); [destruct Hcall |].
    destruct (storeFailure _); simpl in Hcall; destruct Hcall as [[= <-] | []]; reflexivity. }
  assert (Hlinked : forall policy e,
            In e (LedgerTable.linkedEntries paymentsExpenses policy)
            <-> In e paymentsExpenses /\ LedgerEntry.policyId e = Some (Policy.id policy)).
  { intros policy e. unfold LedgerTable.linkedEntries. split.
    - intros He. eapply Permutation_in in He; [| apply Array_sort_perm].
      apply filter_In in He as [He Hl]. now apply bool_decide_eq_true in Hl.
    - intros [He Hl]. eapply Permutation_in; [symmetry; apply Array_sort_perm |].
      apply filter_In. split; [exact He | now apply bool_decide_eq_true]. }
  assert (Hrows : forall policy rows,
            LedgerTable.linkedRows paymentsExpenses policy = Normal rows ->
            (listed rows <-> LedgerEntry.policyId entry = Some (Policy.id policy))).
  { intros policy rows H. apply Array_map_Normal in H. unfold listed. split.
    - intros Hk. apply in_map_iff in Hk as (r & Hk & Hr).
      destruct (Forall2_In_r _ _ _ _ H Hr) as (item & Hitem & Hrow).
      apply row_Normal in Hrow as (Hkey & _).
      apply Hlinked in Hitem as [Hitem Hpol].
      replace entry with item; [exact Hpol |].
      apply (NoDup_map_inj_In LedgerEntry.id paymentsExpenses); auto.
      rewrite <- Hkey, Hk. reflexivity.
    - intros Hpol.
      destruct (Forall2_In_l _ _ _ _ H (proj2 (Hlinked policy entry) (conj Hentry Hpol)))
        as (r & Hr & Hrow).
      apply row_Normal in Hrow as (Hkey & _).
      apply in_map_iff. exists r. split; [exact Hkey | exact Hr]. }
  assert (Hcell : cell (LedgerTable.linkedPolicy policies entry)).
  { intros rows H. apply Array_map_Normal in H.
    assert (Hin : In entry (LedgerTable.breakdown paymentsExpenses)).
    { unfold LedgerTable.breakdown. eapply Permutation_in; [symmetry; apply Array_sort_perm |].
      apply filter_In. split; [exact Hentry | now apply bool_decide_eq_true]. }
    destruct (Forall2_In_l _ _ _ _ H Hin) as (r & Hr & Hrow).
    apply row_Normal in Hrow as (Hkey & _ & _ & _ & Hlast).
    exists r. split; [exact Hr |]. split; [exact Hkey | exact Hlast]. }
  split.
  - intros Hsel. unfold App.empty in Hlink. rewrite Hsel in Hlink.
    change (LedgerEntry.policyId entry = None) in Hlink. split.
    + replace "None" with (LedgerTable.linkedPolicy policies entry); [exact Hcell |].
      unfold LedgerTable.linkedPolicy. now rewrite Hlink.
    + intros policy rows H Hl. apply (Hrows policy rows H) in Hl. congruence.
  - intros policy Hp Hsel Hne.
    unfold App.empty in Hlink. rewrite (proj2 (String.eqb_neq _ _) Hne) in Hlink.
    split; [| split].
    + replace (if Policy.policyNumber policy =? "" then "N/A" else Policy.policyNumber policy)
        with (LedgerTable.linkedPolicy policies entry); [exact Hcell |].
      unfold LedgerTable.linkedPolicy. rewrite Hlink.
      replace (truthy (Some selected)) with true
        by (simpl; now rewrite (proj2 (String.eqb_neq _ _) Hne)).
      destruct (List.find _ policies) as [p|] eqn:Efind.
      * apply find_some in Efind as [Hin Hid]. apply bool_decide_eq_true in Hid.
        injection Hid as Hid.
        replace p with policy; [reflexivity |].
        apply (NoDup_map_inj_In Policy.id policies); auto. congruence.
      * apply find_none with (x := policy) in Efind; [| exact Hp].
        apply bool_decide_eq_false in Efind. congruence.
    + intros rows H. apply (Hrows policy rows H). congruence.
    + intros other rows Hother H Hl. apply (Hrows other rows H) in Hl. congruence.
Qed.

End LedgerHandlerProperties.

(** The dialog for the expense e1 of the sample ledger. *)
Lemma handleDeletePaymentExpense_scenario :
  bind (Handlers.handleDeletePaymentExpense (F := refFormatting) Scenario.accepts
          Sample.signedInEnv Sample.yes "e1" "Expense" (VNumber 40))
       (fun out => Normal (Handlers.confirmPrompt out))
  = Normal (Some "Are you sure you want to delete this Expense of BGN 40.00? This action cannot be undone.").
Proof. vm_compute. reflexivity. Qed.

Lemma sample_ids_NoDup : NoDup (List.map Policy.id Sample.policies).
Proof.
  repeat (apply NoDup_cons_2; [apply (bool_decide_eq_false_1 _); reflexivity |]).
  apply NoDup_nil_2.
Qed.

Lemma sample_entry_ids_NoDup :
  NoDup (List.map LedgerEntry.id
           (Handlers.addedEntry "e9" None Scenario.entryData :: Sample.paymentsExpenses)).
Proof.
  repeat (apply NoDup_cons_2; [apply (bool_decide_eq_false_1 _); reflexivity |]).
  apply NoDup_nil_2.
Qed.

Lemma added_entry_link_witness :
  let entry := Handlers.addedEntry "e9" None Scenario.entryData in
  Handlers.calls
    (fst (Handlers.handleAddPaymentExpense (B := refBuiltins) Scenario.accepts
            Sample.signedInEnv Scenario.entryForm))
  = [Call.addDoc "artifacts/demo/users/u1/payments_expenses" (ledgerData Scenario.entryData)]
  /\ NoDup (List.map Policy.id Sample.policies)
  /\ NoDup (List.map LedgerEntry.id (entry :: Sample.paymentsExpenses))
  /\ exists rows,
       LedgerTable.linkedRows (B := refBuiltins) (F := refFormatting)
         (entry :: Sample.paymentsExpenses) Sample.p1 = Normal rows
       /\ List.map LedgerTable.key rows = ["e9"; "e2"; "e1"]
       /\ In "e9" (List.map LedgerTable.key rows).
Proof.
  intros entry.
  split; [vm_compute; reflexivity |]. split; [exact sample_ids_NoDup |].
  split; [exact sample_entry_ids_NoDup |].
  assert (H : exists rows,
            LedgerTable.linkedRows (B := refBuiltins) (F := refFormatting)
              (entry :: Sample.paymentsExpenses) Sample.p1 = Normal rows
            /\ List.map LedgerTable.key rows = ["e9"; "e2"; "e1"]).
  { eexists. split; [vm_compute; reflexivity | reflexivity]. }
  destruct H as (rows & Hr & Hk).
  exists rows. split; [exact Hr |]. split; [exact Hk |].
  assert (Hcall : In (Call.addDoc (App.paymentsExpensesPath Sample.signedInEnv)
                        (ledgerData Scenario.entryData))
                     (Handlers.calls
                        (fst (Handlers.handleAddPaymentExpense (B := refBuiltins)
                                Scenario.accepts Sample.signedInEnv Scenario.entryForm)))).
  { left. vm_compute. reflexivity. }
  assert (Hne : PaymentExpenseForm.selectedPolicyForPayment Scenario.entryForm <> "")
    by discriminate.
  exact (proj1 (proj2 (proj2 (added_entry_link (B := refBuiltins) (F := refFormatting)
            Scenario.accepts Sample.signedInEnv Scenario.entryForm Scenario.entryData
            "e9" None Sample.policies (entry :: Sample.paymentsExpenses)
            Hcall sample_ids_NoDup (or_introl eq_refl) sample_entry_ids_NoDup)
          Sample.p1 (or_introl eq_refl) eq_refl Hne)) rows Hr).
Defined.

(** ** More on the financial report *)

Lemma filter_comm {A : Type} (f g : A -> bool) (l : list A) :
  List.filter f (List.filter g l) = List.filter g (List.filter f l).
Proof.
  induction l as [|x l IH]; simpl; [reflexivity |].
  destruct (f x) eqn:Ef, (g x) eqn:Eg; simpl; rewrite ?Ef, ?Eg, IH; reflexivity.
Qed.

Lemma filter_idem {A : Type} (f : A -> bool) (l : list A) :
  List.filter f (List.filter f l) = List.filter f l.
Proof.
  induction l as [|x l IH]; simpl; [reflexivity |].
  destruct (f x) eqn:E; simpl; rewrite ?E, IH; reflexivity.
Qed.

Lemma reduce_add_zero {A : Type} (l : list A) : reduce_add (fun _ => 0%float) l = 0%float.
Proof.
  unfold reduce_add. induction l as [|x l IH]; simpl; [reflexivity |].
  exact IH.
Qed.

Section ReportMore.
Context `{B : Builtins}.

(** X12. The totals of the report count no ledger entry but the expenses:
    income, commission, the unpaid amounts and the amount due are computed
    from the policies alone, and the total of expenses is the same when
    every entry of another type (the payments) is taken out of the
    ledger. *)
Theorem report_counts_expenses_only (startDate endDate : string)
    (policies : list Policy.t) (paymentsExpenses others : list LedgerEntry.t) :
  let r := FinancialReports.render startDate endDate policies paymentsExpenses in
  let expenses :=
    List.filter (fun item => LedgerEntry.type item =? "Expense") paymentsExpenses in
  let r' := FinancialReports.render startDate endDate policies expenses in
  let r'' := FinancialReports.render startDate endDate policies others in
  FinancialReports.totalExpenses r' = FinancialReports.totalExpenses r
  /\ FinancialReports.totalIncome r'' = FinancialReports.totalIncome r
  /\ FinancialReports.totalCommission r'' = FinancialReports.totalCommission r
  /\ FinancialReports.commissionNotPaidToInsurer r''
     = FinancialReports.commissionNotPaidToInsurer r
  /\ FinancialReports.totalUnpaidToInsurer r'' = FinancialReports.totalUnpaidToInsurer r
  /\ FinancialReports.amountDueToInsurer r'' = FinancialReports.amountDueToInsurer r.
Proof.
  unfold FinancialReports.render, FinancialReports.applyDateRange.
  destruct (negb (startDate =? "") && negb (endDate =? "")); simpl.
  - split; [| repeat split].
    rewrite !(filter_comm (fun item => LedgerEntry.type item =? "Expense")
                (FinancialReports.itemInRange _ _)).
    now rewrite filter_idem.
  - split; [| repeat split]. now rewrite filter_idem.
Qed.

(** X13. The amount due to the insurer at the two ends: it is 0 when
    every policy of the report is paid to the insurer, and it is the total
    income less the total commission when none is. *)
Theorem amount_due_extremes (startDate endDate : string)
    (policies : list Policy.t) (paymentsExpenses : list LedgerEntry.t) :
  let r := FinancialReports.render startDate endDate policies paymentsExpenses in
  ((forall p, In p (FinancialReports.filteredPoliciesReport r) ->
      Policy.paidToInsurer p = true) ->
   FinancialReports.totalUnpaidToInsurer r = 0%float
   /\ FinancialReports.commissionNotPaidToInsurer r = 0%float
   /\ FinancialReports.amountDueToInsurer r = 0%float)
  /\ ((forall p, In p (FinancialReports.filteredPoliciesReport r) ->
         Policy.paidToInsurer p = false) ->
      FinancialReports.amountDueToInsurer r
      = (FinancialReports.totalIncome r - FinancialReports.totalCommission r)%float).
Proof.
  unfold FinancialReports.render.
  destruct (FinancialReports.applyDateRange startDate endDate policies paymentsExpenses)
    as [fp fe]. simpl.
  assert (Hext : forall (f g : Policy.t -> float),
            (forall p, In p fp -> f p = g p) -> reduce_add f fp = reduce_add g fp).
  { intros f g. unfold reduce_add. generalize 0%float.
    induction fp as [|p l IH]; intros acc Hfg; simpl; [reflexivity |].
    rewrite (Hfg p) by now left. apply IH. intros q Hq. apply Hfg. now right. }
  split.
  - intros Hpaid.
    rewrite (Hext _ (fun _ => 0%float)) by (intros p Hp; now rewrite (Hpaid p Hp)).
    rewrite (Hext (fun policy => if Policy.paidToInsurer policy then _ else _)
               (fun _ => 0%float)) by (intros p Hp; now rewrite (Hpaid p Hp)).
    rewrite reduce_add_zero. repeat split.
  - intros Hnone.
    rewrite (Hext (fun policy => if Policy.paidToInsurer policy then _ else
                                   orZero (parseFloat (Policy.totalAmount policy)))
               (fun policy => orZero (parseFloat (Policy.totalAmount policy))))
      by (intros p Hp; now rewrite (Hnone p Hp)).
    rewrite (Hext (fun policy => if Policy.paidToInsurer policy then _ else
                                   orZero (parseFloat (Policy.commission policy)))
               (fun policy => orZero (parseFloat (Policy.commission policy))))
      by (intros p Hp; now rewrite (Hnone p Hp)).
    reflexivity.
Qed.

End ReportMore.

(** ** More on the customer list *)

Lemma list_sum_add {A : Type} (a b : A -> nat) (l : list A) :
  list_sum (List.map (fun x => a x + b x) l)
  = list_sum (List.map a l) + list_sum (List.map b l).
Proof. induction l as [|x l IH]; simpl; [reflexivity | rewrite IH; lia]. Qed.

Lemma list_sum_indicator (keys : list string) (o : option string) :
  NoDup keys ->
  list_sum (List.map (fun k => if bool_decide (o = Some k) then 1 else 0) keys)
  = match o with
    | Some k => if bool_decide (k ∈ keys) then 1 else 0
    | None => 0
    end.
Proof.
  induction keys as [|k keys IH]; intros Hnd; simpl.
  - destruct o; reflexivity.
  - apply NoDup_cons in Hnd as [Hk Hnd]. rewrite IH by exact Hnd.
    destruct o as [k0|]; [| reflexivity].
    destruct (decide (k0 = k)) as [->|Hne].
    + rewrite (bool_decide_eq_true_2 (Some k = Some k)) by reflexivity.
      rewrite (bool_decide_eq_false_2 (k ∈ keys)) by exact Hk.
      now rewrite (bool_decide_eq_true_2 (k ∈ k :: keys)) by apply list_elem_of_here.
    + rewrite (bool_decide_eq_false_2 (Some k0 = Some k)) by congruence.
      destruct (decide (k0 ∈ keys)) as [Hin|Hin].
      * rewrite (bool_decide_eq_true_2 _ Hin).
        now rewrite (bool_decide_eq_true_2 (k0 ∈ k :: keys)) by now apply list_elem_of_further.
      * rewrite (bool_decide_eq_false_2 _ Hin).
        rewrite (bool_decide_eq_false_2 (k0 ∈ k :: keys)); [reflexivity |].
        rewrite elem_of_cons. tauto.
Qed.

Section CustomerCounts.
Context `{B : Builtins}.

Lemma policiesOf_partition (keys : list string) (P : list Policy.t) :
  NoDup keys ->
  (forall p k, In p P -> Spec.customerId p = Some k -> In k keys) ->
  list_sum (List.map (fun k => length (Spec.policiesOf k P)) keys)
  = length (List.filter (fun p => bool_decide (is_Some (Spec.customerId p))) P).
Proof.
  intros Hnd. induction P as [|p P IH]; intros Hkeys; simpl.
  - clear. induction keys as [|k keys IHk]; simpl; auto.
  - rewrite (List.map_ext _
               (fun k => (if bool_decide (Spec.customerId p = Some k) then 1 else 0)
                         + length (Spec.policiesOf k P))).
    2:{ intros k. now destruct (bool_decide (Spec.customerId p = Some k)). }
    rewrite list_sum_add, list_sum_indicator by exact Hnd.
    rewrite IH by (intros q k Hq; apply Hkeys; now right).
    destruct (Spec.customerId p) as [k0|] eqn:E.
    + rewrite (bool_decide_eq_true_2 (k0 ∈ keys))
        by (apply list_elem_of_In, (Hkeys p); [now left | exact E]).
      now rewrite (bool_decide_eq_true_2 (is_Some (Some k0))) by eauto.
    + rewrite (bool_decide_eq_false_2 (is_Some None)); [reflexivity |].
      intros [? [=]].
Qed.

(** X14. The customer list counts every policy that names a customer
    exactly once: the policy counts of its rows add up to the number of
    policies that have a customer with an ID number, each of these
    policies is among the policies of the row of its customer's ID number,
    and a policy without a customer or without an ID number is in no
    row's count. *)
Theorem customers_count_each_policy_once (policies : list Policy.t)
    (rows : list CustomerManagement.Row) :
  CustomerManagement.customersList policies = Normal rows ->
  list_sum (List.map CustomerManagement.policiesCount rows)
  = length (List.filter (fun p => bool_decide (is_Some (Spec.customerId p))) policies)
  /\ (forall p k, In p policies -> Spec.customerId p = Some k ->
        exists row, In row rows /\ CustomerManagement.idNumber row = k
                    /\ In (CustomerManagement.refOf p) (CustomerManagement.associatedPolicies row))
  /\ (forall row, In row rows ->
        CustomerManagement.policiesCount row
        = length (CustomerManagement.associatedPolicies row)
        /\ 0 < CustomerManagement.policiesCount row).
Proof.
  intros Hlist.
  unfold CustomerManagement.customersList in Hlist.
  destruct (CustomerManagement.uniqueCustomers policies) as [m|] eqn:Hm; [| discriminate].
  pose proof (uniqueCustomers_Normal_own policies m Hm) as Hown.
  destruct (customersList_rows policies Hown) as (rows' & Hrows' & Hnd & Hkeys & Hall).
  unfold CustomerManagement.customersList in Hrows'. rewrite Hm in Hrows'.
  simpl in Hlist, Hrows'. injection Hlist as <-. injection Hrows' as <-.
  set (rows := (map_to_list m).*2) in *.
  split; [| split].
  - rewrite <- (policiesOf_partition (List.map CustomerManagement.idNumber rows)).
    + rewrite List.map_map. f_equal. apply List.map_ext_in. intros row Hrow.
      now destruct (rowOf_Some _ policies row (Hall row Hrow)) as (_ & -> & _).
    + exact Hnd.
    + intros p k Hp Hk. apply Hkeys. eauto.
  - intros p k Hp Hk.
    assert (Hin : In k (List.map CustomerManagement.idNumber rows)) by (apply Hkeys; eauto).
    apply in_map_iff in Hin as (row & Hid & Hrow). exists row. split; [exact Hrow |].
    split; [exact Hid |].
    pose proof (Hall row Hrow) as Hr. rewrite Hid in Hr.
    destruct (rowOf_associated k policies row Hr) as [-> _].
    apply List.in_map, filter_In. split; [exact Hp | now apply bool_decide_eq_true].
  - intros row Hrow. pose proof (Hall row Hrow) as Hr.
    destruct (rowOf_associated _ policies row Hr) as [Ha _].
    apply rowOf_Some in Hr as (_ & Hc & _ & first & rest & c & E & _).
    rewrite Hc, Ha, length_map, E. simpl. split; [reflexivity | lia].
Qed.

End CustomerCounts.

Lemma customers_count_each_policy_once_witness :
  exists rows,
    CustomerManagement.customersList (B := refBuiltins) (Sample.policies ++ [Sample.t1])
    = Normal rows
    /\ list_sum (List.map CustomerManagement.policiesCount rows) = 3.
Proof.
  assert (Hown : Spec.ownKeysOnly (Sample.policies ++ [Sample.t1])).
  { intros p k Hp Hk. apply in_app_or in Hp as [Hp | [<- | []]]; [| discriminate].
    now apply (sample_ownKeysOnly p). }
  destruct (customersList_rows (B := refBuiltins) _ Hown) as (rows & Hrows & _).
  exists rows. split; [exact Hrows |].
  exact (proj1 (customers_count_each_policy_once (B := refBuiltins) _ rows Hrows)).
Defined.

(** ** [formatDate] on the dates of the date inputs *)

Module DateRoundTrip.

Local Open Scope Z_scope.

(** The two conversions agree over one cycle of 400 years. *)
Lemma civil_cycle :
  forallb (fun r : nat =>
    forallb (fun m : nat =>
      forallb (fun d : nat =>
        RefFormat.round_trips (Z.of_nat r) (Z.of_nat m) (Z.of_nat d))
        (seq 1 31)) (seq 1 12)) (seq 0 400) = true.
Proof. vm_compute. reflexivity. Qed.

Lemma days_from_civil_shift (y m d q : Z) :
  Ref.days_from_civil (y + 400 * q) m d = Ref.days_from_civil y m d + q * 146097.
Proof.
  unfold Ref.days_from_civil. cbv zeta.
  set (a := if m <=? 2 then y - 1 else y).
  replace (if m <=? 2 then y + 400 * q - 1 else y + 400 * q) with (a + q * 400)
    by (unfold a; destruct (m <=? 2); ring).
  rewrite Z.div_add by lia.
  replace (a + q * 400 - (a / 400 + q) * 400) with (a - a / 400 * 400) by ring.
  ring.
Qed.

Lemma civil_from_days_shift (z q : Z) :
  RefFormat.civil_from_days (z + q * 146097)
  = let '(y, m, d) := RefFormat.civil_from_days z in (y + 400 * q, m, d).
Proof.
  unfold RefFormat.civil_from_days. cbv zeta.
  replace (z + q * 146097 + 719468) with (z + 719468 + q * 146097) by ring.
  rewrite Z.div_add by lia.
  replace (z + 719468 + q * 146097 - ((z + 719468) / 146097 + q) * 146097)
    with (z + 719468 - (z + 719468) / 146097 * 146097) by ring.
  f_equal. f_equal. ring.
Qed.

Lemma days_in_month_shift (y m q : Z) :
  Ref.days_in_month (y + 400 * q) m = Ref.days_in_month y m.
Proof.
  unfold Ref.days_in_month, Ref.is_leap.
  replace ((y + 400 * q) mod 4) with (y mod 4)
    by (replace (y + 400 * q) with (y + (100 * q) * 4) by ring; now rewrite Z.mod_add).
  replace ((y + 400 * q) mod 100) with (y mod 100)
    by (replace (y + 400 * q) with (y + (4 * q) * 100) by ring; now rewrite Z.mod_add).
  replace ((y + 400 * q) mod 400) with (y mod 400)
    by (replace (y + 400 * q) with (y + q * 400) by ring; now rewrite Z.mod_add).
  reflexivity.
Qed.

(** The day of a civil date is the day of that date and of no other. *)
Lemma civil_from_days_from_civil (y m d : Z) :
  1 <= m <= 12 -> 1 <= d <= Ref.days_in_month y m ->
  RefFormat.civil_from_days (Ref.days_from_civil y m d) = (y, m, d).
Proof.
  intros Hm Hd.
  pose proof (Z.div_mod y 400 ltac:(lia)) as Hy.
  pose proof (Z.mod_pos_bound y 400 ltac:(lia)) as Hr.
  set (q := y / 400) in *. set (r := y mod 400) in *.
  assert (Ey : y = r + 400 * q) by lia. rewrite Ey in Hd |- *.
  rewrite days_in_month_shift in Hd.
  rewrite days_from_civil_shift, civil_from_days_shift.
  assert (Hd31 : d <= 31).
  { unfold Ref.days_in_month in Hd.
    destruct (m =? 2); [destruct (Ref.is_leap r) | destruct (_ || _)]; lia. }
  assert (Hc : RefFormat.round_trips r m d = true).
  { pose proof civil_cycle as Hc.
    apply forallb_forall with (x := Z.to_nat r) in Hc; [| apply in_seq; lia].
    apply forallb_forall with (x := Z.to_nat m) in Hc; [| apply in_seq; lia].
    apply forallb_forall with (x := Z.to_nat d) in Hc; [| apply in_seq; lia].
    now rewrite !Z2Nat.id in Hc by lia. }
  unfold RefFormat.round_trips in Hc.
  rewrite (proj2 (Z.leb_le _ _)) in Hc by lia.
  destruct (RefFormat.civil_from_days (Ref.days_from_civil r m d)) as [[y' m'] d'].
  apply andb_true_iff in Hc as [Hc Hd']. apply andb_true_iff in Hc as [Hy' Hm'].
  apply Z.eqb_eq in Hy', Hm', Hd'. now rewrite Hy', Hm', Hd'.
Qed.

Lemma digit_char_digit (c : ascii) (d : Z) :
  Ref.digit c = Some d ->
  RefFormat.digit_char d = c /\ 0 <= d < 10 /\ Ascii.eqb c "T" = false.
Proof.
  unfold Ref.digit, RefFormat.digit_char.
  destruct (_ && _)%bool eqn:E; [| discriminate]. intros [= <-].
  assert (HT : Ascii.eqb c "T" = false).
  { destruct (Ascii.eqb_spec c "T") as [->|]; [discriminate E | reflexivity]. }
  apply andb_true_iff in E as [E1 E2]. apply Nat.leb_le in E1, E2.
  rewrite Nat2Z.id. replace (48 + (nat_of_ascii c - 48))%nat with (nat_of_ascii c) by lia.
  rewrite ascii_nat_embedding. split; [reflexivity |]. split; [lia | exact HT].
Qed.

(** What [Ref.digits] reads is what [RefFormat.padded] prints. *)
Lemma digits_padded (s : string) (acc : Z) (n : nat) (v : Z) (n' : nat) (rest : string) :
  0 <= acc -> Ref.digits acc n s = (v, n', rest) ->
  exists pre : string,
    s = (pre ++ rest)%string /\ n' = (n + String.length pre)%nat
    /\ acc * 10 ^ Z.of_nat (String.length pre) <= v
       < (acc + 1) * 10 ^ Z.of_nat (String.length pre)
    /\ (forall k tail,
          RefFormat.padded (k + String.length pre) v tail
          = RefFormat.padded k acc (pre ++ tail)%string)
    /\ (forall x, split_T_0 (pre ++ x)%string = (pre ++ split_T_0 x)%string).
Proof.
  revert acc n. induction s as [|c s IH]; intros acc n Hacc; simpl.
  - intros [= <- <- <-]. exists ""%string. simpl.
    repeat split; try lia. intros k tail. now rewrite Nat.add_0_r.
  - destruct (Ref.digit c) as [d|] eqn:Ed.
    + destruct (digit_char_digit c d Ed) as (Hc & Hd & HT).
      intros H. apply IH in H as (pre & -> & -> & Hv & Hpad & Hsplit); [| lia].
      exists (String c pre). simpl. split; [reflexivity |]. split; [lia |].
      split; [| split].
      * rewrite Nat2Z.inj_succ, Z.pow_succ_r by lia. nia.
      * intros k tail. replace (k + S (String.length pre))%nat
          with (S k + String.length pre)%nat by lia.
        rewrite Hpad. simpl.
        replace ((acc * 10 + d) / 10) with acc by (Z.to_euclidean_division_equations; lia).
        replace ((acc * 10 + d) mod 10) with d by (Z.to_euclidean_division_equations; lia).
        now rewrite Hc.
      * intros x. now rewrite HT, Hsplit.
    + intros [= <- <- <-]. exists ""%string. simpl.
      repeat split; try lia. intros k tail. now rewrite Nat.add_0_r.
Qed.

Lemma append_nil_r (s : string) : (s ++ "")%string = s.
Proof.
  induction s as [|c s IH]; [reflexivity |].
  change (String c (s ++ "") = String c s)%string. now rewrite IH.
Qed.

Lemma digits_field (s : string) (n : nat) (v : Z) (rest : string) :
  Ref.digits 0 0 s = (v, n, rest) ->
  exists pre : string,
    s = (pre ++ rest)%string /\ 0 <= v < 10 ^ Z.of_nat n
    /\ (forall tail, RefFormat.padded n v tail = (pre ++ tail)%string)
    /\ (forall x, split_T_0 (pre ++ x)%string = (pre ++ split_T_0 x)%string).
Proof.
  intros H. apply digits_padded in H as (pre & -> & -> & Hv & Hpad & Hsplit); [| lia].
  exists pre. split; [reflexivity |]. simpl in *. split; [lia |]. split; [| exact Hsplit].
  intros tail. apply (Hpad 0%nat).
Qed.

(** The three fields of a date that [Ref.Date_parse] reads, and how
    they print. *)
Lemma Date_parse_fields (s : string) (t : Z) :
  Ref.Date_parse s = Some t ->
  exists (y m d : Z) (sy sm sd : string),
    s = (sy ++ String "-" (sm ++ String "-" sd))%string
    /\ 0 <= y <= 9999 /\ 1 <= m <= 12 /\ 1 <= d <= Ref.days_in_month y m
    /\ t = Ref.days_from_civil y m d * Ref.msPerDay
    /\ RefFormat.padded 4 y "" = sy /\ RefFormat.padded 2 m "" = sm
    /\ RefFormat.padded 2 d "" = sd
    /\ (forall x, split_T_0 (sy ++ x)%string = (sy ++ split_T_0 x)%string)
    /\ (forall x, split_T_0 (sm ++ x)%string = (sm ++ split_T_0 x)%string)
    /\ (forall x, split_T_0 (sd ++ x)%string = (sd ++ split_T_0 x)%string).
Proof.
  unfold Ref.Date_parse.
  destruct (Ref.digits 0 0 s) as [[y ny] r0] eqn:Ey.
  destruct ny as [|[|[|[|[|ny]]]]]; try discriminate.
  destruct r0 as [|c r1]; [discriminate |].
  destruct (Ascii.eqb_spec c "-") as [->|Hc].
  2:{ destruct c as [[] [] [] [] [] [] [] []]; try discriminate. now contradict Hc. }
  destruct (Ref.digits 0 0 r1) as [[m nm] r0] eqn:Em.
  destruct nm as [|[|[|nm]]]; try discriminate.
  destruct r0 as [|c r2]; [discriminate |].
  destruct (Ascii.eqb_spec c "-") as [->|Hc].
  2:{ destruct c as [[] [] [] [] [] [] [] []]; try discriminate. now contradict Hc. }
  destruct (Ref.digits 0 0 r2) as [[d nd] r0] eqn:Ed.
  destruct nd as [|[|[|nd]]]; try discriminate.
  destruct r0 as [|c r3]; [| discriminate].
  destruct (_ && _ && _ && _)%bool eqn:Ev; [| discriminate].
  intros [= <-].
  apply andb_true_iff in Ev as [Ev Hd2]. apply andb_true_iff in Ev as [Ev Hd1].
  apply andb_true_iff in Ev as [Hm1 Hm2].
  apply Z.leb_le in Hm1, Hm2, Hd1, Hd2.
  destruct (digits_field _ _ _ _ Ey) as (sy & Hs & Hy & Hpy & Hty).
  destruct (digits_field _ _ _ _ Em) as (sm & Hr1 & _ & Hpm & Htm).
  destruct (digits_field _ _ _ _ Ed) as (sd & Hr2 & _ & Hpd & Htd).
  rewrite append_nil_r in Hr2. subst r2 r1.
  exists y, m, d, sy, sm, sd.
  rewrite Hpy, Hpm, Hpd, !append_nil_r. simpl in Hy.
  repeat split; auto; lia.
Qed.

End DateRoundTrip.

(** X15. [formatDate] gives back the dates of the date inputs: a string
    [YYYY-MM-DD] that names a day of the calendar is returned as it is
    (here with the executable built-ins; a date-only string is read, and
    [toISOString] prints, in UTC on every host). *)
Theorem formatDate_round_trip (s : string) (t : Z) :
  Date_parse (Builtins := refBuiltins) s = Some t ->
  formatDate (B := refBuiltins) (F := refFormatting) (Some s) = Normal s.
Proof.
  intros Hparse. unfold formatDate.
  destruct (DateRoundTrip.Date_parse_fields s t Hparse)
    as (y & m & d & sy & sm & sd & Hs & Hy & Hm & Hd & Ht & Hpy & Hpm & Hpd
        & Hty & Htm & Htd).
  assert (Hne : truthy (Some s) = true).
  { rewrite Hs. simpl. destruct sy; reflexivity. }
  rewrite Hne. cbn [newDate]. rewrite Hparse. f_equal.
  change (toISOString t) with (RefFormat.toISOString t).
  unfold RefFormat.toISOString. rewrite Ht.
  rewrite Z.div_mul, Z.mod_mul by discriminate.
  rewrite (DateRoundTrip.civil_from_days_from_civil y m d Hm Hd).
  unfold RefFormat.iso_year.
  replace ((0 <=? y) && (y <=? 9999))%Z with true
    by (symmetry; apply andb_true_iff; split; apply Z.leb_le; lia).
  rewrite Hpy, Hpm, Hpd, Hs, Hty. f_equal.
  change (String "-" (split_T_0 (sm ++ "-" ++ sd ++ "T" ++ RefFormat.padded 2 (0 / 3600000) ""
                                  ++ ":" ++ RefFormat.padded 2 (0 / 60000 mod 60) ""
                                  ++ ":" ++ RefFormat.padded 2 (0 / 1000 mod 60) ""
                                  ++ "." ++ RefFormat.padded 3 (0 mod 1000) "" ++ "Z"))
          = String "-" (sm ++ String "-" sd))%Z.
  rewrite Htm. do 2 f_equal.
  change (String "-" (split_T_0 (sd ++ "T" ++ RefFormat.padded 2 (0 / 3600000) ""
                                  ++ ":" ++ RefFormat.padded 2 (0 / 60000 mod 60) ""
                                  ++ ":" ++ RefFormat.padded 2 (0 / 1000 mod 60) ""
                                  ++ "." ++ RefFormat.padded 3 (0 mod 1000) "" ++ "Z"))
          = String "-" sd)%Z.
  rewrite Htd. f_equal. apply DateRoundTrip.append_nil_r.
Qed.

Lemma formatDate_round_trip_witness :
  Date_parse (Builtins := refBuiltins) "2024-02-29" = Some 1709164800000%Z
  /\ formatDate (B := refBuiltins) (F := refFormatting) (Some "2024-02-29")
     = Normal "2024-02-29".
Proof.
  split; [reflexivity |].
  exact (formatDate_round_trip "2024-02-29" 1709164800000 eq_refl).
Defined.

(** ** The form of a policy *)

Section EditPolicyProperties.
Context `{B : Builtins} `{F : Formatting}.
Variable storeFailure : Call.t -> option Failure.
Variable serverTime : Timestamp.
Variable env : App.Env.

Lemma formatDate_throws (o : option string) :
  formatDate o = Throw "RangeError" <-> truthy o = true /\ newDate o = None.
Proof.
  unfold formatDate. destruct (truthy o); [| split; [discriminate | intros [[=] _]]].
  destruct (newDate o); split; try discriminate; auto. intros [_ [=]].
Qed.

(** X16. Opening the edit form of a policy whose policy date or
    valid-until date is present and cannot be read as a date throws a
    RangeError (toISOString on an Invalid Date), and only then; otherwise
    the form holds the policy with nothing but the two dates reformatted,
    a missing date as the empty string. *)
Theorem editPolicyData_opens (policy : Policy.t) :
  let unreadable (o : option string) := truthy o = true /\ newDate o = None in
  let kept (p : Policy.t) :=
    (Policy.id p, Policy.policyType p, Policy.policyNumber p, Policy.totalAmount p,
     Policy.commission p, Policy.vehicleNumber p, Policy.insuranceType p,
     Policy.paidByCustomer p, Policy.paidToInsurer p, Policy.customer p,
     Policy.createdAt p) in
  (EditPolicyModal.editPolicyData policy = Throw "RangeError"
   <-> unreadable (Policy.policyDate policy) \/ unreadable (Policy.validUntil policy))
  /\ (forall e, EditPolicyModal.editPolicyData policy = Throw e -> e = "RangeError")
  /\ (forall data, EditPolicyModal.editPolicyData policy = Normal data ->
        kept data = kept policy
        /\ formatDate (Policy.policyDate policy) = Normal (default "" (Policy.policyDate data))
        /\ formatDate (Policy.validUntil policy) = Normal (default "" (Policy.validUntil data))
        /\ (truthy (Policy.policyDate policy) = false -> Policy.policyDate data = Some "")
        /\ (truthy (Policy.validUntil policy) = false -> Policy.validUntil data = Some "")).
Proof.
  intros unreadable kept. unfold EditPolicyModal.editPolicyData, unreadable.
  rewrite <- !formatDate_throws.
  assert (He : forall o e, formatDate o = Throw e -> e = "RangeError").
  { intros o e. unfold formatDate. destruct (truthy o); [| discriminate].
    destruct (newDate o); [discriminate | now intros [= <-]]. }
  assert (Hm : forall o s, truthy o = false -> formatDate o = Normal s -> s = "").
  { intros o s Ho. unfold formatDate. rewrite Ho. now intros [= <-]. }
  destruct (formatDate (Policy.policyDate policy)) as [d1|e1] eqn:E1;
    destruct (formatDate (Policy.validUntil policy)) as [d2|e2] eqn:E2; simpl.
  - split; [split; [discriminate | intros [H | H]; discriminate] |].
    split; [discriminate |]. intros data [= <-]. simpl.
    repeat split; intros Ho; f_equal; eauto.
  - pose proof (He _ _ E2) as ->.
    split; [split; auto |]. split; [now intros e [= <-] | discriminate].
  - pose proof (He _ _ E1) as ->.
    split; [split; auto |]. split; [now intros e [= <-] | discriminate].
  - pose proof (He _ _ E1) as ->.
    split; [split; auto |]. split; [now intros e [= <-] | discriminate].
Qed.

Lemma execute_policy_update (st : Store.t) (id : string) (data : PolicyData.t) :
  Handlers.execute storeFailure serverTime env st
    (Call.updateDoc (App.policiesPath env) id (policyData data))
  = match storeFailure (Call.updateDoc (App.policiesPath env) id (policyData data)) with
    | Some _ => st
    | None => Handlers.updateWhere id (Handlers.updatedPolicy serverTime data) st
    end.
Proof.
  unfold Handlers.execute. destruct (storeFailure _); [reflexivity |].
  simpl. now rewrite String.eqb_refl.
Qed.

(** X17. Saving the form of a policy as it was opened changes nothing in
    the store, for a policy as the policy form writes it: amounts stored
    as numbers that print and parse to themselves, a customer, and dates
    that formatDate returns as they are. *)
Theorem edit_policy_save_unchanged (st : Store.t) (policy : Policy.t) (x y : float)
    (c : Customer.t) (policyDate validUntil : string) :
  Spec.signedIn env ->
  NoDup (List.map Policy.id (Store.policies st)) ->
  In policy (Store.policies st) -> Policy.id policy <> "" ->
  Policy.totalAmount policy = VNumber x -> parseFloat (VNumber x) = x ->
  Policy.commission policy = VNumber y -> orZero (parseFloat (VNumber y)) = y ->
  Policy.customer policy = Some c ->
  Policy.policyDate policy = Some policyDate ->
  formatDate (Some policyDate) = Normal policyDate ->
  Policy.validUntil policy = Some validUntil ->
  formatDate (Some validUntil) = Normal validUntil ->
  (forall call, storeFailure call = None) ->
  EditPolicyModal.editPolicyData policy = Normal policy
  /\ let out := App.handleUpdatePolicy (Handlers.storeError storeFailure) env policy in
     App.modalMessage out = Some "Policy updated successfully!"
     /\ Handlers.executeAll storeFailure serverTime env st (List.map callOf (App.requests out))
        = st.
Proof.
  intros Hin Hnd Hp Hid Hx Hpx Hy Hpy Hc Hd1 Hf1 Hd2 Hf2 Hacc. split.
  - unfold EditPolicyModal.editPolicyData. rewrite Hd1, Hf1, Hd2, Hf2. simpl.
    f_equal. destruct policy. simpl in *. congruence.
  - unfold App.handleUpdatePolicy.
    rewrite (proj2 (signedIn_guard env) Hin). unfold App.empty.
    rewrite (proj2 (String.eqb_neq _ _) Hid), Hc, Hx, Hy, Hpx, Hpy. cbn [orb].
    unfold Handlers.storeError at 1 2. rewrite Hacc. cbn [fmap option_fmap option_map].
    split; [reflexivity |].
    unfold Handlers.executeAll. cbn [App.requests List.map fold_left callOf].
    rewrite execute_policy_update, Hacc.
    unfold Handlers.updateWhere. destruct st as [ps ls].
    cbn [Store.policies Store.payments_expenses] in *. f_equal.
    rewrite <- (List.map_id ps) at 2. apply List.map_ext_in. intros q Hq.
    destruct (String.eqb_spec (Policy.id q) (Policy.id policy)) as [E|E]; [| reflexivity].
    assert (q = policy) by (apply (NoDup_map_inj_In Policy.id ps); auto). subst q.
    unfold Handlers.updatedPolicy. destruct policy.
    cbn [Policy.id Policy.policyType Policy.policyNumber Policy.policyDate Policy.validUntil
         Policy.totalAmount Policy.commission Policy.vehicleNumber Policy.insuranceType
         Policy.paidByCustomer Policy.paidToInsurer Policy.customer Policy.createdAt
         PolicyData.policyType PolicyData.policyNumber PolicyData.policyDate
         PolicyData.validUntil PolicyData.totalAmount PolicyData.commission
         PolicyData.vehicleNumber PolicyData.insuranceType PolicyData.paidByCustomer
         PolicyData.paidToInsurer PolicyData.customer PolicyData.createdAt] in *.
    congruence.
Qed.

(** X18. Saving the form of a policy, whatever was typed into it and
    whatever the store does with the call, leaves the ledger as it was,
    every policy of another id as it was, and the id and the creation time
    of every policy as they were: the policies stay in their places in the
    list. *)
Theorem handleUpdatePolicy_frame (st : Store.t) (updatedPolicy : Policy.t) :
  let out := App.handleUpdatePolicy (Handlers.storeError storeFailure) env updatedPolicy in
  let st' :=
    Handlers.executeAll storeFailure serverTime env st (List.map callOf (App.requests out)) in
  Store.payments_expenses st' = Store.payments_expenses st
  /\ List.map (fun p => (Policy.id p, Policy.createdAt p)) (Store.policies st')
     = List.map (fun p => (Policy.id p, Policy.createdAt p)) (Store.policies st)
  /\ List.map Policy.id (Listeners.onPoliciesSnapshot (Store.policies st'))
     = List.map Policy.id (Listeners.onPoliciesSnapshot (Store.policies st))
  /\ Forall2 (fun p p' => Policy.id p <> Policy.id updatedPolicy -> p' = p)
       (Store.policies st) (Store.policies st').
Proof.
  intros out st'.
  assert (Hst : exists h, (forall p, Policy.id (h p) = Policy.id p
                                     /\ Policy.createdAt (h p) = Policy.createdAt p
                                     /\ (Policy.id p <> Policy.id updatedPolicy -> h p = p))
                          /\ st' = {| Store.policies := List.map h (Store.policies st);
                                      Store.payments_expenses := Store.payments_expenses st |}).
  { assert (Hid : exists h, (forall p, Policy.id (h p) = Policy.id p
                                     /\ Policy.createdAt (h p) = Policy.createdAt p
                                     /\ (Policy.id p <> Policy.id updatedPolicy -> h p = p))
                          /\ st = {| Store.policies := List.map h (Store.policies st);
                                     Store.payments_expenses := Store.payments_expenses st |}).
    { exists (fun p => p). split; [auto |]. rewrite List.map_id. now destruct st. }
    unfold st', out, App.handleUpdatePolicy.
    destruct (_ || _); [exact Hid |].
    destruct (Policy.customer updatedPolicy) as [c|]; [| exact Hid].
    match goal with |- context [updateDoc ?a ?b ?d] => set (data := d) end.
    assert (Hreq : forall m,
              App.requests {| App.requests := [updateDoc (App.policiesPath env)
                                                 (Policy.id updatedPolicy) data];
                              App.modalMessage := m; App.confirmPrompt := None |}
              = [updateDoc (App.policiesPath env) (Policy.id updatedPolicy) data])
      by reflexivity.
    destruct (Handlers.storeError storeFailure _); rewrite Hreq;
      unfold Handlers.executeAll; cbn [List.map fold_left callOf];
      rewrite execute_policy_update;
      (destruct (storeFailure _); [exact Hid |]);
      (eexists; split; [| reflexivity]);
      intros p; cbn beta;
      (destruct (String.eqb_spec (Policy.id p) (Policy.id updatedPolicy)) as [E|E];
       [repeat split; congruence | auto]). }
  destruct Hst as (h & Hh & ->). cbn [Store.policies Store.payments_expenses].
  split; [reflexivity |]. split; [| split].
  - rewrite List.map_map. apply List.map_ext. intros p.
    destruct (Hh p) as (-> & -> & _). reflexivity.
  - rewrite snapshot_map by (intros p; apply Hh). rewrite List.map_map.
    apply List.map_ext. intros p. apply Hh.
  - induction (Store.policies st) as [|p l IH]; simpl; constructor; [| exact IH].
    apply Hh.
Qed.

End EditPolicyProperties.

Lemma edit_policy_save_unchanged_witness :
  In Sample.p1 (Store.policies Sample.store)
  /\ formatDate (B := refBuiltins) (F := refFormatting) (Some "2024-01-15") = Normal "2024-01-15"
  /\ formatDate (B := refBuiltins) (F := refFormatting) (Some "2024-05-09") = Normal "2024-05-09"
  /\ EditPolicyModal.editPolicyData (B := refBuiltins) (F := refFormatting) Sample.p1
     = Normal Sample.p1
  /\ Handlers.executeAll Scenario.accepts Scenario.serverTime Sample.signedInEnv Sample.store
       (List.map callOf
          (App.requests
             (App.handleUpdatePolicy (B := refBuiltins)
                (Handlers.storeError Scenario.accepts) Sample.signedInEnv Sample.p1)))
     = Sample.store.
Proof.
  assert (Hin : Spec.signedIn Sample.signedInEnv).
  { split; [reflexivity |]. exists "u1". split; [reflexivity | discriminate]. }
  assert (H1 : formatDate (B := refBuiltins) (F := refFormatting) (Some "2024-01-15")
               = Normal "2024-01-15") by (vm_compute; reflexivity).
  assert (H2 : formatDate (B := refBuiltins) (F := refFormatting) (Some "2024-05-09")
               = Normal "2024-05-09") by (vm_compute; reflexivity).
  split; [now left |]. split; [exact H1 |]. split; [exact H2 |].
  assert (Hid : Policy.id Sample.p1 <> "") by discriminate.
  destruct (edit_policy_save_unchanged (B := refBuiltins) (F := refFormatting)
              Scenario.accepts Scenario.serverTime Sample.signedInEnv Sample.store
              Sample.p1 100 10 (Sample.customer "Ana" "Ivanova" "A1")
              "2024-01-15" "2024-05-09" Hin sample_ids_NoDup (or_introl eq_refl) Hid
              eq_refl eq_refl eq_refl eq_refl eq_refl eq_refl H1 eq_refl H2
              (fun _ => eq_refl))
    as (Hopen & _ & Hsave).
  split; [exact Hopen | exact Hsave].
Defined.

(** ** Typing into the two forms *)

(** X19. The edits of the two forms compose field by field: of two edits
    of the same input the later one stands, two edits of different inputs
    give the same form in either order, and no edit changes the id or the
    creation time of the policy, or the ID number, the policy count, the
    total or the policies of the customer row. *)
Theorem form_edits_compose (e1 e2 : EditPolicyModal.Event) (policy : Policy.t)
    (n1 n2 : EditCustomerModal.Input) (v1 v2 : string) (row : CustomerManagement.Row) :
  let typed := EditPolicyModal.handleChange in
  let typedRow := EditCustomerModal.handleChange in
  (EditPolicyModal.target e1 = EditPolicyModal.target e2 ->
     typed e2 (typed e1 policy) = typed e2 policy)
  /\ (EditPolicyModal.target e1 <> EditPolicyModal.target e2 ->
      typed e2 (typed e1 policy) = typed e1 (typed e2 policy))
  /\ Policy.id (typed e1 policy) = Policy.id policy
  /\ Policy.createdAt (typed e1 policy) = Policy.createdAt policy
  /\ (n1 = n2 -> typedRow n2 v2 (typedRow n1 v1 row) = typedRow n2 v2 row)
  /\ (n1 <> n2 ->
      typedRow n2 v2 (typedRow n1 v1 row) = typedRow n1 v1 (typedRow n2 v2 row))
  /\ CustomerManagement.idNumber (typedRow n1 v1 row) = CustomerManagement.idNumber row
  /\ CustomerManagement.policiesCount (typedRow n1 v1 row)
     = CustomerManagement.policiesCount row
  /\ CustomerManagement.totalPolicyValue (typedRow n1 v1 row)
     = CustomerManagement.totalPolicyValue row
  /\ CustomerManagement.associatedPolicies (typedRow n1 v1 row)
     = CustomerManagement.associatedPolicies row.
Proof.
  intros typed typedRow.
  destruct e1 as [t1 x1 c1], e2 as [t2 x2 c2]. cbn [EditPolicyModal.target].
  split; [| split; [| split; [| split; [| split; [| split]]]]].
  - intros ->. destruct policy as [? ? ? ? ? ? ? ? ? ? ? [[]|] ?].
    all: destruct t2 as [| | | | | | | | | |[]]; reflexivity.
  - intros Hne. destruct policy as [? ? ? ? ? ? ? ? ? ? ? [[]|] ?].
    all: destruct t1 as [| | | | | | | | | |[]], t2 as [| | | | | | | | | |[]];
      solve [reflexivity | now contradict Hne].
  - reflexivity.
  - reflexivity.
  - intros ->. destruct row, n2; reflexivity.
  - intros Hne. destruct row, n1, n2; solve [reflexivity | now contradict Hne].
  - repeat split.
Qed.
